(** * GitHub activity monitor: the event pipeline of [github_monitor.py]

    A shallow embedding of the poll / deduplicate / enrich / format /
    sign-and-dispatch pipeline, with the properties of its specification
    stated and proved over it.

    Conventions.
    - A Python [str] is a Rocq [string] holding its UTF-8 bytes, so
      [s.encode('utf-8')] and [b.decode('utf-8')] are the identity.
    - The outside world (GitHub, the webhooks, the SQLite file, the clock,
      the operator's Ctrl-C) is a record of oracles, [world]; the program is
      a state-and-exception computation that consumes them in order.
    - The configuration file and the library routines the program calls
      ([hashlib], [hmac], [base64], [urllib.parse]) are not part of the
      repository; the former is a record, the latter are written out from
      their published definitions and checked on test vectors, except
      [urlparse] and [urlunparse], which are oracles of the world like the
      network: nothing is assumed about what they return or raise. *)

From Stdlib Require Import ZArith List String Ascii Bool Lia Arith.
From Stdlib Require Import DecimalString.
Import ListNotations.

Local Open Scope string_scope.
Local Open Scope Z_scope.

(* ================================================================== *)
(** * Strings and bytes *)

Module Str.

Definition byte_of (c : ascii) : Z := Z.of_N (N_of_ascii c).
Definition ascii_of (z : Z) : ascii := ascii_of_N (Z.to_N z).

Definition to_bytes (s : string) : list Z :=
  map byte_of (list_ascii_of_string s).
Definition of_bytes (l : list Z) : string :=
  string_of_list_ascii (map ascii_of l).

(** ["\n"] *)
Definition nl : string := String (ascii_of 10) "".

(** [str(n)] for a Python int *)
Definition of_Z (n : Z) : string := NilZero.string_of_int (Z.to_int n).

(** [c in s] for a single character *)
Fixpoint mem (c : ascii) (s : string) : bool :=
  match s with
  | EmptyString => false
  | String d r => Ascii.eqb c d || mem c r
  end.

(** [sub in s] *)
Fixpoint contains (sub s : string) : bool :=
  String.prefix sub s ||
  match s with
  | EmptyString => false
  | String _ r => contains sub r
  end.

(** [s.replace(a, b)] for single characters *)
Fixpoint replace_char (a b : ascii) (s : string) : string :=
  match s with
  | EmptyString => EmptyString
  | String c r => String (if Ascii.eqb c a then b else c) (replace_char a b r)
  end.

(** [s.replace(old, new)] for a non-empty [old]: leftmost occurrences
    first, never overlapping.  [skip] counts the characters of a match
    still to be dropped. *)
Fixpoint replace_from (skip : nat) (old new s : string) : string :=
  match s with
  | EmptyString => EmptyString
  | String c r =>
      match skip with
      | S k => replace_from k old new r
      | O =>
          if String.prefix old s
          then new ++ replace_from (Nat.pred (String.length old)) old new r
          else String c (replace_from O old new r)
      end
  end.

Definition replace (old new s : string) : string :=
  replace_from O old new s.

(** [s.split(sep)] for a single character: the pieces, in order *)
Fixpoint split_on (sep : ascii) (s : string) : list string :=
  match s with
  | EmptyString => [EmptyString]
  | String c r =>
      if Ascii.eqb c sep then EmptyString :: split_on sep r
      else match split_on sep r with
           | [] => [String c EmptyString]
           | p :: ps => String c p :: ps
           end
  end.

(** [s.split(sep, 1)]: [None] when [sep] does not occur *)
Fixpoint split_once (sep : ascii) (s : string) : option (string * string) :=
  match s with
  | EmptyString => None
  | String c r =>
      if Ascii.eqb c sep then Some (EmptyString, r)
      else match split_once sep r with
           | None => None
           | Some (a, b) => Some (String c a, b)
           end
  end.

(** ["\n".join(lines)] *)
Definition join_lines (lines : list string) : string :=
  String.concat nl lines.

End Str.

(* ================================================================== *)
(** * SHA-256 (FIPS 180-4), the digest behind [hashlib.sha256] *)

Module SHA256.

Definition mask32 : Z := 4294967295.

Definition add32 (x y : Z) : Z := Z.land (x + y) mask32.
Definition rotr (n x : Z) : Z :=
  Z.land (Z.lor (Z.shiftr x n) (Z.shiftl x (32 - n))) mask32.
Definition shr (n x : Z) : Z := Z.shiftr x n.
Definition not32 (x : Z) : Z := Z.lxor x mask32.

Definition Ch (x y z : Z) : Z :=
  Z.lxor (Z.land x y) (Z.land (not32 x) z).
Definition Maj (x y z : Z) : Z :=
  Z.lxor (Z.lxor (Z.land x y) (Z.land x z)) (Z.land y z).
Definition bsig0 (x : Z) : Z :=
  Z.lxor (Z.lxor (rotr 2 x) (rotr 13 x)) (rotr 22 x).
Definition bsig1 (x : Z) : Z :=
  Z.lxor (Z.lxor (rotr 6 x) (rotr 11 x)) (rotr 25 x).
Definition ssig0 (x : Z) : Z :=
  Z.lxor (Z.lxor (rotr 7 x) (rotr 18 x)) (shr 3 x).
Definition ssig1 (x : Z) : Z :=
  Z.lxor (Z.lxor (rotr 17 x) (rotr 19 x)) (shr 10 x).

(** The first sixty-four primes. *)
Definition primes : list Z :=
  [2; 3; 5; 7; 11; 13; 17; 19; 23; 29; 31; 37; 41; 43; 47; 53;
   59; 61; 67; 71; 73; 79; 83; 89; 97; 101; 103; 107; 109; 113; 127; 131;
   137; 139; 149; 151; 157; 163; 167; 173; 179; 181; 191; 193; 197; 199;
   211; 223; 227; 229; 233; 239; 241; 251; 257; 263; 269; 271; 277; 281;
   283; 293; 307; 311].

(** Integer cube root, one bit at a time from the top. *)
Fixpoint icbrt (bits : nat) (n r : Z) : Z :=
  match bits with
  | O => r
  | S b =>
      let c := r + 2 ^ Z.of_nat b in
      if c * c * c <=? n then icbrt b n c else icbrt b n r
  end.

(** Round constants: the first 32 bits of the fractional parts of the
    cube roots of the primes. *)
Definition K : list Z :=
  Eval vm_compute in
    map (fun p => Z.land (icbrt 36 (p * 2 ^ 96) 0) mask32) primes.

(** Initial hash value: the same of the square roots of the first
    eight. *)
Definition H0 : list Z :=
  Eval vm_compute in
    map (fun p => Z.land (Z.sqrt (p * 2 ^ 64)) mask32) (firstn 8 primes).

(** Padding: a 1 bit, zeros up to 56 mod 64, the bit length on 8 bytes. *)
Definition be_bytes (n : nat) (x : Z) : list Z :=
  map (fun i => Z.land (Z.shiftr x (8 * Z.of_nat i)) 255) (rev (seq 0 n)).

Definition pad (msg : list Z) : list Z :=
  let len := Z.of_nat (List.length msg) in
  let zeros := Z.to_nat ((55 - len) mod 64) in
  msg ++ [128] ++ repeat 0 zeros ++ be_bytes 8 (8 * len).

Fixpoint be_words (fuel : nat) (bs : list Z) : list Z :=
  match fuel, bs with
  | S f, b0 :: b1 :: b2 :: b3 :: r =>
      (Z.shiftl b0 24 + Z.shiftl b1 16 + Z.shiftl b2 8 + b3) :: be_words f r
  | _, _ => []
  end.

(** Message schedule, most recent word first. *)
Fixpoint extend (n : nat) (ws : list Z) : list Z :=
  match n with
  | O => ws
  | S n' =>
      let w := add32 (add32 (ssig1 (nth 1 ws 0)) (nth 6 ws 0))
                     (add32 (ssig0 (nth 14 ws 0)) (nth 15 ws 0)) in
      extend n' (w :: ws)
  end.

Definition schedule (block : list Z) : list Z :=
  rev (extend 48 (rev block)).

Definition vars : Type := (Z * Z * Z * Z * Z * Z * Z * Z)%type.

Definition round (v : vars) (kw : Z * Z) : vars :=
  let '(a, b, c, d, e, f, g, h) := v in
  let '(k, w) := kw in
  let t1 := add32 (add32 (add32 h (bsig1 e)) (add32 (Ch e f g) k)) w in
  let t2 := add32 (bsig0 a) (Maj a b c) in
  (add32 t1 t2, a, b, c, add32 d t1, e, f, g).

Definition compress (h : list Z) (block : list Z) : list Z :=
  match h with
  | [a; b; c; d; e; f; g; i] =>
      let '(a', b', c', d', e', f', g', i') :=
        fold_left round (combine K (schedule block)) (a, b, c, d, e, f, g, i) in
      [add32 a a'; add32 b b'; add32 c c'; add32 d d';
       add32 e e'; add32 f f'; add32 g g'; add32 i i']
  | _ => h
  end.

Fixpoint blocks (fuel : nat) (ws : list Z) : list (list Z) :=
  match fuel, ws with
  | S f, _ :: _ => firstn 16 ws :: blocks f (skipn 16 ws)
  | _, _ => []
  end.

(** [hashlib.sha256(msg).digest()] *)
Definition digest (msg : string) : string :=
  let bs := pad (Str.to_bytes msg) in
  let ws := be_words (List.length bs) bs in
  let h := fold_left compress (blocks (List.length ws) ws) H0 in
  Str.of_bytes (flat_map (be_bytes 4) h).

End SHA256.

(* ================================================================== *)
(** * HMAC (RFC 2104), as [hmac.new(key, msg, hashlib.sha256).digest()] *)

Module HMAC.

Definition block_size : nat := 64.

Definition xor_pad (pad : Z) (key : list Z) : list Z :=
  map (fun b => Z.lxor b pad) key.

(** A key longer than a block is hashed first; it is then padded with
    zero bytes to a full block. *)
Definition block_key (key : string) : list Z :=
  let k := if Nat.ltb block_size (String.length key)
           then Str.to_bytes (SHA256.digest key)
           else Str.to_bytes key in
  k ++ repeat 0 (block_size - List.length k).

Definition sha256 (key msg : string) : string :=
  let k := block_key key in
  let inner := SHA256.digest (Str.of_bytes (xor_pad 54 k) ++ msg) in
  SHA256.digest (Str.of_bytes (xor_pad 92 k) ++ inner).

End HMAC.

(* ================================================================== *)
(** * Base64 (RFC 4648), as [base64.b64encode] *)

Module Base64.

Definition alphabet : list ascii :=
  list_ascii_of_string
    "ABCDEFGHIJKLMNOPQRSTUVWXYZabcdefghijklmnopqrstuvwxyz0123456789+/".

Definition pad_char : ascii := "="%char.

Definition digit (n : Z) : ascii := nth (Z.to_nat n) alphabet pad_char.

Fixpoint encode (bs : list Z) : list ascii :=
  match bs with
  | [] => []
  | [a] =>
      [digit (a / 4); digit ((a mod 4) * 16); pad_char; pad_char]
  | [a; b] =>
      [digit (a / 4); digit ((a mod 4) * 16 + b / 16);
       digit ((b mod 16) * 4); pad_char]
  | a :: b :: c :: r =>
      digit (a / 4) :: digit ((a mod 4) * 16 + b / 16)
      :: digit ((b mod 16) * 4 + c / 64) :: digit (c mod 64)
      :: encode r
  end.

Definition b64encode (s : string) : string :=
  string_of_list_ascii (encode (Str.to_bytes s)).

End Base64.

(* ================================================================== *)
(** * UTF-8, as [bytes.decode('utf-8', errors='replace')] reads it

    A lead byte announces one to four bytes; [C0], [C1] and [F5] to [FF]
    announce nothing; the second byte of [E0], [ED], [F0] and [F4] has a
    narrower range than the others (no overlong form, no surrogate,
    nothing above U+10FFFF).  The longest prefix of a sequence that could
    still be completed is replaced, as a whole, by U+FFFD. *)

Module Utf8.

Definition between (lo hi : Z) (c : ascii) : bool :=
  (lo <=? Str.byte_of c) && (Str.byte_of c <=? hi).

Definition continuation (c : ascii) : bool := between 128 191 c.

(** U+FFFD, encoded *)
Definition replacement : string :=
  String (Str.ascii_of 239)
    (String (Str.ascii_of 191) (String (Str.ascii_of 189) "")).

Inductive lead : Type := One | Two | Three | Four | Bad.

Definition kind (c : ascii) : lead :=
  if between 0 127 c then One
  else if between 194 223 c then Two
  else if between 224 239 c then Three
  else if between 240 244 c then Four
  else Bad.

(** The second byte that a lead byte allows. *)
Definition second (a b : ascii) : bool :=
  if Str.byte_of a =? 224 then between 160 191 b
  else if Str.byte_of a =? 237 then between 128 159 b
  else if Str.byte_of a =? 240 then between 144 191 b
  else if Str.byte_of a =? 244 then between 128 143 b
  else continuation b.

(** [s.decode('utf-8', errors='replace').encode('utf-8')] *)
Fixpoint decode (s : string) : string :=
  match s with
  | EmptyString => EmptyString
  | String a r1 =>
      match kind a with
      | One => String a (decode r1)
      | Two =>
          match r1 with
          | String b r2 =>
              if continuation b then String a (String b (decode r2))
              else replacement ++ decode r1
          | EmptyString => replacement
          end
      | Three =>
          match r1 with
          | String b r2 =>
              if second a b then
                match r2 with
                | String c r3 =>
                    if continuation c
                    then String a (String b (String c (decode r3)))
                    else replacement ++ decode r2
                | EmptyString => replacement
                end
              else replacement ++ decode r1
          | EmptyString => replacement
          end
      | Four =>
          match r1 with
          | String b r2 =>
              if second a b then
                match r2 with
                | String c r3 =>
                    if continuation c then
                      match r3 with
                      | String d r4 =>
                          if continuation d
                          then String a (String b (String c
                                 (String d (decode r4))))
                          else replacement ++ decode r3
                      | EmptyString => replacement
                      end
                    else replacement ++ decode r2
                | EmptyString => replacement
                end
              else replacement ++ decode r1
          | EmptyString => replacement
          end
      | Bad => replacement ++ decode r1
      end
  end.

End Utf8.

(* ================================================================== *)
(** * [urllib.parse] *)

Module Url.

Definition hex_digit (n : Z) : ascii :=
  Str.ascii_of (if n <? 10 then 48 + n else 55 + n).

(** ['%{:02X}'.format(byte)] *)
Definition percent (c : ascii) : string :=
  let n := Str.byte_of c in
  String "%" (String (hex_digit (n / 16)) (String (hex_digit (n mod 16)) "")).

(** [_ALWAYS_SAFE]: letters, digits and [_.-~] *)
Definition always_safe (c : ascii) : bool :=
  let n := Str.byte_of c in
  ((65 <=? n) && (n <=? 90)) || ((97 <=? n) && (n <=? 122))
  || ((48 <=? n) && (n <=? 57))
  || (n =? 95) || (n =? 46) || (n =? 45) || (n =? 126).

(** [quote(s, safe)]: every byte outside [_ALWAYS_SAFE] and [safe] becomes
    a percent escape. *)
Fixpoint quote (safe : string) (s : string) : string :=
  match s with
  | EmptyString => EmptyString
  | String c r =>
      (if always_safe c || Str.mem c safe then String c "" else percent c)
      ++ quote safe r
  end.

(** [quote_plus(s)] with the default [safe='']: when the text has a
    blank, blanks are kept by [quote] and then turned into [+]. *)
Definition quote_plus (s : string) : string :=
  if Str.mem " " s
  then Str.replace_char " " "+" (quote " " s)
  else quote "" s.

Definition hex_value (c : ascii) : option Z :=
  let n := Str.byte_of c in
  if (48 <=? n) && (n <=? 57) then Some (n - 48)
  else if (65 <=? n) && (n <=? 70) then Some (n - 55)
  else if (97 <=? n) && (n <=? 102) then Some (n - 87)
  else None.

(** [unquote_to_bytes(s)]: each [%XX] with two hexadecimal digits is
    replaced by its byte, anything else is kept. *)
Fixpoint unquote_to_bytes (s : string) : string :=
  match s with
  | EmptyString => EmptyString
  | String c r =>
      match r with
      | String a (String b r') =>
          match Ascii.eqb c "%", hex_value a, hex_value b with
          | true, Some x, Some y =>
              String (Str.ascii_of (16 * x + y)) (unquote_to_bytes r')
          | _, _, _ => String c (unquote_to_bytes r)
          end
      | _ => String c (unquote_to_bytes r)
      end
  end.

Definition is_ascii (c : ascii) : bool := Str.byte_of c <? 128.

(** [unquote(s)] with its defaults ([encoding='utf-8'],
    [errors='replace']): every run of ASCII characters is unquoted to
    bytes and decoded, a byte sequence that is not UTF-8 becoming U+FFFD;
    the characters between the runs are kept.  [run] is the run read so
    far. *)
Fixpoint unquote_from (run s : string) : string :=
  match s with
  | EmptyString => Utf8.decode (unquote_to_bytes run)
  | String c r =>
      if is_ascii c then unquote_from (run ++ String c "") r
      else Utf8.decode (unquote_to_bytes run) ++ String c (unquote_from "" r)
  end.

Definition unquote (s : string) : string := unquote_from "" s.

(** [parse_qsl(qs)] with its defaults ([keep_blank_values=False],
    [strict_parsing=False], [separator='&']): empty fields, fields
    without [=] and fields with an empty value are skipped. *)
Definition parse_field (name_value : string) : list (string * string) :=
  match Str.split_once "=" name_value with
  | None => []
  | Some (n, v) =>
      if Nat.ltb 0 (String.length v)
      then [(unquote (Str.replace_char "+" " " n),
             unquote (Str.replace_char "+" " " v))]
      else []
  end.

Definition parse_qsl (qs : string) : list (string * string) :=
  flat_map parse_field (Str.split_on "&" qs).

(** A [dict] from strings to lists of strings: keys are unique and keep
    the order in which they were first inserted. *)
Definition qdict : Type := list (string * list string).

Fixpoint dict_get (k : string) (d : qdict) : option (list string) :=
  match d with
  | [] => None
  | (k', v) :: r => if String.eqb k k' then Some v else dict_get k r
  end.

(** [d[k] = v] *)
Fixpoint dict_set (k : string) (v : list string) (d : qdict) : qdict :=
  match d with
  | [] => [(k, v)]
  | (k', v') :: r =>
      if String.eqb k k' then (k', v) :: r else (k', v') :: dict_set k v r
  end.

(** [d[k].append(x)] when [k] is a key, [d[k] = [x]] otherwise *)
Definition dict_append (d : qdict) (kx : string * string) : qdict :=
  let (k, x) := kx in
  match dict_get k d with
  | Some v => dict_set k (v ++ [x]) d
  | None => dict_set k [x] d
  end.

(** [parse_qs(qs)] *)
Definition parse_qs (qs : string) : qdict :=
  fold_left dict_append (parse_qsl qs) [].

(** [d.update(other)] *)
Definition dict_update (d other : qdict) : qdict :=
  fold_left (fun acc kv => dict_set (fst kv) (snd kv) acc) other d.

(** [urlencode(d, doseq=True)] *)
Definition encode_item (kv : string * list string) : list string :=
  map (fun x => quote_plus (fst kv) ++ "=" ++ quote_plus x) (snd kv).

Definition urlencode (d : qdict) : string :=
  String.concat "&" (flat_map encode_item d).

(** The six parts that [urlparse] returns and [urlunparse] takes. *)
Record ParseResult : Type := mkParseResult
  { pr_scheme : string; pr_netloc : string; pr_path : string;
    pr_params : string; pr_query : string; pr_fragment : string }.

(** [parsed._replace(query=q)] *)
Definition replace_query (p : ParseResult) (q : string) : ParseResult :=
  mkParseResult (pr_scheme p) (pr_netloc p) (pr_path p) (pr_params p) q
                (pr_fragment p).

End Url.

(* ================================================================== *)
(** * Data model *)

(** ** Exceptions

    Every class below is a subclass of Python's [Exception]; the operator's
    [KeyboardInterrupt], which is not, is a result of its own. *)

Inductive exn_class : Type :=
| RequestException     (* requests.exceptions.RequestException and subclasses *)
| IntegrityError       (* sqlite3.IntegrityError *)
| OperationalError     (* any other sqlite3.Error *)
| OverflowError
| KeyError
| TypeError
| ValueError
| AttributeError.

Record exn : Type := mkExn { exn_kind : exn_class; exn_text : string }.

Definition exn_class_eqb (a b : exn_class) : bool :=
  match a, b with
  | RequestException, RequestException
  | IntegrityError, IntegrityError
  | OperationalError, OperationalError
  | OverflowError, OverflowError
  | KeyError, KeyError
  | TypeError, TypeError
  | ValueError, ValueError
  | AttributeError, AttributeError => true
  | _, _ => false
  end.

Inductive result (A : Type) : Type :=
| Ok (a : A)
| Raised (e : exn)
| Interrupted.

Arguments Ok {A} a.
Arguments Raised {A} e.
Arguments Interrupted {A}.

(** ** JSON as the program reads it *)

(** A key of a JSON object: missing, [null], or a value. *)
Inductive field (A : Type) : Type :=
| Absent
| Null
| Val (a : A).

Arguments Absent {A}.
Arguments Null {A}.
Arguments Val {A} a.

(** [d.get(k)]: Python's [None] is Rocq's [None]. *)
Definition get {A : Type} (f : field A) : option A :=
  match f with
  | Val a => Some a
  | _ => None
  end.

(** [d.get(k, default)] *)
Definition get_default {A : Type} (f : field A) (d : A) : option A :=
  match f with
  | Absent => Some d
  | Null => None
  | Val a => Some a
  end.

(** The release object of a [ReleaseEvent] payload. *)
Record release : Type := mkRelease
  { rel_name : field string; rel_tag_name : field string }.

(** One record of the feed.  [None] is a missing key; the nested options
    of [ev_actor], [ev_repo] and [ev_payload] are the key of the inner
    object ([login], [name], [release]). *)
Record event : Type := mkEvent
  { ev_id : option string;
    ev_type : option string;
    ev_actor : option (option string);
    ev_repo : option (option string);
    ev_created_at : option string;
    ev_payload : option (option release) }.

(** The body of [GET /repos/{name}] and of [GET /users/{login}]. *)
Record repo_json : Type := mkRepoJson
  { rj_description : field string;
    rj_language : field string;
    rj_stargazers_count : field Z }.

Record user_json : Type := mkUserJson { uj_avatar_url : field string }.

(** What [response.json()] gives: [Malformed e] when decoding raises [e] or
    the value is not an object, so that its first [.get] raises [e]. *)
Inductive decoded (A : Type) : Type :=
| Malformed (e : exn)
| Decoded (a : A).

Arguments Malformed {A} e.
Arguments Decoded {A} a.

(** What [requests.get] does: it raises, or it returns a response. *)
Inductive http (B : Type) : Type :=
| HttpRaises (e : exn)
| HttpResponse (status : Z) (body : B).

Arguments HttpRaises {B} e.
Arguments HttpResponse {B} status body.

(** The response to a webhook POST: [r_detail] is [None] when
    [response.json()] or reading [code] and [msg] from it fails, and
    otherwise the two as the log line renders them. *)
Record post_response : Type := mkPostResponse
  { r_status : Z; r_text : string; r_detail : option (string * string) }.

(** ** Configuration ([config.yaml]) *)

Record bot_config : Type := mkBot
  { bot_webhook : option string;
    bot_secret : option string;
    bot_name : option string }.

Record config : Type := mkConfig
  { github_username : string;
    github_token : string;
    github_max_events : Z;
    github_poll_interval : Z;      (* seconds *)
    dingtalk_enable : bool;
    dingtalk_bots : list bot_config;
    feishu_enable : bool;
    feishu_bots : list bot_config }.

(** ** The SQLite file *)

Record repo_row : Type := mkRepoRow
  { row_description : option string;
    row_language : option string;
    row_stars : option Z }.

Record Database : Type := mkDatabase
  { pushed_events : list (string * Z);             (* event_id, pushed_at *)
    repo_cache : list (string * (repo_row * Z));   (* name, columns, last_updated *)
    user_cache : list (string * (option string * Z)) (* login, avatar_url, last_updated *) }.

(** ** What the program does to the world *)

Inductive level : Type := INFO | WARNING | ERROR.

Inductive channel : Type := DingTalk | Feishu.

Inductive payload : Type :=
| Markdown (title text : string)        (* msgtype markdown *)
| Card (title content : string).        (* msg_type interactive *)

Inductive io_event : Type :=
| EvGet (url : string)                          (* requests.get *)
| EvPost (url : string) (body : payload)        (* requests.post *)
| EvLog (l : level) (text : string)             (* a call to the logger *)
| EvSleep (ms : Z)                              (* time.sleep *)
| EvSendAll (event_id : string) (message : string)
    (* the call [notifier.send_all(msg)] made for the event *)
| EvSend (ch : channel) (bot : bot_config) (message : string).
    (* the call [_send_dingtalk(message, bot)] or [_send_feishu(message, bot)] *)

(** ** The world

    Each oracle is asked in order: the [n]-th network exchange, the [n]-th
    SQL statement, the [n]-th reading of the clock, the [n]-th sleep.  The
    two routines of [urllib.parse] that take a whole URL apart and put it
    together are part of the world as well: they are functions of their
    argument, and nothing is assumed about them. *)
Record world : Type := mkWorld
  { w_feed : nat -> http (decoded (list event));
    w_repo : nat -> http (decoded repo_json);
    w_user : nat -> http (decoded user_json);
    w_post : nat -> http post_response;
    w_db_fault : nat -> option string;
      (* [Some text]: the statement raises [sqlite3.OperationalError(text)]
         and changes nothing *)
    w_clock : nat -> Z;           (* milliseconds since the epoch *)
    w_interrupt : nat -> bool;    (* Ctrl-C arrives during the sleep *)
    w_urlparse : string -> exn + Url.ParseResult;
      (* [urllib.parse.urlparse]: the parts of the URL, or what it raises *)
    w_urlunparse : Url.ParseResult -> string
      (* [urllib.parse.urlunparse] *) }.

Record state : Type := mkState
  { st_db : Database;
    st_net : nat;
    st_sql : nat;
    st_clock : nat;
    st_sleep : nat;
    st_trace : list io_event }.

(* ================================================================== *)
(** * Computations *)

Definition M (A : Type) : Type := world -> state -> result A * state.

Definition ret {A : Type} (a : A) : M A := fun _ s => (Ok a, s).

Definition bind {A B : Type} (m : M A) (k : A -> M B) : M B :=
  fun w s =>
    match m w s with
    | (Ok a, s') => k a w s'
    | (Raised e, s') => (Raised e, s')
    | (Interrupted, s') => (Interrupted, s')
    end.

Declare Scope monad_scope.
Delimit Scope monad_scope with monad.
Notation "x <- c1 ;; c2" := (bind c1 (fun x => c2))
  (at level 61, c1 at next level, right associativity) : monad_scope.
Notation "c1 ;; c2" := (bind c1 (fun _ => c2))
  (at level 61, right associativity) : monad_scope.
Local Open Scope monad_scope.

Definition raise {A : Type} (e : exn) : M A := fun _ s => (Raised e, s).

(** [try: body / except Exception as e: handler(e)] *)
Definition try_except {A : Type} (body : M A) (handler : exn -> M A) : M A :=
  fun w s =>
    match body w s with
    | (Raised e, s') => handler e w s'
    | r => r
    end.

(** [try: body / except cls as e: handler(e)] *)
Definition try_except_class {A : Type} (cls : exn_class)
    (body : M A) (handler : exn -> M A) : M A :=
  fun w s =>
    match body w s with
    | (Raised e, s') =>
        if exn_class_eqb (exn_kind e) cls then handler e w s'
        else (Raised e, s')
    | r => r
    end.

Definition emit (ev : io_event) : M unit :=
  fun _ s =>
    (Ok tt, mkState (st_db s) (st_net s) (st_sql s) (st_clock s) (st_sleep s)
                    (st_trace s ++ [ev])).

Definition log (l : level) (text : string) : M unit := emit (EvLog l text).

(** [d[key]] on a JSON object *)
Definition subscript {A : Type} (key : string) (o : option A) : M A :=
  match o with
  | Some a => ret a
  | None => raise (mkExn KeyError ("'" ++ key ++ "'"))
  end.

(** One network exchange: the request is recorded and the oracle
    answers. *)
Definition exchange {B : Type} (oracle : world -> nat -> http B)
    (request : io_event) : M (Z * B) :=
  fun w s =>
    let s' := mkState (st_db s) (S (st_net s)) (st_sql s) (st_clock s)
                      (st_sleep s) (st_trace s ++ [request]) in
    match oracle w (st_net s) with
    | HttpRaises e => (Raised e, s')
    | HttpResponse status body => (Ok (status, body), s')
    end.

(** [response.json()] *)
Definition json {A : Type} (body : decoded A) : M A :=
  match body with
  | Malformed e => raise e
  | Decoded a => ret a
  end.

(** One SQL statement with its commit: it raises what the oracle says, or
    what the statement itself raises, or it returns and leaves the new
    contents. *)
Definition sql {A : Type} (stmt : Database -> exn + (A * Database)) : M A :=
  fun w s =>
    let step db := mkState db (st_net s) (S (st_sql s)) (st_clock s)
                           (st_sleep s) (st_trace s) in
    match w_db_fault w (st_sql s) with
    | Some text => (Raised (mkExn OperationalError text), step (st_db s))
    | None =>
        match stmt (st_db s) with
        | inl e => (Raised e, step (st_db s))
        | inr (a, db') => (Ok a, step db')
        end
    end.

(** A call of a routine of the world that returns or raises and leaves
    everything as it is. *)
Definition library {A : Type} (answer : world -> exn + A) : M A :=
  fun w s =>
    match answer w with
    | inl e => (Raised e, s)
    | inr a => (Ok a, s)
    end.

Definition urlparse (url : string) : M Url.ParseResult :=
  library (fun w => w_urlparse w url).

Definition urlunparse (p : Url.ParseResult) : M string :=
  library (fun w => inr (w_urlunparse w p)).

(** [time.time()] and [datetime.now()], in milliseconds *)
Definition now : M Z :=
  fun w s =>
    (Ok (w_clock w (st_clock s)),
     mkState (st_db s) (st_net s) (st_sql s) (S (st_clock s)) (st_sleep s)
             (st_trace s)).

(** [time.sleep(ms / 1000)] *)
Definition sleep (ms : Z) : M unit :=
  fun w s =>
    if ms <? 0
    then (Raised (mkExn ValueError "sleep length must be non-negative"), s)
    else
      let s' := mkState (st_db s) (st_net s) (st_sql s) (st_clock s)
                        (S (st_sleep s)) (st_trace s ++ [EvSleep ms]) in
      if w_interrupt w (st_sleep s) then (Interrupted, s') else (Ok tt, s').

(** Python's truth value of an optional string *)
Definition truthy (o : option string) : bool :=
  match o with
  | Some s => negb (String.eqb s "")
  | None => false
  end.

(** An optional string inside an f-string *)
Definition fmt (o : option string) : string :=
  match o with
  | Some s => s
  | None => "None"
  end.

Definition fmt_int (o : option Z) : string :=
  match o with
  | Some n => Str.of_Z n
  | None => "None"
  end.

(* ================================================================== *)
(** * class Database *)

Section Tables.
Context {V : Type}.

Definition has_key (k : string) (t : list (string * V)) : bool :=
  existsb (fun r => String.eqb (fst r) k) t.

Fixpoint lookup (k : string) (t : list (string * V)) : option V :=
  match t with
  | [] => None
  | (k', v) :: r => if String.eqb k' k then Some v else lookup k r
  end.

(** [INSERT OR REPLACE]: the row with the key, if any, goes and the new
    one comes. *)
Definition upsert (k : string) (v : V) (t : list (string * V))
  : list (string * V) :=
  filter (fun r => negb (String.eqb (fst r) k)) t ++ [(k, v)].

(** The number of rows with the key. *)
Definition rows_with (k : string) (t : list (string * V)) : nat :=
  List.length (filter (fun r => String.eqb (fst r) k) t).
End Tables.

(** [SELECT 1 FROM pushed_events WHERE event_id=?] *)
Definition is_pushed (event_id : string) : M bool :=
  sql (fun db => inr (has_key event_id (pushed_events db), db)).

(** [INSERT INTO pushed_events VALUES (?, ?)]: [event_id] is the primary
    key. *)
Definition insert_pushed (event_id : string) (pushed_at : Z) (db : Database)
  : exn + (unit * Database) :=
  if has_key event_id (pushed_events db)
  then inl (mkExn IntegrityError
                  "UNIQUE constraint failed: pushed_events.event_id")
  else inr (tt, mkDatabase (pushed_events db ++ [(event_id, pushed_at)])
                           (repo_cache db) (user_cache db)).

Definition mark_pushed (event_id : string) : M unit :=
  try_except_class IntegrityError
    (t <- now ;; sql (insert_pushed event_id t))
    (fun _ => ret tt).

(** [SELECT description, language, stars FROM repo_cache WHERE name=?] *)
Definition get_repo_info (repo_name : string) : M (option repo_row) :=
  sql (fun db => inr (option_map fst (lookup repo_name (repo_cache db)), db)).

(** SQLite keeps an INTEGER on 64 bits; [sqlite3] refuses a larger one. *)
Definition fits_int64 (o : option Z) : bool :=
  match o with
  | Some n => (- 2 ^ 63 <=? n) && (n <? 2 ^ 63)
  | None => true
  end.

Definition replace_repo (repo_name : string) (row : repo_row) (t : Z)
    (db : Database) : exn + (unit * Database) :=
  if fits_int64 (row_stars row)
  then inr (tt, mkDatabase (pushed_events db)
                           (upsert repo_name (row, t) (repo_cache db))
                           (user_cache db))
  else inl (mkExn OverflowError
                  "Python int too large to convert to SQLite INTEGER").

Definition cache_repo_info (repo_name : string) (info : repo_json) : M unit :=
  let row := mkRepoRow (get (rj_description info)) (get (rj_language info))
                       (get_default (rj_stargazers_count info) 0) in
  t <- now ;;
  sql (replace_repo repo_name row t).

(** [SELECT avatar_url FROM user_cache WHERE login=?], then
    [result[0] if result else None] *)
Definition get_user_avatar (login : string) : M (option string) :=
  sql (fun db =>
         inr (match lookup login (user_cache db) with
              | Some (avatar_url, _) => avatar_url
              | None => None
              end, db)).

Definition cache_user_avatar (login : string) (avatar_url : option string)
  : M unit :=
  t <- now ;;
  sql (fun db => inr (tt, mkDatabase (pushed_events db) (repo_cache db)
                                     (upsert login (avatar_url, t)
                                             (user_cache db)))).

(* ================================================================== *)
(** * class Notifier and [monitor] *)

(** The dict that [_get_repo_details] returns. *)
Record repo_info : Type := mkRepoInfo
  { description : option string;
    language : option string;
    stargazers_count : option Z }.

Definition default_repo_info : repo_info :=
  mkRepoInfo (Some "暂无描述") (Some "") (Some 0).

Definition default_avatar : string := "https://github.com/identicons/app.png".

(** ** Signatures *)

Definition _generate_dingtalk_sign (secret timestamp : string) : string :=
  let string_to_sign := timestamp ++ Str.nl ++ secret in
  let hmac_code := HMAC.sha256 secret string_to_sign in
  Url.quote_plus (Base64.b64encode hmac_code).

Definition _generate_feishu_sign (secret timestamp : string) : string :=
  let string_to_sign := timestamp ++ Str.nl ++ secret in
  let hmac_code := HMAC.sha256 secret string_to_sign in
  Base64.b64encode hmac_code.

(** ** The text sent to Feishu *)

Definition is_nl (c : ascii) : bool := Ascii.eqb c (Str.ascii_of 10).

(** Characters up to and including the first [)] of the line. *)
Fixpoint close_paren (s : string) : option nat :=
  match s with
  | EmptyString => None
  | String c r =>
      if Ascii.eqb c ")" then Some 1%nat
      else if is_nl c then None
      else option_map S (close_paren r)
  end.

(** Characters up to and including the first [](...)] of the line. *)
Fixpoint close_bracket (s : string) : option nat :=
  match s with
  | EmptyString => None
  | String c r =>
      if is_nl c then None
      else if String.prefix "](" s
      then match r with
           | String _ r' => option_map (fun n => 2 + n)%nat (close_paren r')
           | EmptyString => None
           end
      else option_map S (close_bracket r)
  end.

(** The length of the match of [!\[.*?\]\(.*?\)] at the head of [s]. *)
Definition image_match (s : string) : option nat :=
  match s with
  | String "!" (String "[" r) => option_map (fun n => 2 + n)%nat (close_bracket r)
  | _ => None
  end.

(** [re.sub(r'!\[.*?\]\(.*?\)', '', s)] *)
Fixpoint strip_images (skip : nat) (s : string) : string :=
  match s with
  | EmptyString => EmptyString
  | String c r =>
      match skip with
      | S k => strip_images k r
      | O =>
          match image_match s with
          | Some n => strip_images (Nat.pred n) r
          | None => String c (strip_images O r)
          end
      end
  end.

Definition _format_for_feishu (message : string) : string :=
  let message :=
    if Str.contains "![" message && Str.contains "](" message
    then strip_images O message else message in
  let message := Str.replace ("### ✨ GitHub动态通知" ++ Str.nl) "" message in
  Str.replace Str.nl (Str.nl ++ Str.nl) message.

(** ** The signed webhook URL of Feishu

    Lines 303 to 312 of [_send_feishu]: the webhook URL is parsed, the
    query of the result is parsed, [timestamp] and [sign] are set in it,
    and the URL is written back with the new query. *)

(** The query that is written, lines 304 to 309. *)
Definition feishu_query (old_query secret timestamp : string) : string :=
  let sign := _generate_feishu_sign secret timestamp in
  let query := Url.parse_qs old_query in
  let query := Url.dict_update query
                 [("timestamp", [timestamp]); ("sign", [sign])] in
  Url.urlencode query.

Definition sign_feishu_url (webhook_url secret timestamp : string)
  : M string :=
  parsed_url <- urlparse webhook_url ;;
  let new_query := feishu_query (Url.pr_query parsed_url) secret timestamp in
  urlunparse (Url.replace_query parsed_url new_query).

(** ** Enrichment, formatting, dispatch, the loop *)

Section Pipeline.

(** The loaded [config.yaml]. *)
Variable cfg : config.

(** [datetime.strptime(s, "%Y-%m-%dT%H:%M:%SZ").strftime("%Y-%m-%d %H:%M")]:
    the text to display, or the text of the [ValueError]. *)
Variable strptime_strftime : string -> string + string.

Definition _get_repo_details (repo_name : string) : M repo_info :=
  cached <- get_repo_info repo_name ;;
  match cached with
  | Some row =>
      ret (mkRepoInfo (row_description row) (row_language row) (row_stars row))
  | None =>
      fetched <-
        try_except
          (resp <- exchange w_repo
                     (EvGet ("https://api.github.com/repos/" ++ repo_name)) ;;
           if fst resp =? 200 then
             data <- json (snd resp) ;;
             cache_repo_info repo_name data ;;
             ret (Some (mkRepoInfo (get (rj_description data))
                                   (get (rj_language data))
                                   (get_default (rj_stargazers_count data) 0)))
           else ret None)
          (fun e =>
             log WARNING ("获取仓库详情失败: " ++ exn_text e) ;;
             ret None) ;;
      match fetched with
      | Some info => ret info
      | None => ret default_repo_info
      end
  end.

Definition _get_user_avatar (login : string) : M (option string) :=
  cached <- get_user_avatar login ;;
  if truthy cached then ret cached
  else
    fetched <-
      try_except
        (resp <- exchange w_user
                   (EvGet ("https://api.github.com/users/" ++ login)) ;;
         if fst resp =? 200 then
           data <- json (snd resp) ;;
           let avatar_url := get_default (uj_avatar_url data) "" in
           cache_user_avatar login avatar_url ;;
           ret (Some avatar_url)
         else ret None)
        (fun e =>
           log WARNING ("获取用户头像失败: " ++ exn_text e) ;;
           ret None) ;;
    match fetched with
    | Some avatar_url => ret avatar_url
    | None => ret (Some default_avatar)
    end.

(** [actions.get(event_type, event_type)] *)
Definition action_label (event_type : string) : string :=
  if String.eqb event_type "WatchEvent" then "⭐ Starred"
  else if String.eqb event_type "ForkEvent" then "🍴 Forked"
  else if String.eqb event_type "PullRequestEvent" then "🔀 提交PR到"
  else if String.eqb event_type "IssuesEvent" then "❗ 创建Issue"
  else if String.eqb event_type "PushEvent" then "⬆️ 推送代码到"
  else if String.eqb event_type "CreateEvent" then "🆕 创建"
  else if String.eqb event_type "ReleaseEvent" then "🚀 发布了新版本"
  else event_type.

(** The body of the [try] of [format_message]. *)
Definition assemble (ev : event) : M string :=
  event_type <- subscript "type" (ev_type ev) ;;
  actor_obj <- subscript "actor" (ev_actor ev) ;;
  actor <- subscript "login" actor_obj ;;
  avatar <- _get_user_avatar actor ;;
  actor_avatar <-
    match avatar with
    | Some a => ret (a ++ "?size=20")
    | None =>
        raise (mkExn TypeError
                 "unsupported operand type(s) for +: 'NoneType' and 'str'")
    end ;;
  repo_obj <- subscript "repo" (ev_repo ev) ;;
  repo_name <- subscript "name" repo_obj ;;
  let repo_url := "https://github.com/" ++ repo_name in
  created_at <- subscript "created_at" (ev_created_at ev) ;;
  time_str <-
    match strptime_strftime created_at with
    | inl t => ret t
    | inr text => raise (mkExn ValueError text)
    end ;;
  repo_info <- _get_repo_details repo_name ;;
  release_info <-
    (if String.eqb event_type "ReleaseEvent" then
       payload_obj <- subscript "payload" (ev_payload ev) ;;
       rel <- subscript "release" payload_obj ;;
       let release_name := get_default (rel_name rel) "" in
       let tag_name := get_default (rel_tag_name rel) "" in
       ret (Str.nl ++ "**版本**: " ++ fmt tag_name ++ " " ++ fmt release_name)
     else ret "") ;;
  ret (Str.join_lines
         [ "### ✨ GitHub动态通知";
           "![用户头像](" ++ actor_avatar ++ ") **[" ++ actor
             ++ "](https://github.com/" ++ actor ++ ")**";
           "**⌚ 时间**: " ++ time_str;
           "**🔧 操作**: " ++ action_label event_type;
           "**📦 仓库**: [" ++ repo_name ++ "](" ++ repo_url ++ ")";
           "**📝 描述**: " ++ fmt (description repo_info) ++ release_info;
           "**🌐 语言**: " ++ fmt (language repo_info) ++ " | **⭐ Stars**: "
             ++ fmt_int (stargazers_count repo_info);
           "---" ]).

(** The document returned when assembling raised [e]. *)
Definition fallback_message (e : exn) : string :=
  Str.join_lines
    [ "### GitHub动态通知";
      "**警告**: 消息格式化出错";
      "```" ++ Str.nl ++ exn_text e ++ Str.nl ++ "```" ].

Definition format_message (ev : event) : M string :=
  try_except (assemble ev)
    (fun e =>
       log ERROR ("格式化消息失败: " ++ exn_text e) ;;
       ret (fallback_message e)).

(** [bot_config.get('name', '未知机器人')] *)
Definition bot_label (bot : bot_config) : string :=
  match bot_name bot with
  | Some n => n
  | None => "未知机器人"
  end.

Definition _send_dingtalk (message : string) (bot : bot_config) : M unit :=
  emit (EvSend DingTalk bot message) ;;
  try_except
    (let body := Markdown "GitHub动态通知"
                          (Str.replace Str.nl (Str.nl ++ Str.nl) message) in
     url <- subscript "webhook" (bot_webhook bot) ;;
     url <-
       (if truthy (bot_secret bot) then
          ms <- now ;;
          let timestamp := Str.of_Z ms in
          let sign := _generate_dingtalk_sign (fmt (bot_secret bot)) timestamp in
          ret (url ++ "&timestamp=" ++ timestamp ++ "&sign=" ++ sign)
        else ret url) ;;
     resp <- exchange w_post (EvPost url body) ;;
     if negb (fst resp =? 200) then
       log ERROR ("钉钉发送失败到 " ++ bot_label bot ++ ": " ++ r_text (snd resp))
     else
       log INFO ("发现新事件，已发送到钉钉机器人 " ++ bot_label bot))
    (fun e =>
       log ERROR ("钉钉发送失败到 " ++ bot_label bot ++ ": " ++ exn_text e)).

Definition _send_feishu (message : string) (bot : bot_config) : M unit :=
  emit (EvSend Feishu bot message) ;;
  try_except
    (webhook_url <- subscript "webhook" (bot_webhook bot) ;;
     let body := Card "✨ GitHub动态通知" (_format_for_feishu message) in
     webhook_url <-
       (if truthy (bot_secret bot) then
          ms <- now ;;
          let timestamp := Str.of_Z (Z.quot ms 1000) in
          sign_feishu_url webhook_url (fmt (bot_secret bot)) timestamp
        else ret webhook_url) ;;
     resp <- exchange w_post (EvPost webhook_url body) ;;
     if negb (fst resp =? 200) then
       let error_msg :=
         "飞书推送失败到 " ++ bot_label bot ++ ": " ++ Str.of_Z (fst resp) in
       log ERROR
         (error_msg ++
          match r_detail (snd resp) with
          | Some (code, msg) => " | 错误码: " ++ code ++ " | 消息: " ++ msg
          | None => " | 响应: " ++ r_text (snd resp)
          end)
     else
       log INFO ("发现1个新事件，飞书推送成功到 " ++ bot_label bot))
    (fun e =>
       log ERROR ("飞书发送异常到 " ++ bot_label bot ++ ": " ++ exn_text e)).

(** [for bot in bots: send(message, bot)] *)
Fixpoint for_each_bot (send : string -> bot_config -> M unit)
    (message : string) (bots : list bot_config) : M unit :=
  match bots with
  | [] => ret tt
  | bot :: rest => send message bot ;; for_each_bot send message rest
  end.

Definition send_all (message : string) : M unit :=
  (if dingtalk_enable cfg
   then for_each_bot _send_dingtalk message (dingtalk_bots cfg)
   else ret tt) ;;
  (if feishu_enable cfg
   then for_each_bot _send_feishu message (feishu_bots cfg)
   else ret tt).

(** The body of [for event in events] in [monitor]; the result tells
    whether [new_events] is incremented. *)
Definition process_event (ev : event) : M bool :=
  event_id <- subscript "id" (ev_id ev) ;;
  pushed <- is_pushed event_id ;;
  if pushed then ret false
  else
    msg <- format_message ev ;;
    emit (EvSendAll event_id msg) ;;
    send_all msg ;;
    mark_pushed event_id ;;
    sleep 500 ;;
    ret true.

Fixpoint process_events (events : list event) (new_events : Z) : M Z :=
  match events with
  | [] => ret new_events
  | ev :: rest =>
      fresh <- process_event ev ;;
      process_events rest (if fresh then new_events + 1 else new_events)
  end.

Definition feed_url : string :=
  "https://api.github.com/users/" ++ github_username cfg
  ++ "/received_events?per_page=" ++ Str.of_Z (github_max_events cfg).

(** The backoff of both [except] clauses of the loop: [time.sleep(60)]. *)
Definition backoff_ms : Z := 60000.

(** The body of the inner [try] of [monitor]. *)
Definition poll : M unit :=
  resp <- exchange w_feed (EvGet feed_url) ;;
  events <- json (snd resp) ;;
  new_events <- process_events events 0 ;;
  log INFO ("本轮检查完成，发现" ++ Str.of_Z new_events ++ "个新事件") ;;
  sleep (1000 * github_poll_interval cfg).

(** One turn of [while True]: the inner [try] with its two [except]
    clauses. *)
Definition cycle : M unit :=
  try_except poll
    (fun e =>
       if exn_class_eqb (exn_kind e) RequestException then
         log ERROR ("网络请求异常: " ++ exn_text e) ;;
         sleep backoff_ms
       else
         log ERROR ("处理异常: " ++ exn_text e) ;;
         sleep backoff_ms).

(** [n] turns of [while True]. *)
Fixpoint loop (n : nat) : M unit :=
  match n with
  | O => ret tt
  | S n' => cycle ;; loop n'
  end.

(** How [monitor] stands after at most [n] turns of its loop. *)
Inductive status : Type :=
| Polling                 (* still inside [while True] *)
| Stopped                 (* left through [except KeyboardInterrupt] *)
| Crashed (e : exn).      (* left with an exception *)

(** [monitor], cut after [n] turns.  The state [s] is the one [Notifier()]
    leaves: the database opened, its three tables there.  Closing the
    connection in the [finally] clause changes nothing that is recorded
    here. *)
Definition monitor (n : nat) (w : world) (s : state) : status * state :=
  match (log INFO "🚀 GitHub监控启动" ;; loop n) w s with
  | (Ok _, s') => (Polling, s')
  | (Interrupted, s') =>
      (Stopped, snd (log INFO "🛑 手动停止监控" w s'))
  | (Raised e, s') => (Crashed e, s')
  end.

End Pipeline.

(* ================================================================== *)
(** * Observations on a run *)

(** The identifiers for which [send_all] was called, in order. *)
Definition dispatched (tr : list io_event) : list string :=
  flat_map (fun ev => match ev with EvSendAll id _ => [id] | _ => [] end) tr.

(** The calls of the two channel senders, in order. *)
Definition sends (tr : list io_event) : list (channel * bot_config * string) :=
  flat_map (fun ev => match ev with
                      | EvSend ch bot msg => [(ch, bot, msg)]
                      | _ => []
                      end) tr.

(** The URLs fetched with [requests.get], in order. *)
Definition gets (tr : list io_event) : list string :=
  flat_map (fun ev => match ev with EvGet url => [url] | _ => [] end) tr.

(** The webhook requests, in order. *)
Definition posts (tr : list io_event) : list (string * payload) :=
  flat_map (fun ev => match ev with EvPost url b => [(url, b)] | _ => [] end) tr.

(** The store answers every statement. *)
Definition db_healthy (w : world) : Prop :=
  forall n, w_db_fault w n = None.

(** The operator never interrupts. *)
Definition never_interrupted (w : world) : Prop :=
  forall n, w_interrupt w n = false.

Definition faulty (w : world) (n : nat) : bool :=
  match w_db_fault w n with
  | Some _ => true
  | None => false
  end.

(** The remote lookup that [_get_repo_details], called in state [s], makes
    after a cache miss fails: the request raises (a timeout, a connection
    error, anything else), the status is not 200, the body is malformed,
    or storing the result raises. *)
Definition repo_lookup_fails (w : world) (s : state) : bool :=
  match w_repo w (st_net s) with
  | HttpRaises _ => true
  | HttpResponse status body =>
      negb (status =? 200)
      || match body with
         | Malformed _ => true
         | Decoded data =>
             negb (fits_int64 (get_default (rj_stargazers_count data) 0))
             || faulty w (S (st_sql s))
         end
  end.

(** The same for [_get_user_avatar]. *)
Definition avatar_lookup_fails (w : world) (s : state) : bool :=
  match w_user w (st_net s) with
  | HttpRaises _ => true
  | HttpResponse status body =>
      negb (status =? 200)
      || match body with
         | Malformed _ => true
         | Decoded _ => faulty w (S (st_sql s))
         end
  end.

Definition repo_url (repo_name : string) : string :=
  "https://api.github.com/repos/" ++ repo_name.

Definition user_url (login : string) : string :=
  "https://api.github.com/users/" ++ login.

(** The senders that [send_all] is to call for a message. *)
Definition expected_sends (cfg : config) (message : string)
  : list (channel * bot_config * string) :=
  (if dingtalk_enable cfg
   then map (fun bot => (DingTalk, bot, message)) (dingtalk_bots cfg) else [])
  ++
  (if feishu_enable cfg
   then map (fun bot => (Feishu, bot, message)) (feishu_bots cfg) else []).

(** Two upper-case hexadecimal digits per byte. *)
Fixpoint hexdump (s : string) : string :=
  match s with
  | EmptyString => EmptyString
  | String c r =>
      match Url.percent c with
      | String _ h => h ++ hexdump r
      | EmptyString => hexdump r
      end
  end.

(* ================================================================== *)
(** * The specification's own words *)

Module Spec.

(** URL percent-encoding: every byte that is not an unreserved character
    (a letter, a digit, or one of [-._~]) is written [%XX]. *)
Definition unreserved (c : ascii) : bool :=
  let n := Str.byte_of c in
  ((65 <=? n) && (n <=? 90)) || ((97 <=? n) && (n <=? 122))
  || ((48 <=? n) && (n <=? 57))
  || (n =? 45) || (n =? 46) || (n =? 95) || (n =? 126).

Fixpoint percent_encode (s : string) : string :=
  match s with
  | EmptyString => EmptyString
  | String c r =>
      if unreserved c then String c (percent_encode r)
      else Url.percent c ++ percent_encode r
  end.

(** A-type: the signature is computed over ["{timestampMillis}\n{secret}"]
    with the secret as the HMAC-SHA256 key, base64-encoded, then URL
    percent-encoded. *)
Definition signature_A (secret timestamp_millis : string) : string :=
  percent_encode
    (Base64.b64encode
       (HMAC.sha256 secret (timestamp_millis ++ Str.nl ++ secret))).

(** B-type: the same over ["{timestampSeconds}\n{secret}"], base64-encoded,
    with no further URL-encoding. *)
Definition signature_B (secret timestamp_seconds : string) : string :=
  Base64.b64encode (HMAC.sha256 secret (timestamp_seconds ++ Str.nl ++ secret)).

(** The parameters of a query string: its non-empty [&]-separated fields,
    each a name and a value around its first [=]; a field without [=] or
    with nothing after it has the empty value. *)
Definition query_field (name_value : string) : list (string * string) :=
  if String.eqb name_value "" then []
  else match Str.split_once "=" name_value with
       | Some (n, v) =>
           [(Url.unquote_to_bytes (Str.replace_char "+" " " n),
             Url.unquote_to_bytes (Str.replace_char "+" " " v))]
       | None => [(Url.unquote_to_bytes (Str.replace_char "+" " " name_value), "")]
       end.

Definition query_params (qs : string) : list (string * string) :=
  flat_map query_field (Str.split_on "&" qs).

(** A URL as its reader takes it apart (RFC 3986): the fragment is what
    follows the first [#], the query what lies between the first [?]
    before that and the [#]. *)
Record parts : Type := mkParts
  { sp_base : string; sp_query : string; sp_fragment : string }.

Definition split_url (url : string) : parts :=
  let (before_frag, frag) :=
    match Str.split_once "#" url with
    | Some (a, b) => (a, b)
    | None => (url, "")
    end in
  match Str.split_once "?" before_frag with
  | Some (a, b) => mkParts a b frag
  | None => mkParts before_frag "" frag
  end.

(** The parameters of a URL. *)
Definition url_params (url : string) : list (string * string) :=
  query_params (sp_query (split_url url)).

(** A delivery that failed: the request raised, or the response is not
    2xx. *)
Definition delivery_failed (o : http post_response) : bool :=
  match o with
  | HttpRaises _ => true
  | HttpResponse status _ => negb ((200 <=? status) && (status <=? 299))
  end.

End Spec.

(* ================================================================== *)
(** * Sample data *)

Module Sample.

(** A stand-in for the date routine, right on timestamps of the feed's
    shape: ["2024-05-01T12:34:56Z"] is shown as ["2024-05-01 12:34"]. *)
Definition strptime_strftime (s : string) : string + string :=
  if Nat.eqb (String.length s) 20
  then inl (String.substring 0 10 s ++ " " ++ String.substring 11 5 s)
  else inr ("time data '" ++ s ++ "' does not match format '%Y-%m-%dT%H:%M:%SZ'").

Definition ding_bot : bot_config :=
  mkBot (Some "https://oapi.dingtalk.com/robot/send?access_token=t0ken")
        (Some "abc") (Some "ops").

Definition feishu_bot : bot_config :=
  mkBot (Some "https://open.feishu.cn/open-apis/bot/v2/hook/x?a=&b=1")
        (Some "s3cret") None.

(** Polls every five minutes. *)
Definition cfg : config :=
  mkConfig "octocat" "ghp_token" 30 300 true [ding_bot] true [feishu_bot].

Definition star : event :=
  mkEvent (Some "e1") (Some "WatchEvent") (Some (Some "alice"))
          (Some (Some "alice/repo")) (Some "2024-05-01T12:34:56Z") None.

(** The same without its [created_at]. *)
Definition undated : event :=
  mkEvent (Some "e2") (Some "ForkEvent") (Some (Some "bob"))
          (Some (Some "bob/fork")) None None.

Definition empty_db : Database := mkDatabase [] [] [].

Definition start : state := mkState empty_db 0 0 0 0 [].

Definition timeout : exn :=
  mkExn RequestException "Read timed out. (read timeout=5)".

Definition accepted : http post_response :=
  HttpResponse 200 (mkPostResponse 200 "ok" None).

Definition server_error : http post_response :=
  HttpResponse 500 (mkPostResponse 500 "Internal Server Error" None).

Definition repo_body : repo_json :=
  mkRepoJson (Val "A repository") (Val "Coq") (Val 42).

Definition epoch_ms : Z := 1700000000123.

(** Stand-ins for [urlparse] and [urlunparse], right on URLs of the shape
    [scheme://host/path?query#fragment] written in lower case, without
    blanks, brackets or semicolons. *)
Definition urlparse (url : string) : Url.ParseResult :=
  let (before_frag, fragment) :=
    match Str.split_once "#" url with
    | Some (a, b) => (a, b)
    | None => (url, "")
    end in
  let (before_query, query) :=
    match Str.split_once "?" before_frag with
    | Some (a, b) => (a, b)
    | None => (before_frag, "")
    end in
  match Str.split_once ":" before_query with
  | Some (scheme, String "/" (String "/" rest)) =>
      match Str.split_once "/" rest with
      | Some (netloc, path) =>
          Url.mkParseResult scheme netloc (String "/" path) "" query fragment
      | None => Url.mkParseResult scheme rest "" "" query fragment
      end
  | _ => Url.mkParseResult "" "" before_query "" query fragment
  end.

Definition urlunparse (p : Url.ParseResult) : string :=
  (if String.eqb (Url.pr_scheme p) "" then "" else Url.pr_scheme p ++ ":")
  ++ (if String.eqb (Url.pr_netloc p) "" then "" else "//" ++ Url.pr_netloc p)
  ++ Url.pr_path p
  ++ (if String.eqb (Url.pr_params p) "" then "" else ";" ++ Url.pr_params p)
  ++ (if String.eqb (Url.pr_query p) "" then "" else "?" ++ Url.pr_query p)
  ++ (if String.eqb (Url.pr_fragment p) "" then ""
      else "#" ++ Url.pr_fragment p).

(** GitHub serves the feed with one event, the metadata lookups time out,
    the webhooks accept, the store answers, nobody interrupts. *)
Definition quiet : world :=
  mkWorld (fun _ => HttpResponse 200 (Decoded [star]))
          (fun _ => HttpRaises timeout)
          (fun _ => HttpRaises timeout)
          (fun _ => accepted)
          (fun _ => None)
          (fun n => epoch_ms + Z.of_nat n)
          (fun _ => false)
          (fun url => inr (urlparse url)) urlunparse.

(** As [quiet], but the fourth SQL statement, the [INSERT] of the first
    marker, finds the database locked. *)
Definition locked : world :=
  mkWorld (w_feed quiet) (w_repo quiet) (w_user quiet) (w_post quiet)
          (fun n => if Nat.eqb n 3 then Some "database is locked" else None)
          (w_clock quiet) (w_interrupt quiet)
          (w_urlparse quiet) (w_urlunparse quiet).

(** As [quiet], but the first SQL statement, the seen check of the first
    event, finds the database locked. *)
Definition locked_check : world :=
  mkWorld (w_feed quiet) (w_repo quiet) (w_user quiet) (w_post quiet)
          (fun n => if Nat.eqb n 0 then Some "database is locked" else None)
          (w_clock quiet) (w_interrupt quiet)
          (w_urlparse quiet) (w_urlunparse quiet).

(** As [quiet], but the feed request times out. *)
Definition offline : world :=
  mkWorld (fun _ => HttpRaises timeout) (w_repo quiet) (w_user quiet)
          (w_post quiet) (w_db_fault quiet) (w_clock quiet)
          (w_interrupt quiet)
          (w_urlparse quiet) (w_urlunparse quiet).


(** The first webhook called answers with a server error. *)
Definition failing_webhook : world :=
  mkWorld (w_feed quiet) (w_repo quiet) (w_user quiet)
          (fun n => if Nat.eqb n 2 then server_error else accepted)
          (w_db_fault quiet) (w_clock quiet) (w_interrupt quiet)
          (w_urlparse quiet) (w_urlunparse quiet).

(** The first webhook called answers with a server error, and the
    [INSERT] of the marker finds the database locked. *)
Definition jammed : world :=
  mkWorld (w_feed quiet) (w_repo quiet) (w_user quiet)
          (w_post failing_webhook) (w_db_fault locked) (w_clock quiet)
          (w_interrupt quiet) (w_urlparse quiet) (w_urlunparse quiet).

(** As [quiet], but the repository lookups succeed. *)
Definition online : world :=
  mkWorld (w_feed quiet) (fun _ => HttpResponse 200 (Decoded repo_body))
          (w_user quiet) (w_post quiet) (w_db_fault quiet) (w_clock quiet)
          (w_interrupt quiet)
          (w_urlparse quiet) (w_urlunparse quiet).


(** The state after a first call of [_get_repo_details] in [online]. *)
Definition fetched : state :=
  snd (_get_repo_details "alice/repo" online start).

(** As [quiet], but the feed is empty. *)
Definition idle : world :=
  mkWorld (fun _ => HttpResponse 200 (Decoded [])) (w_repo quiet)
          (w_user quiet) (w_post quiet) (w_db_fault quiet) (w_clock quiet)
          (w_interrupt quiet)
          (w_urlparse quiet) (w_urlunparse quiet).

(** A Feishu webhook whose URL already carries three parameters. *)
Definition legacy_hook : string :=
  "https://open.feishu.cn/open-apis/bot/v2/hook/x?a=&sign=old&b=1".

Definition legacy_bot : bot_config :=
  mkBot (Some legacy_hook) (Some "s3cret") (Some "legacy").

End Sample.

(* ================================================================== *)
(** * The library routines on known values *)

(** FIPS 180-4, the one-block and the two-block message, and the empty
    one. *)
Example sha256_abc :
  hexdump (SHA256.digest "abc")
  = "BA7816BF8F01CFEA414140DE5DAE2223B00361A396177A9CB410FF61F20015AD".
Proof. vm_compute; reflexivity. Qed.

Example sha256_two_blocks :
  hexdump (SHA256.digest
             "abcdbcdecdefdefgefghfghighijhijkijkljklmklmnlmnomnopnopq")
  = "248D6A61D20638B8E5C026930C3E6039A33CE45964FF2167F6ECEDD419DB06C1".
Proof. vm_compute; reflexivity. Qed.

Example sha256_empty :
  hexdump (SHA256.digest "")
  = "E3B0C44298FC1C149AFBF4C8996FB92427AE41E4649B934CA495991B7852B855".
Proof. vm_compute; reflexivity. Qed.

Example sha256_constants :
  hd 0 SHA256.K = 1116352408 /\ last SHA256.K 0 = 3329325298
  /\ hd 0 SHA256.H0 = 1779033703 /\ last SHA256.H0 0 = 1541459225.
Proof. vm_compute; repeat split; reflexivity. Qed.

(** RFC 4231, test case 2. *)
Example hmac_sha256_rfc4231 :
  hexdump (HMAC.sha256 "Jefe" "what do ya want for nothing?")
  = "5BDCC146BF60754E6A042426089575C75A003F089D2739839DEC58B964EC3843".
Proof. vm_compute; reflexivity. Qed.

(** RFC 4648, section 10. *)
Example base64_rfc4648 :
  map Base64.b64encode ["f"; "fo"; "foo"; "foob"; "fooba"; "foobar"]
  = ["Zg=="; "Zm8="; "Zm9v"; "Zm9vYg=="; "Zm9vYmE="; "Zm9vYmFy"].
Proof. vm_compute; reflexivity. Qed.

(** Decoding with replacement: a truncated four-byte sequence, a
    surrogate and a lone lead byte. *)
Example utf8_decode_sample :
  hexdump (Utf8.decode (Str.of_bytes [240; 144; 65; 237; 160; 128; 194]))
  = "EFBFBD41EFBFBDEFBFBDEFBFBDEFBFBD".
Proof. vm_compute; reflexivity. Qed.

Example unquote_sample :
  hexdump (Url.unquote "%E4%B8%AD%FF%41%E4%B8") = "E4B8ADEFBFBD41EFBFBD".
Proof. vm_compute; reflexivity. Qed.

Example urlparse_stand_in_sample :
  Sample.urlparse Sample.legacy_hook
  = Url.mkParseResult "https" "open.feishu.cn" "/open-apis/bot/v2/hook/x" ""
                      "a=&sign=old&b=1" ""
  /\ Sample.urlunparse
       (Url.replace_query (Sample.urlparse Sample.legacy_hook)
                          "b=1&timestamp=1")
     = "https://open.feishu.cn/open-apis/bot/v2/hook/x?b=1&timestamp=1".
Proof. split; vm_compute; reflexivity. Qed.

Example quote_plus_sample :
  Url.quote_plus "a b+c/d=e&f~g" = "a+b%2Bc%2Fd%3De%26f~g".
Proof. vm_compute; reflexivity. Qed.

Example parse_qs_sample :
  Url.parse_qs "a=&sign=old&b=1&c&b=2&x=%41+b"
  = [("sign", ["old"]); ("b", ["1"; "2"]); ("x", ["A b"])].
Proof. vm_compute; reflexivity. Qed.

Example strip_images_sample :
  strip_images 0 "a![x](y)b![c]d(e)![[p](q))z](w)" = "ab)z](w)".
Proof. vm_compute; reflexivity. Qed.

Example feishu_sign_sample :
  _generate_feishu_sign "s3cret" "1700000000"
  = "awbVqOKPToDBadVuZukL3iPdnsmBrRxvTcqnlgYUWc4=".
Proof. vm_compute; reflexivity. Qed.

(* ================================================================== *)
(** * Reasoning about computations *)

Lemma bind_ok {A B : Type} (m : M A) (k : A -> M B) w s a s' :
  m w s = (Ok a, s') -> bind m k w s = k a w s'.
Proof. unfold bind; intros ->; reflexivity. Qed.

Lemma bind_raised {A B : Type} (m : M A) (k : A -> M B) w s e s' :
  m w s = (Raised e, s') -> bind m k w s = (Raised e, s').
Proof. unfold bind; intros ->; reflexivity. Qed.

Lemma bind_interrupted {A B : Type} (m : M A) (k : A -> M B) w s s' :
  m w s = (Interrupted, s') -> bind m k w s = (Interrupted, s').
Proof. unfold bind; intros ->; reflexivity. Qed.

(** ** Computations that no interrupt can leave, and computations that
    always return *)

Definition uninterrupted {A : Type} (m : M A) : Prop :=
  forall w s, fst (m w s) <> Interrupted.

Definition safe {A : Type} (m : M A) : Prop :=
  forall w s, exists a, fst (m w s) = Ok a.

Lemma safe_uninterrupted {A : Type} (m : M A) : safe m -> uninterrupted m.
Proof. intros H w s; destruct (H w s) as [a ->]; discriminate. Qed.

Lemma uninterrupted_ret {A : Type} (a : A) : uninterrupted (ret a).
Proof. intros w s; discriminate. Qed.

Lemma uninterrupted_raise {A : Type} (e : exn) : uninterrupted (@raise A e).
Proof. intros w s; discriminate. Qed.

Lemma uninterrupted_bind {A B : Type} (m : M A) (k : A -> M B) :
  uninterrupted m -> (forall a, uninterrupted (k a)) -> uninterrupted (bind m k).
Proof.
  intros Hm Hk w s; unfold bind.
  specialize (Hm w s).
  destruct (m w s) as [[a | e |] s']; simpl in *; try discriminate.
  - apply Hk.
  - congruence.
Qed.

Lemma uninterrupted_try_except {A : Type} (body : M A) handler :
  uninterrupted body -> (forall e, uninterrupted (handler e)) ->
  uninterrupted (try_except body handler).
Proof.
  intros Hb Hh w s; unfold try_except.
  specialize (Hb w s).
  destruct (body w s) as [[a | e |] s']; simpl in *; try discriminate.
  - apply Hh.
  - congruence.
Qed.

Lemma uninterrupted_try_except_class {A : Type} cls (body : M A) handler :
  uninterrupted body -> (forall e, uninterrupted (handler e)) ->
  uninterrupted (try_except_class cls body handler).
Proof.
  intros Hb Hh w s; unfold try_except_class.
  specialize (Hb w s).
  destruct (body w s) as [[a | e |] s']; simpl in *; try discriminate.
  - destruct (exn_class_eqb _ _); [apply Hh | discriminate].
  - congruence.
Qed.

Lemma uninterrupted_emit ev : uninterrupted (emit ev).
Proof. intros w s; discriminate. Qed.

Lemma uninterrupted_subscript {A : Type} key (o : option A) :
  uninterrupted (subscript key o).
Proof. intros w s; destruct o; discriminate. Qed.

Lemma uninterrupted_json {A : Type} (b : decoded A) : uninterrupted (json b).
Proof. intros w s; destruct b; discriminate. Qed.

Lemma uninterrupted_exchange {B : Type} (oracle : world -> nat -> http B) req :
  uninterrupted (exchange oracle req).
Proof. intros w s; unfold exchange; destruct (oracle w _); discriminate. Qed.

Lemma uninterrupted_sql {A : Type} (stmt : Database -> exn + (A * Database)) :
  uninterrupted (sql stmt).
Proof.
  intros w s; unfold sql.
  destruct (w_db_fault w _); [discriminate |].
  destruct (stmt _) as [e | [a db]]; discriminate.
Qed.

Lemma uninterrupted_now : uninterrupted now.
Proof. intros w s; discriminate. Qed.

Lemma safe_ret {A : Type} (a : A) : safe (ret a).
Proof. intros w s; exists a; reflexivity. Qed.

Lemma safe_bind {A B : Type} (m : M A) (k : A -> M B) :
  safe m -> (forall a, safe (k a)) -> safe (bind m k).
Proof.
  intros Hm Hk w s; unfold bind.
  destruct (Hm w s) as [a Ha].
  destruct (m w s) as [r s']; simpl in Ha; subst r.
  apply Hk.
Qed.

Lemma safe_emit ev : safe (emit ev).
Proof. intros w s; exists tt; reflexivity. Qed.

Lemma safe_now : safe now.
Proof. intros w s; eexists; reflexivity. Qed.

(** A [try] whose handler always returns always returns, if no interrupt
    can leave its body. *)
Lemma safe_try_except {A : Type} (body : M A) handler :
  uninterrupted body -> (forall e, safe (handler e)) ->
  safe (try_except body handler).
Proof.
  intros Hb Hh w s; unfold try_except.
  specialize (Hb w s).
  destruct (body w s) as [[a | e |] s']; simpl in *.
  - exists a; reflexivity.
  - apply Hh.
  - congruence.
Qed.

Lemma uninterrupted_library {A : Type} (answer : world -> exn + A) :
  uninterrupted (library answer).
Proof. intros w s; unfold library; destruct (answer w); discriminate. Qed.

Ltac uninterrupted_step :=
  lazymatch goal with
  | |- uninterrupted (library _) => apply uninterrupted_library
  | |- uninterrupted (urlparse _) => apply uninterrupted_library
  | |- uninterrupted (urlunparse _) => apply uninterrupted_library
  | |- uninterrupted (sign_feishu_url _ _ _) => unfold sign_feishu_url
  | |- uninterrupted (ret _) => apply uninterrupted_ret
  | |- uninterrupted (raise _) => apply uninterrupted_raise
  | |- uninterrupted (emit _) => apply uninterrupted_emit
  | |- uninterrupted (subscript _ _) => apply uninterrupted_subscript
  | |- uninterrupted (json _) => apply uninterrupted_json
  | |- uninterrupted (exchange _ _) => apply uninterrupted_exchange
  | |- uninterrupted (sql _) => apply uninterrupted_sql
  | |- uninterrupted now => apply uninterrupted_now
  | |- uninterrupted (bind _ _) => apply uninterrupted_bind; [| intros]
  | |- uninterrupted (try_except _ _) =>
      apply uninterrupted_try_except; [| intros]
  | |- uninterrupted (try_except_class _ _ _) =>
      apply uninterrupted_try_except_class; [| intros]
  | |- uninterrupted (if ?b then _ else _) => destruct b
  | |- uninterrupted (match ?x with _ => _ end) => destruct x
  | |- uninterrupted (let _ := _ in _) => cbv zeta
  end.

Ltac uninterrupted_tac := repeat uninterrupted_step.

(** ** Computations that leave a part of the state as it is

    The part is a projection of the store together with the recorded
    events that [keep] selects. *)

Section Frame.
Context {D : Type} (proj : Database -> D) (keep : io_event -> bool).

Definition view (s : state) : D * list io_event :=
  (proj (st_db s), filter keep (st_trace s)).

Definition keeps {A : Type} (m : M A) : Prop :=
  forall w s, view (snd (m w s)) = view s.

Lemma keeps_ret {A : Type} (a : A) : keeps (ret a).
Proof. intros w s; reflexivity. Qed.

Lemma keeps_raise {A : Type} (e : exn) : keeps (@raise A e).
Proof. intros w s; reflexivity. Qed.

Lemma keeps_library {A : Type} (answer : world -> exn + A) :
  keeps (library answer).
Proof. intros w s; unfold library; destruct (answer w); reflexivity. Qed.

Lemma keeps_bind {A B : Type} (m : M A) (k : A -> M B) :
  keeps m -> (forall a, keeps (k a)) -> keeps (bind m k).
Proof.
  intros Hm Hk w s; unfold bind.
  specialize (Hm w s).
  destruct (m w s) as [[a | e |] s']; simpl in *; auto.
  rewrite Hk; assumption.
Qed.

Lemma keeps_try_except {A : Type} (body : M A) handler :
  keeps body -> (forall e, keeps (handler e)) ->
  keeps (try_except body handler).
Proof.
  intros Hb Hh w s; unfold try_except.
  specialize (Hb w s).
  destruct (body w s) as [[a | e |] s']; simpl in *; auto.
  rewrite Hh; assumption.
Qed.

Lemma keeps_try_except_class {A : Type} cls (body : M A) handler :
  keeps body -> (forall e, keeps (handler e)) ->
  keeps (try_except_class cls body handler).
Proof.
  intros Hb Hh w s; unfold try_except_class.
  specialize (Hb w s).
  destruct (body w s) as [[a | e |] s']; simpl in *; auto.
  destruct (exn_class_eqb _ _); simpl; auto.
  rewrite Hh; assumption.
Qed.

Lemma view_append s n q c z ev :
  keep ev = false ->
  view (mkState (st_db s) n q c z (st_trace s ++ [ev])) = view s.
Proof.
  intros H; unfold view; simpl.
  rewrite filter_app; simpl; rewrite H, app_nil_r; reflexivity.
Qed.

Lemma keeps_emit ev : keep ev = false -> keeps (emit ev).
Proof. intros H w s; unfold emit; simpl; apply view_append, H. Qed.

Lemma keeps_subscript {A : Type} key (o : option A) : keeps (subscript key o).
Proof. intros w s; destruct o; reflexivity. Qed.

Lemma keeps_json {A : Type} (b : decoded A) : keeps (json b).
Proof. intros w s; destruct b; reflexivity. Qed.

Lemma keeps_exchange {B : Type} (oracle : world -> nat -> http B) req :
  keep req = false -> keeps (exchange oracle req).
Proof.
  intros H w s; unfold exchange.
  destruct (oracle w _); simpl; apply view_append, H.
Qed.

Lemma keeps_sql {A : Type} (stmt : Database -> exn + (A * Database)) :
  (forall db a db', stmt db = inr (a, db') -> proj db' = proj db) ->
  keeps (sql stmt).
Proof.
  intros H w s; unfold sql.
  destruct (w_db_fault w _); [reflexivity |].
  destruct (stmt _) as [e | [a db]] eqn:E; [reflexivity |].
  unfold view; simpl; erewrite H by eassumption; reflexivity.
Qed.

Lemma keeps_now : keeps now.
Proof. intros w s; reflexivity. Qed.

Lemma keeps_sleep ms : keep (EvSleep ms) = false -> keeps (sleep ms).
Proof.
  intros H w s; unfold sleep.
  destruct (ms <? 0); [reflexivity |].
  destruct (w_interrupt w _); simpl; apply view_append, H.
Qed.

End Frame.

Ltac keeps_step :=
  lazymatch goal with
  | |- keeps _ _ (library _) => apply keeps_library
  | |- keeps _ _ (urlparse _) => apply keeps_library
  | |- keeps _ _ (urlunparse _) => apply keeps_library
  | |- keeps _ _ (sign_feishu_url _ _ _) => unfold sign_feishu_url
  | |- keeps _ _ (ret _) => apply keeps_ret
  | |- keeps _ _ (raise _) => apply keeps_raise
  | |- keeps _ _ (subscript _ _) => apply keeps_subscript
  | |- keeps _ _ (json _) => apply keeps_json
  | |- keeps _ _ now => apply keeps_now
  | |- keeps _ _ (emit _) => apply keeps_emit; reflexivity
  | |- keeps _ _ (exchange _ _) => apply keeps_exchange; reflexivity
  | |- keeps _ _ (sleep _) => apply keeps_sleep; reflexivity
  | |- keeps _ _ (bind _ _) => apply keeps_bind; [| intros]
  | |- keeps _ _ (try_except _ _) => apply keeps_try_except; [| intros]
  | |- keeps _ _ (try_except_class _ _ _) =>
      apply keeps_try_except_class; [| intros]
  | |- keeps _ _ (if ?b then _ else _) => destruct b
  | |- keeps _ _ (match ?x with _ => _ end) => destruct x
  | |- keeps _ _ (let _ := _ in _) => cbv zeta
  end.

Ltac keeps_tac := repeat keeps_step.

(** ** The parts of the state the properties look at *)

Definition is_send_all (ev : io_event) : bool :=
  match ev with EvSendAll _ _ => true | _ => false end.

Definition is_send (ev : io_event) : bool :=
  match ev with EvSend _ _ _ => true | _ => false end.

Definition is_dispatch (ev : io_event) : bool :=
  match ev with EvSendAll _ _ | EvSend _ _ _ => true | _ => false end.

(** The marker table and every call of [send_all] and of a sender. *)
Abbreviation keeps_marks := (keeps pushed_events is_dispatch).

(** The whole store and the calls of [send_all]. *)
Abbreviation keeps_store := (keeps (fun db : Database => db) is_send_all).

(** The whole store and the calls of the senders. *)
Abbreviation keeps_sends := (keeps (fun db : Database => db) is_send).

Lemma dispatched_app a b :
  dispatched (a ++ b) = (dispatched a ++ dispatched b)%list.
Proof. unfold dispatched; apply flat_map_app. Qed.

Lemma sends_app a b : sends (a ++ b) = (sends a ++ sends b)%list.
Proof. unfold sends; apply flat_map_app. Qed.

Lemma dispatched_filter keep tr :
  (forall id msg, keep (EvSendAll id msg) = true) ->
  dispatched (filter keep tr) = dispatched tr.
Proof.
  intros H; induction tr as [| ev tr IH]; simpl; [reflexivity |].
  destruct ev; simpl;
    try (destruct (keep _); simpl; rewrite ?IH; reflexivity).
  rewrite H; simpl; rewrite IH; reflexivity.
Qed.

Lemma sends_filter keep tr :
  (forall ch bot msg, keep (EvSend ch bot msg) = true) ->
  sends (filter keep tr) = sends tr.
Proof.
  intros H; induction tr as [| ev tr IH]; simpl; [reflexivity |].
  destruct ev; simpl;
    try (destruct (keep _); simpl; rewrite ?IH; reflexivity).
  rewrite H; simpl; rewrite IH; reflexivity.
Qed.

Lemma view_marks s s' :
  view pushed_events is_dispatch s' = view pushed_events is_dispatch s ->
  pushed_events (st_db s') = pushed_events (st_db s)
  /\ dispatched (st_trace s') = dispatched (st_trace s)
  /\ sends (st_trace s') = sends (st_trace s).
Proof.
  unfold view; intros H; inversion H as [[H1 H2]]; repeat split.
  - rewrite <- (dispatched_filter is_dispatch (st_trace s')), H2 by reflexivity.
    apply dispatched_filter; reflexivity.
  - rewrite <- (sends_filter is_dispatch (st_trace s')), H2 by reflexivity.
    apply sends_filter; reflexivity.
Qed.

Lemma view_store s s' :
  view (fun db : Database => db) is_send_all s'
  = view (fun db => db) is_send_all s ->
  st_db s' = st_db s /\ dispatched (st_trace s') = dispatched (st_trace s).
Proof.
  unfold view; intros H; inversion H as [[H1 H2]]; split; [reflexivity |].
  rewrite <- (dispatched_filter is_send_all (st_trace s')), H2 by reflexivity.
  apply dispatched_filter; reflexivity.
Qed.

Lemma view_sends s s' :
  view (fun db : Database => db) is_send s' = view (fun db => db) is_send s ->
  st_db s' = st_db s /\ sends (st_trace s') = sends (st_trace s).
Proof.
  unfold view; intros H; inversion H as [[H1 H2]]; split; [reflexivity |].
  rewrite <- (sends_filter is_send (st_trace s')), H2 by reflexivity.
  apply sends_filter; reflexivity.
Qed.

Lemma run_safe {A : Type} (m : M A) w s :
  safe m -> exists a s', m w s = (Ok a, s').
Proof.
  intros H; destruct (H w s) as [a Ha].
  destruct (m w s) as [r s']; simpl in Ha; subst r; eauto.
Qed.

(** ** The store's operations *)

Lemma uninterrupted_mark_pushed id : uninterrupted (mark_pushed id).
Proof. unfold mark_pushed; uninterrupted_tac. Qed.

Lemma keeps_marks_get_user_avatar login : keeps_marks (get_user_avatar login).
Proof.
  apply keeps_sql; intros db a db' H; inversion H; reflexivity.
Qed.

Lemma keeps_marks_cache_user_avatar login a :
  keeps_marks (cache_user_avatar login a).
Proof.
  unfold cache_user_avatar; apply keeps_bind; [apply keeps_now | intros t].
  apply keeps_sql; intros db x db' H; inversion H; reflexivity.
Qed.

Lemma keeps_marks_get_repo_info name : keeps_marks (get_repo_info name).
Proof.
  apply keeps_sql; intros db a db' H; inversion H; reflexivity.
Qed.

Lemma keeps_marks_cache_repo_info name info :
  keeps_marks (cache_repo_info name info).
Proof.
  unfold cache_repo_info; cbv zeta.
  apply keeps_bind; [apply keeps_now | intros t].
  apply keeps_sql; intros db x db' H.
  unfold replace_repo in H; destruct (fits_int64 _); inversion H; reflexivity.
Qed.

(** ** Enrichment and formatting *)

(** ** Substrings *)

Lemma append_nil_r s : s ++ "" = s.
Proof. induction s as [| c s IH]; simpl; [| rewrite IH]; reflexivity. Qed.

Lemma append_assoc a b c : (a ++ b) ++ c = a ++ (b ++ c).
Proof. induction a as [| x a IH]; simpl; [| rewrite IH]; reflexivity. Qed.

Lemma prefix_app a b : String.prefix a (a ++ b) = true.
Proof.
  induction a as [| c a IH]; simpl; [destruct b; reflexivity |].
  destruct (ascii_dec c c); [exact IH | contradiction].
Qed.

Lemma prefix_app_l sub a b :
  String.prefix sub a = true -> String.prefix sub (a ++ b) = true.
Proof.
  revert a; induction sub as [| c sub IH]; intros a; simpl;
    [destruct (a ++ b); reflexivity |].
  destruct a as [| d a]; simpl; [discriminate |].
  destruct (ascii_dec c d); [apply IH | discriminate].
Qed.

Lemma contains_here sub s :
  String.prefix sub s = true -> Str.contains sub s = true.
Proof. intros H; destruct s; simpl in *; rewrite H; reflexivity. Qed.

Lemma contains_skip sub pre s :
  Str.contains sub s = true -> Str.contains sub (pre ++ s) = true.
Proof.
  intros H; induction pre as [| c pre IH]; simpl; [exact H |].
  rewrite IH; apply orb_true_r.
Qed.

Lemma contains_app_l sub a b :
  Str.contains sub a = true -> Str.contains sub (a ++ b) = true.
Proof.
  induction a as [| c a IH]; simpl; intros H.
  - rewrite orb_false_r in H; apply contains_here.
    apply (prefix_app_l sub "" b H).
  - apply orb_true_iff in H; destruct H as [H | H].
    + apply (prefix_app_l sub (String c a) b) in H; simpl in H.
      rewrite H; reflexivity.
    + rewrite (IH H); apply orb_true_r.
Qed.

(** ** Characters of an encoded text *)

Fixpoint all (P : ascii -> bool) (s : string) : bool :=
  match s with
  | EmptyString => true
  | String c r => P c && all P r
  end.

(** What [quote_plus] can write. *)
Definition url_char (c : ascii) : bool :=
  Url.always_safe c || Ascii.eqb c "%" || Ascii.eqb c "+".

Ltac each_ascii c := destruct c as [[] [] [] [] [] [] [] []].

Lemma mem_app c a b : Str.mem c (a ++ b) = Str.mem c a || Str.mem c b.
Proof.
  induction a as [| d a IH]; simpl; [reflexivity |].
  rewrite IH, orb_assoc; reflexivity.
Qed.

Lemma all_app P a b : all P (a ++ b) = all P a && all P b.
Proof.
  induction a as [| d a IH]; simpl; [reflexivity |].
  rewrite IH, andb_assoc; reflexivity.
Qed.

Lemma all_mem P s c : all P s = true -> P c = false -> Str.mem c s = false.
Proof.
  intros H Hc; induction s as [| d s IH]; simpl in *; [reflexivity |].
  apply andb_true_iff in H; destruct H as [Hd Hs].
  rewrite (IH Hs), orb_false_r.
  destruct (Ascii.eqb c d) eqn:E; [| reflexivity].
  apply Ascii.eqb_eq in E; subst; congruence.
Qed.

Lemma replace_char_app a b x y :
  Str.replace_char a b (x ++ y)
  = Str.replace_char a b x ++ Str.replace_char a b y.
Proof. induction x as [| c x IH]; simpl; [| rewrite IH]; reflexivity. Qed.

Lemma replace_char_absent a b s :
  Str.mem a s = false -> Str.replace_char a b s = s.
Proof.
  induction s as [| c s IH]; simpl; [reflexivity |].
  intros H; apply orb_false_iff in H; destruct H as [H1 H2].
  rewrite Ascii.eqb_sym, H1, (IH H2); reflexivity.
Qed.

Lemma always_safe_unreserved c : Url.always_safe c = Spec.unreserved c.
Proof. each_ascii c; reflexivity. Qed.

(** An escape is a percent sign and two hexadecimal digits, and decodes
    to the byte it stands for. *)
Lemma percent_url_chars c : all url_char (Url.percent c) = true.
Proof. each_ascii c; reflexivity. Qed.

Lemma percent_no_plus c : Str.mem "+" (Url.percent c) = false.
Proof. each_ascii c; reflexivity. Qed.

Lemma percent_no_blank c : Str.mem " " (Url.percent c) = false.
Proof. each_ascii c; reflexivity. Qed.

Lemma unquote_percent c rest :
  Url.unquote_to_bytes (Url.percent c ++ rest) = String c (Url.unquote_to_bytes rest).
Proof. each_ascii c; reflexivity. Qed.

Lemma always_safe_plain c :
  Url.always_safe c = true ->
  Ascii.eqb c "%" = false /\ Ascii.eqb c "+" = false /\ Ascii.eqb c " " = false.
Proof. each_ascii c; intros H; try discriminate H; repeat split. Qed.

Lemma unquote_plain c rest :
  Ascii.eqb c "%" = false ->
  Url.unquote_to_bytes (String c rest) = String c (Url.unquote_to_bytes rest).
Proof.
  intros H; destruct rest as [| a [| b r]]; simpl; rewrite ?H; reflexivity.
Qed.

(** ** [quote_plus] and back *)

Lemma quote_cons safe c r :
  Url.quote safe (String c r)
  = (if Url.always_safe c || Str.mem c safe then String c "" else Url.percent c)
    ++ Url.quote safe r.
Proof. reflexivity. Qed.

Lemma unquote_quote s :
  Url.unquote_to_bytes (Str.replace_char "+" " " (Url.quote "" s)) = s.
Proof.
  induction s as [| c s IH]; [reflexivity |].
  rewrite quote_cons, replace_char_app; simpl Str.mem; rewrite orb_false_r.
  destruct (Url.always_safe c) eqn:E.
  - destruct (always_safe_plain c E) as (H1 & H2 & H3).
    cbn [Str.replace_char append]; rewrite H2, (unquote_plain c _ H1), IH.
    reflexivity.
  - rewrite (replace_char_absent _ _ _ (percent_no_plus c)), unquote_percent, IH.
    reflexivity.
Qed.

Lemma unquote_quote_blank s :
  Url.unquote_to_bytes
    (Str.replace_char "+" " " (Str.replace_char " " "+" (Url.quote " " s)))
  = s.
Proof.
  induction s as [| c s IH]; [reflexivity |].
  rewrite quote_cons, !replace_char_app; simpl Str.mem; rewrite orb_false_r.
  destruct (Url.always_safe c) eqn:E.
  - destruct (always_safe_plain c E) as (H1 & H2 & H3).
    cbn [orb Str.replace_char append]; rewrite H3.
    cbn [Str.replace_char append]; rewrite H2, (unquote_plain c _ H1), IH.
    reflexivity.
  - destruct (Ascii.eqb c " ") eqn:B; simpl orb; cbv iota.
    + apply Ascii.eqb_eq in B; subst c.
      change (Url.unquote_to_bytes
                (String " " (Str.replace_char "+" " "
                               (Str.replace_char " " "+" (Url.quote " " s))))
              = String " " s).
      rewrite (unquote_plain " " _ eq_refl), IH; reflexivity.
    + rewrite (replace_char_absent _ _ _ (percent_no_blank c)),
        (replace_char_absent _ _ _ (percent_no_plus c)), unquote_percent, IH.
      reflexivity.
Qed.

(** Decoding what [quote_plus] wrote gives the text back. *)
Lemma unquote_quote_plus s :
  Url.unquote_to_bytes (Str.replace_char "+" " " (Url.quote_plus s)) = s.
Proof.
  unfold Url.quote_plus; destruct (Str.mem " " s).
  - apply unquote_quote_blank.
  - apply unquote_quote.
Qed.

Lemma url_chars_quote s : all url_char (Url.quote "" s) = true.
Proof.
  induction s as [| c s IH]; [reflexivity |].
  rewrite quote_cons, all_app, IH, andb_true_r; simpl Str.mem.
  rewrite orb_false_r.
  destruct (Url.always_safe c) eqn:E; [| apply percent_url_chars].
  cbn [all]; unfold url_char; rewrite E; reflexivity.
Qed.

Lemma url_chars_quote_blank s :
  all url_char (Str.replace_char " " "+" (Url.quote " " s)) = true.
Proof.
  induction s as [| c s IH]; [reflexivity |].
  rewrite quote_cons, replace_char_app, all_app, IH, andb_true_r.
  simpl Str.mem; rewrite orb_false_r.
  destruct (Url.always_safe c) eqn:E.
  - destruct (always_safe_plain c E) as (H1 & H2 & H3).
    cbn [orb Str.replace_char all]; rewrite H3; unfold url_char; rewrite E.
    reflexivity.
  - destruct (Ascii.eqb c " ") eqn:B; simpl orb; cbv iota.
    + cbn [Str.replace_char all]; rewrite B; reflexivity.
    + rewrite (replace_char_absent _ _ _ (percent_no_blank c)).
      apply percent_url_chars.
Qed.

(** [quote_plus] writes unreserved characters, [%] and [+] only. *)
Lemma url_chars_quote_plus s : all url_char (Url.quote_plus s) = true.
Proof.
  unfold Url.quote_plus; destruct (Str.mem " " s).
  - apply url_chars_quote_blank.
  - apply url_chars_quote.
Qed.

Lemma quote_percent_encode s : Url.quote "" s = Spec.percent_encode s.
Proof.
  induction s as [| c s IH]; [reflexivity |].
  rewrite quote_cons; simpl; rewrite orb_false_r, IH, always_safe_unreserved.
  destruct (Spec.unreserved c); reflexivity.
Qed.

(** ** Base64 text has no blank *)

Lemma digit_not_blank n : Ascii.eqb " " (Base64.digit n) = false.
Proof.
  unfold Base64.digit.
  destruct (nth_in_or_default (Z.to_nat n) Base64.alphabet Base64.pad_char)
    as [H | H]; [| rewrite H; reflexivity].
  revert H; generalize (nth (Z.to_nat n) Base64.alphabet Base64.pad_char).
  intros c H; simpl in H.
  repeat (destruct H as [H | H]; [subst c; reflexivity |]).
  contradiction.
Qed.

Lemma pad_not_blank : Ascii.eqb " " Base64.pad_char = false.
Proof. reflexivity. Qed.

Lemma encode_no_blank bs :
  existsb (Ascii.eqb " ") (Base64.encode bs) = false.
Proof.
  assert (H : forall n bs, (List.length bs <= n)%nat ->
                           existsb (Ascii.eqb " ") (Base64.encode bs) = false).
  { clear bs; induction n as [| n IH]; intros bs L.
    - destruct bs; [reflexivity | simpl in L; lia].
    - destruct bs as [| a [| b [| c r]]]; cbn [Base64.encode existsb];
        rewrite ?digit_not_blank, ?pad_not_blank; try reflexivity.
      apply IH; cbn [List.length] in L; lia. }
  apply (H (List.length bs)); lia.
Qed.

Lemma mem_string_of_list c l :
  Str.mem c (string_of_list_ascii l) = existsb (Ascii.eqb c) l.
Proof. induction l as [| d l IH]; simpl; [| rewrite IH]; reflexivity. Qed.

Lemma b64encode_no_blank s : Str.mem " " (Base64.b64encode s) = false.
Proof. unfold Base64.b64encode; rewrite mem_string_of_list; apply encode_no_blank. Qed.

(** ** Splitting and joining *)

Lemma split_once_app sep a b :
  Str.mem sep a = false ->
  Str.split_once sep (a ++ String sep b) = Some (a, b).
Proof.
  induction a as [| c a IH]; simpl; intros H.
  - rewrite Ascii.eqb_refl; reflexivity.
  - apply orb_false_iff in H; destruct H as [H1 H2].
    rewrite Ascii.eqb_sym, H1, (IH H2); reflexivity.
Qed.

Lemma split_once_none sep s :
  Str.mem sep s = false -> Str.split_once sep s = None.
Proof.
  induction s as [| c s IH]; simpl; intros H; [reflexivity |].
  apply orb_false_iff in H; destruct H as [H1 H2].
  rewrite Ascii.eqb_sym, H1, (IH H2); reflexivity.
Qed.

Lemma split_once_none_inv sep s :
  Str.split_once sep s = None -> Str.mem sep s = false.
Proof.
  induction s as [| c s IH]; simpl; intros H; [reflexivity |].
  destruct (Ascii.eqb c sep) eqn:E; [discriminate |].
  destruct (Str.split_once sep s) as [[a b] |]; [discriminate |].
  rewrite Ascii.eqb_sym, E, IH; reflexivity.
Qed.

Lemma split_once_some sep s a b :
  Str.split_once sep s = Some (a, b) ->
  s = a ++ String sep b /\ Str.mem sep a = false.
Proof.
  revert a; induction s as [| c s IH]; simpl; intros a H; [discriminate |].
  destruct (Ascii.eqb c sep) eqn:E.
  - inversion H; subst; apply Ascii.eqb_eq in E; subst; split; reflexivity.
  - destruct (Str.split_once sep s) as [[a' b'] |]; [| discriminate].
    inversion H; subst.
    destruct (IH a' eq_refl) as [-> M]; split; [reflexivity |].
    simpl; rewrite Ascii.eqb_sym, E, M; reflexivity.
Qed.

Lemma split_on_single sep s :
  Str.mem sep s = false -> Str.split_on sep s = [s].
Proof.
  induction s as [| c s IH]; simpl; intros H; [reflexivity |].
  apply orb_false_iff in H; destruct H as [H1 H2].
  rewrite Ascii.eqb_sym, H1, (IH H2); reflexivity.
Qed.

Lemma split_on_app sep a b :
  Str.mem sep a = false ->
  Str.split_on sep (a ++ String sep b) = a :: Str.split_on sep b.
Proof.
  induction a as [| c a IH]; simpl; intros H.
  - rewrite Ascii.eqb_refl; reflexivity.
  - apply orb_false_iff in H; destruct H as [H1 H2].
    rewrite Ascii.eqb_sym, H1, (IH H2); reflexivity.
Qed.

Lemma split_on_concat sep fs :
  fs <> [] ->
  Forall (fun f => Str.mem sep f = false) fs ->
  Str.split_on sep (String.concat (String sep "") fs) = fs.
Proof.
  intros N F; induction F as [| f fs Hf F IH]; [congruence |].
  destruct fs as [| g fs]; simpl.
  - apply split_on_single, Hf.
  - change (Str.split_on sep (f ++ String sep (String.concat (String sep "") (g :: fs)))
            = f :: g :: fs).
    rewrite (split_on_app sep f _ Hf), IH by discriminate; reflexivity.
Qed.

(** ** The query dictionary *)


Lemma dict_get_set_same k v d : Url.dict_get k (Url.dict_set k v d) = Some v.
Proof.
  induction d as [| [k' v'] d IH]; simpl.
  - rewrite String.eqb_refl; reflexivity.
  - destruct (String.eqb k k') eqn:E; simpl; rewrite E; [reflexivity | exact IH].
Qed.

Lemma dict_get_set_other k k' v d :
  k <> k' -> Url.dict_get k (Url.dict_set k' v d) = Url.dict_get k d.
Proof.
  intros N; apply String.eqb_neq in N.
  induction d as [| [k2 v2] d IH]; simpl.
  - rewrite N; reflexivity.
  - destruct (String.eqb k' k2) eqn:E; simpl.
    + apply String.eqb_eq in E; subst k2; rewrite N; reflexivity.
    + rewrite IH; reflexivity.
Qed.







Lemma dict_get_in k vs d : Url.dict_get k d = Some vs -> In (k, vs) d.
Proof.
  induction d as [| [k' v'] d IH]; simpl; [discriminate |].
  destruct (String.eqb k k') eqn:E.
  - apply String.eqb_eq in E; subst; intros H; inversion H; left; reflexivity.
  - intros H; right; apply IH, H.
Qed.


(** ** The parameters of an encoded query *)

Lemma quote_plus_no c s : url_char c = false -> Str.mem c (Url.quote_plus s) = false.
Proof. intros H; apply (all_mem url_char); [apply url_chars_quote_plus | exact H]. Qed.

Lemma field_no c k vs f :
  url_char c = false -> Ascii.eqb c "=" = false ->
  In f (Url.encode_item (k, vs)) -> Str.mem c f = false.
Proof.
  intros Hc He H; unfold Url.encode_item in H; simpl in H.
  apply in_map_iff in H; destruct H as (x & <- & _).
  rewrite mem_app; cbn [Str.mem].
  rewrite He, (quote_plus_no c k Hc), (quote_plus_no c x Hc); reflexivity.
Qed.

Lemma fields_no c d :
  url_char c = false -> Ascii.eqb c "=" = false ->
  Forall (fun f => Str.mem c f = false) (flat_map Url.encode_item d).
Proof.
  intros Hc He; apply Forall_forall; intros f H.
  apply in_flat_map in H; destruct H as ([k vs] & _ & H).
  eapply field_no; eassumption.
Qed.

Lemma mem_concat c sep fs :
  Str.mem c sep = false ->
  Forall (fun f => Str.mem c f = false) fs ->
  Str.mem c (String.concat sep fs) = false.
Proof.
  intros Hs F; induction F as [| f fs Hf F IH]; [reflexivity |].
  destruct fs as [| g fs]; [exact Hf |].
  change (Str.mem c (f ++ sep ++ String.concat sep (g :: fs)) = false).
  rewrite !mem_app, Hf, Hs, IH; reflexivity.
Qed.

Lemma query_field_encoded k v :
  Spec.query_field (Url.quote_plus k ++ "=" ++ Url.quote_plus v) = [(k, v)].
Proof.
  unfold Spec.query_field.
  assert (N : String.eqb (Url.quote_plus k ++ "=" ++ Url.quote_plus v) "" = false).
  { destruct (Url.quote_plus k); reflexivity. }
  rewrite N.
  change (Url.quote_plus k ++ "=" ++ Url.quote_plus v)
    with (Url.quote_plus k ++ String "=" (Url.quote_plus v)).
  rewrite split_once_app by (apply quote_plus_no; reflexivity).
  rewrite !unquote_quote_plus; reflexivity.
Qed.


Lemma query_params_nonempty x qs : In x (Spec.query_params qs) -> qs <> "".
Proof. intros H E; subst; destruct H. Qed.

(** A pair that the specification reads with a value that is not empty
    is a pair that [parse_qsl] reads. *)
Lemma unquote_nonempty s : s <> "" -> Url.unquote_to_bytes s <> "".
Proof.
  destruct s as [| c r]; [congruence |]; intros _.
  destruct r as [| a [| b r']]; simpl; try discriminate.
  destruct (Ascii.eqb c "%"), (Url.hex_value a), (Url.hex_value b);
    discriminate.
Qed.

Lemma replace_char_nonempty a b s : s <> "" -> Str.replace_char a b s <> "".
Proof. destruct s; [congruence | discriminate]. Qed.

(** *** Decoding as the library does it *)

(** On a text without raw characters beyond ASCII, [unquote] is
    [unquote_to_bytes] followed by the decoding. *)
Lemma unquote_from_ascii s :
  forall run,
    all Url.is_ascii s = true ->
    Url.unquote_from run s = Utf8.decode (Url.unquote_to_bytes (run ++ s)).
Proof.
  induction s as [| c s IH]; intros run H; cbn [Url.unquote_from].
  - rewrite append_nil_r; reflexivity.
  - cbn [all] in H; apply andb_true_iff in H; destruct H as [H1 H2].
    rewrite H1, (IH _ H2), append_assoc; reflexivity.
Qed.

Lemma unquote_ascii s :
  all Url.is_ascii s = true ->
  Url.unquote s = Utf8.decode (Url.unquote_to_bytes s).
Proof. intros H; apply (unquote_from_ascii s "" H). Qed.

Lemma all_replace_char P a b s :
  P b = true -> all P s = true -> all P (Str.replace_char a b s) = true.
Proof.
  intros Hb; induction s as [| c s IH]; [reflexivity |].
  cbn [all Str.replace_char]; intros H.
  apply andb_true_iff in H; destruct H as [H1 H2].
  rewrite (IH H2); destruct (Ascii.eqb c a); [rewrite Hb | rewrite H1];
    reflexivity.
Qed.

Lemma all_split_on P sep s :
  all P s = true -> Forall (fun f => all P f = true) (Str.split_on sep s).
Proof.
  induction s as [| c s IH]; cbn [all Str.split_on]; intros H.
  - constructor; [reflexivity | constructor].
  - apply andb_true_iff in H; destruct H as [H1 H2].
    specialize (IH H2).
    destruct (Ascii.eqb c sep); [constructor; [reflexivity | exact IH] |].
    destruct (Str.split_on sep s) as [| q qs];
      [constructor; [cbn [all]; rewrite H1; reflexivity | constructor] |].
    inversion IH; subst; constructor; [| assumption].
    cbn [all]; rewrite H1; assumption.
Qed.

(** The two halves of a field, as both readers decode them. *)
Lemma unquote_half s :
  all Url.is_ascii s = true ->
  Url.unquote (Str.replace_char "+" " " s)
  = Utf8.decode (Url.unquote_to_bytes (Str.replace_char "+" " " s)).
Proof.
  intros H; apply unquote_ascii, all_replace_char; [reflexivity | exact H].
Qed.



(** ** Taking a URL apart and putting it together *)

Lemma mem_app_l c a b : Str.mem c (a ++ b) = false -> Str.mem c a = false.
Proof. rewrite mem_app; intros H; apply orb_false_iff in H; apply H. Qed.

Ltac gets_tac :=
  unfold gets; rewrite ?flat_map_app; simpl;
  rewrite ?app_nil_r, <- ?app_assoc; reflexivity.

Ltac run_enrichment :=
  unfold _get_repo_details, _get_user_avatar, get_repo_info, get_user_avatar,
    cache_repo_info, cache_user_avatar, replace_repo, repo_lookup_fails,
    avatar_lookup_fails, faulty, repo_url, user_url,
    bind, sql, try_except, exchange, json, now, log, emit, ret, raise in *;
  simpl in *.

Section Properties.

Variable cfg : config.
Variable strptime_strftime : string -> string + string.

Lemma uninterrupted_get_user_avatar login :
  uninterrupted (_get_user_avatar login).
Proof.
  unfold _get_user_avatar, get_user_avatar, cache_user_avatar, log.
  uninterrupted_tac.
Qed.

Lemma uninterrupted_get_repo_details name :
  uninterrupted (_get_repo_details name).
Proof.
  unfold _get_repo_details, get_repo_info, cache_repo_info, log.
  uninterrupted_tac.
Qed.

Lemma keeps_marks_user_avatar login : keeps_marks (_get_user_avatar login).
Proof.
  unfold _get_user_avatar, log.
  apply keeps_bind; [apply keeps_marks_get_user_avatar | intros cached].
  destruct (truthy cached); [apply keeps_ret |].
  apply keeps_bind; [| intros; keeps_tac].
  apply keeps_try_except; [| intros; keeps_tac].
  apply keeps_bind; [keeps_tac | intros resp].
  destruct (fst resp =? 200); [| keeps_tac].
  apply keeps_bind; [keeps_tac | intros data]; cbv zeta.
  apply keeps_bind; [apply keeps_marks_cache_user_avatar | intros; keeps_tac].
Qed.

Lemma keeps_marks_repo_details name : keeps_marks (_get_repo_details name).
Proof.
  unfold _get_repo_details, log.
  apply keeps_bind; [apply keeps_marks_get_repo_info | intros cached].
  destruct cached; [apply keeps_ret |].
  apply keeps_bind; [| intros; keeps_tac].
  apply keeps_try_except; [| intros; keeps_tac].
  apply keeps_bind; [keeps_tac | intros resp].
  destruct (fst resp =? 200); [| keeps_tac].
  apply keeps_bind; [keeps_tac | intros data].
  apply keeps_bind; [apply keeps_marks_cache_repo_info | intros; keeps_tac].
Qed.

Lemma uninterrupted_assemble ev : uninterrupted (assemble strptime_strftime ev).
Proof.
  unfold assemble.
  repeat first
    [ apply uninterrupted_get_user_avatar
    | apply uninterrupted_get_repo_details
    | uninterrupted_step ].
Qed.

Lemma keeps_marks_assemble ev : keeps_marks (assemble strptime_strftime ev).
Proof.
  unfold assemble.
  repeat first
    [ apply keeps_marks_user_avatar
    | apply keeps_marks_repo_details
    | keeps_step ].
Qed.

(** [format_message] returns a message whatever happens. *)
Lemma safe_format_message ev : safe (format_message strptime_strftime ev).
Proof.
  unfold format_message; apply safe_try_except.
  - apply uninterrupted_assemble.
  - intros e; unfold log; apply safe_bind; [apply safe_emit | intros; apply safe_ret].
Qed.

Lemma keeps_marks_format_message ev :
  keeps_marks (format_message strptime_strftime ev).
Proof.
  unfold format_message, log; apply keeps_try_except.
  - apply keeps_marks_assemble.
  - intros; keeps_tac.
Qed.

(** ** Cache hits, failed lookups, successful lookups *)

Lemma lookup_app {V : Type} k (a b : list (string * V)) :
  lookup k (a ++ b)
  = match lookup k a with Some v => Some v | None => lookup k b end.
Proof.
  induction a as [| [k' v] a IH]; simpl; [reflexivity |].
  destruct (String.eqb k' k); [reflexivity | exact IH].
Qed.

Lemma lookup_upsert {V : Type} k (v : V) t : lookup k (upsert k v t) = Some v.
Proof.
  unfold upsert; rewrite lookup_app.
  assert (H : lookup k (filter (fun r => negb (String.eqb (fst r) k)) t) = None).
  { induction t as [| [k' v'] t IH]; simpl; [reflexivity |].
    destruct (String.eqb k' k) eqn:E; simpl; [exact IH |].
    rewrite E; exact IH. }
  rewrite H; simpl; rewrite String.eqb_refl; reflexivity.
Qed.

Lemma has_key_lookup {V : Type} k (t : list (string * V)) :
  has_key k t = match lookup k t with Some _ => true | None => false end.
Proof.
  unfold has_key; induction t as [| [k' v] t IH]; simpl; [reflexivity |].
  destruct (String.eqb k' k); [reflexivity | exact IH].
Qed.


(** After a miss and a failed lookup the default comes back; GitHub was
    asked once and the store is as it was. *)
Lemma repo_details_failed w s name :
  w_db_fault w (st_sql s) = None ->
  lookup name (repo_cache (st_db s)) = None ->
  repo_lookup_fails w s = true ->
  exists s',
    _get_repo_details name w s = (Ok default_repo_info, s')
    /\ st_db s' = st_db s
    /\ gets (st_trace s') = (gets (st_trace s) ++ [repo_url name])%list.
Proof.
  intros Hf Hl Hx; run_enrichment; rewrite Hf, Hl; simpl.
  destruct (w_repo w (st_net s)) as [e | status body]; simpl in *.
  - eexists; split; [reflexivity |]; simpl; split; [reflexivity |].
    gets_tac.
  - destruct (status =? 200); simpl in *.
    + destruct body as [e | data]; simpl in *.
      * eexists; split; [reflexivity |]; simpl; split; [reflexivity |].
        gets_tac.
      * destruct (w_db_fault w (S (st_sql s))); simpl in *.
        -- eexists; split; [reflexivity |]; simpl; split; [reflexivity |].
           gets_tac.
        -- destruct (fits_int64 _); simpl in *; [discriminate |].
           eexists; split; [reflexivity |]; simpl; split; [reflexivity |].
           gets_tac.
    + eexists; split; [reflexivity |]; simpl; split; [reflexivity |].
      gets_tac.
Qed.




(** The avatar cached for a login, as the program reads it. *)
Definition cached_avatar (login : string) (db : Database) : option string :=
  match lookup login (user_cache db) with
  | Some (avatar_url, _) => avatar_url
  | None => None
  end.


Lemma user_avatar_asks w s login :
  w_db_fault w (st_sql s) = None ->
  truthy (cached_avatar login (st_db s)) = false ->
  exists tr,
    st_trace (snd (_get_user_avatar login w s))
    = (st_trace s ++ EvGet (user_url login) :: tr)%list.
Proof.
  intros Hf Hl; unfold cached_avatar in Hl; run_enrichment.
  rewrite Hf; simpl; rewrite Hl; simpl.
  destruct (w_user w (st_net s)) as [e | status body]; simpl;
    [eexists; rewrite <- app_assoc; reflexivity |].
  destruct (status =? 200); simpl; [| eexists; reflexivity].
  destruct body as [e | data]; simpl;
    [eexists; rewrite <- app_assoc; reflexivity |].
  destruct (w_db_fault w (S (st_sql s))); simpl;
    [eexists; rewrite <- app_assoc; reflexivity | eexists; reflexivity].
Qed.

(** ** Computations that cannot return *)

Definition fails {A : Type} (m : M A) : Prop :=
  forall w s a, fst (m w s) <> Ok a.

Lemma fails_raise {A : Type} (e : exn) : fails (@raise A e).
Proof. intros w s a; discriminate. Qed.

Lemma fails_bind_l {A B : Type} (m : M A) (k : A -> M B) :
  fails m -> fails (bind m k).
Proof.
  intros H w s b; unfold bind; specialize (H w s).
  destruct (m w s) as [[a | e |] s']; simpl in *; try discriminate.
  exfalso; eapply H; reflexivity.
Qed.

Lemma fails_bind_r {A B : Type} (m : M A) (k : A -> M B) :
  (forall a, fails (k a)) -> fails (bind m k).
Proof.
  intros H w s b; unfold bind.
  destruct (m w s) as [[a | e |] s']; simpl; try discriminate.
  apply H.
Qed.

(** Without [created_at] the message cannot be assembled. *)
Lemma assemble_undated_fails ev :
  ev_created_at ev = None -> fails (assemble strptime_strftime ev).
Proof.
  intros H; unfold assemble; rewrite H.
  do 7 (apply fails_bind_r; intros ?).
  apply fails_bind_l, fails_raise.
Qed.

Lemma format_message_fallback ev w s e s' :
  assemble strptime_strftime ev w s = (Raised e, s') ->
  fst (format_message strptime_strftime ev w s) = Ok (fallback_message e).
Proof.
  intros E; unfold format_message, try_except; rewrite E; reflexivity.
Qed.

(** ** Dispatch *)

Lemma safe_log l text : safe (log l text).
Proof. apply safe_emit. Qed.

Lemma safe_send_dingtalk message bot : safe (_send_dingtalk message bot).
Proof.
  unfold _send_dingtalk.
  apply safe_bind; [apply safe_emit | intros _].
  apply safe_try_except; [| intros; apply safe_log].
  unfold log; uninterrupted_tac.
Qed.

Lemma safe_send_feishu message bot : safe (_send_feishu message bot).
Proof.
  unfold _send_feishu.
  apply safe_bind; [apply safe_emit | intros _].
  apply safe_try_except; [| intros; apply safe_log].
  unfold log; uninterrupted_tac.
Qed.

Lemma keeps_store_send_dingtalk message bot :
  keeps_store (_send_dingtalk message bot).
Proof. unfold _send_dingtalk, log; keeps_tac. Qed.

Lemma keeps_store_send_feishu message bot :
  keeps_store (_send_feishu message bot).
Proof. unfold _send_feishu, log; keeps_tac. Qed.

(** A sender records its call and nothing else of that kind. *)
Lemma sends_emit_then {A : Type} ch bot message (m : M A) w s :
  keeps_sends m ->
  sends (st_trace (snd ((emit (EvSend ch bot message) ;; m) w s)))
  = (sends (st_trace s) ++ [(ch, bot, message)])%list.
Proof.
  intros Hm; unfold bind, emit.
  match goal with |- context [m w ?s1] => specialize (Hm w s1) end.
  apply view_sends in Hm; destruct Hm as [_ Hm].
  match goal with |- context [m w ?s1] => destruct (m w s1) as [[a | e |] s2] end;
    simpl in *; rewrite Hm, sends_app; reflexivity.
Qed.

Lemma sends_send_dingtalk message bot w s :
  sends (st_trace (snd (_send_dingtalk message bot w s)))
  = (sends (st_trace s) ++ [(DingTalk, bot, message)])%list.
Proof.
  unfold _send_dingtalk; apply sends_emit_then; unfold log; keeps_tac.
Qed.

Lemma sends_send_feishu message bot w s :
  sends (st_trace (snd (_send_feishu message bot w s)))
  = (sends (st_trace s) ++ [(Feishu, bot, message)])%list.
Proof.
  unfold _send_feishu; apply sends_emit_then; unfold log; keeps_tac.
Qed.

Section ForEachBot.
Variable ch : channel.
Variable send : string -> bot_config -> M unit.
Hypothesis send_safe : forall message bot, safe (send message bot).
Hypothesis send_keeps : forall message bot, keeps_store (send message bot).
Hypothesis send_sends : forall message bot w s,
  sends (st_trace (snd (send message bot w s)))
  = (sends (st_trace s) ++ [(ch, bot, message)])%list.

Lemma safe_for_each_bot message bots :
  safe (for_each_bot send message bots).
Proof.
  induction bots as [| bot rest IH]; simpl.
  - apply safe_ret.
  - apply safe_bind; [apply send_safe | intros _; apply IH].
Qed.

Lemma keeps_store_for_each_bot message bots :
  keeps_store (for_each_bot send message bots).
Proof.
  induction bots as [| bot rest IH]; simpl.
  - apply keeps_ret.
  - apply keeps_bind; [apply send_keeps | intros _; apply IH].
Qed.

Lemma sends_for_each_bot message bots w s :
  sends (st_trace (snd (for_each_bot send message bots w s)))
  = (sends (st_trace s) ++ map (fun bot => (ch, bot, message)) bots)%list.
Proof.
  revert s; induction bots as [| bot rest IH]; intros s; simpl.
  - rewrite app_nil_r; reflexivity.
  - destruct (run_safe (send message bot) w s (send_safe _ _))
      as (u & s1 & E).
    rewrite (bind_ok _ _ _ _ _ _ E), IH.
    pose proof (send_sends message bot w s) as H; rewrite E in H; simpl in H.
    rewrite H, <- app_assoc; reflexivity.
Qed.
End ForEachBot.

(** [send_all] always returns. *)
Lemma safe_send_all message : safe (send_all cfg message).
Proof.
  unfold send_all; apply safe_bind; [| intros _].
  - destruct (dingtalk_enable cfg); [| apply safe_ret].
    apply safe_for_each_bot, safe_send_dingtalk.
  - destruct (feishu_enable cfg); [| apply safe_ret].
    apply safe_for_each_bot, safe_send_feishu.
Qed.

(** It leaves the store alone. *)
Lemma keeps_store_send_all message : keeps_store (send_all cfg message).
Proof.
  unfold send_all; apply keeps_bind; [| intros _].
  - destruct (dingtalk_enable cfg); [| apply keeps_ret].
    apply keeps_store_for_each_bot, keeps_store_send_dingtalk.
  - destruct (feishu_enable cfg); [| apply keeps_ret].
    apply keeps_store_for_each_bot, keeps_store_send_feishu.
Qed.

(** It calls the sender of every bot of every enabled channel, in the
    order of the configuration, with the message it was given. *)
Lemma sends_send_all message w s :
  sends (st_trace (snd (send_all cfg message w s)))
  = (sends (st_trace s) ++ expected_sends cfg message)%list.
Proof.
  unfold send_all, expected_sends.
  match goal with
  | |- context [bind ?m ?k w s] =>
      assert (Hm : safe m);
      [| destruct (run_safe m w s Hm) as (u & s1 & E);
         rewrite (bind_ok _ _ _ _ _ _ E);
         assert (H1 : sends (st_trace s1)
                      = (sends (st_trace s)
                         ++ (if dingtalk_enable cfg
                             then map (fun bot => (DingTalk, bot, message))
                                      (dingtalk_bots cfg)
                             else []))%list) ]
  end.
  - destruct (dingtalk_enable cfg); [| apply safe_ret].
    apply safe_for_each_bot, safe_send_dingtalk.
  - destruct (dingtalk_enable cfg).
    + pose proof (sends_for_each_bot DingTalk _send_dingtalk
                    safe_send_dingtalk sends_send_dingtalk
                    message (dingtalk_bots cfg) w s) as H.
      rewrite E in H; exact H.
    + inversion E; subst; rewrite app_nil_r; reflexivity.
  - rewrite app_assoc, <- H1.
    destruct (feishu_enable cfg).
    + apply (sends_for_each_bot Feishu _send_feishu
               safe_send_feishu sends_send_feishu).
    + simpl; rewrite app_nil_r; reflexivity.
Qed.

(** ** The marker table *)

Lemma is_pushed_run w s id :
  w_db_fault w (st_sql s) = None ->
  is_pushed id w s
  = (Ok (has_key id (pushed_events (st_db s))),
     mkState (st_db s) (st_net s) (S (st_sql s)) (st_clock s) (st_sleep s)
             (st_trace s)).
Proof. intros H; unfold is_pushed, sql; rewrite H; reflexivity. Qed.

Lemma is_pushed_fault w s id text :
  w_db_fault w (st_sql s) = Some text ->
  is_pushed id w s
  = (Raised (mkExn OperationalError text),
     mkState (st_db s) (st_net s) (S (st_sql s)) (st_clock s) (st_sleep s)
             (st_trace s)).
Proof. intros H; unfold is_pushed, sql; rewrite H; reflexivity. Qed.

(** What [mark_pushed] leaves in the table. *)
Definition marked_table (id : string) (t : Z) (db : Database) : Database :=
  if has_key id (pushed_events db) then db
  else mkDatabase (pushed_events db ++ [(id, t)]) (repo_cache db)
                  (user_cache db).

Lemma mark_pushed_run w s id :
  w_db_fault w (st_sql s) = None ->
  mark_pushed id w s
  = (Ok tt,
     mkState (marked_table id (w_clock w (st_clock s)) (st_db s))
             (st_net s) (S (st_sql s)) (S (st_clock s)) (st_sleep s)
             (st_trace s)).
Proof.
  intros H; unfold mark_pushed, try_except_class, bind, now, sql; simpl.
  rewrite H; unfold insert_pushed, marked_table.
  destruct (has_key id (pushed_events (st_db s))); reflexivity.
Qed.

Lemma mark_pushed_fault w s id text :
  w_db_fault w (st_sql s) = Some text ->
  mark_pushed id w s
  = (Raised (mkExn OperationalError text),
     mkState (st_db s) (st_net s) (S (st_sql s)) (S (st_clock s)) (st_sleep s)
             (st_trace s)).
Proof.
  intros H; unfold mark_pushed, try_except_class, bind, now, sql; simpl.
  rewrite H; reflexivity.
Qed.

Lemma has_key_app {V : Type} k (a b : list (string * V)) :
  has_key k (a ++ b) = has_key k a || has_key k b.
Proof. unfold has_key; apply existsb_app. Qed.

Lemma rows_with_app {V : Type} k (a b : list (string * V)) :
  rows_with k (a ++ b) = (rows_with k a + rows_with k b)%nat.
Proof. unfold rows_with; rewrite filter_app, length_app; reflexivity. Qed.

Lemma rows_with_single {V : Type} k (v : V) : rows_with k [(k, v)] = 1%nat.
Proof. unfold rows_with; simpl; rewrite String.eqb_refl; reflexivity. Qed.

Lemma rows_with_absent {V : Type} k (t : list (string * V)) :
  has_key k t = false -> rows_with k t = 0%nat.
Proof.
  unfold has_key, rows_with; induction t as [| r t IH]; simpl; [reflexivity |].
  destruct (String.eqb (fst r) k); simpl; [discriminate | exact IH].
Qed.

Lemma rows_with_present {V : Type} k (t : list (string * V)) :
  has_key k t = true -> (1 <= rows_with k t)%nat.
Proof.
  unfold has_key, rows_with; induction t as [| r t IH]; simpl; [discriminate |].
  destruct (String.eqb (fst r) k); simpl; [lia | exact IH].
Qed.

(** ** One event *)

Lemma process_event_no_id w s ev :
  ev_id ev = None ->
  process_event cfg strptime_strftime ev w s
  = (Raised (mkExn KeyError "'id'"), s).
Proof. intros H; unfold process_event; rewrite H; reflexivity. Qed.

Lemma process_event_seen w s ev id :
  w_db_fault w (st_sql s) = None ->
  ev_id ev = Some id ->
  has_key id (pushed_events (st_db s)) = true ->
  process_event cfg strptime_strftime ev w s
  = (Ok false,
     mkState (st_db s) (st_net s) (S (st_sql s)) (st_clock s) (st_sleep s)
             (st_trace s)).
Proof.
  intros Hw Hid Hk; unfold process_event; rewrite Hid; simpl.
  unfold bind at 1; simpl.
  rewrite (bind_ok _ _ _ _ _ _ (is_pushed_run w s id Hw)), Hk; reflexivity.
Qed.

(** An event not yet marked is formatted and handed to [send_all], which
    calls every sender; what is left to do then is to mark it. *)
Lemma process_event_dispatch w s ev id :
  w_db_fault w (st_sql s) = None ->
  ev_id ev = Some id ->
  has_key id (pushed_events (st_db s)) = false ->
  exists msg s4,
    process_event cfg strptime_strftime ev w s
    = (mark_pushed id ;; sleep 500 ;; ret true) w s4
    /\ pushed_events (st_db s4) = pushed_events (st_db s)
    /\ dispatched (st_trace s4) = (dispatched (st_trace s) ++ [id])%list
    /\ sends (st_trace s4)
       = (sends (st_trace s) ++ expected_sends cfg msg)%list
    /\ In (EvSendAll id msg) (st_trace s4).
Proof.
  intros Hw Hid Hk; unfold process_event; rewrite Hid; simpl.
  unfold bind at 1; simpl.
  rewrite (bind_ok _ _ _ _ _ _ (is_pushed_run w s id Hw)), Hk.
  set (s1 := mkState _ _ _ _ _ _).
  destruct (run_safe _ w s1 (safe_format_message ev)) as (msg & s2 & E2).
  pose proof (keeps_marks_format_message ev w s1) as K2.
  rewrite E2 in K2; apply view_marks in K2; simpl in K2.
  destruct K2 as (P2 & D2 & S2).
  rewrite (bind_ok _ _ _ _ _ _ E2).
  unfold bind at 1, emit at 1.
  set (s3 := mkState _ _ _ _ _ (st_trace s2 ++ [EvSendAll id msg])).
  destruct (run_safe _ w s3 (safe_send_all msg)) as (u & s4 & E4).
  pose proof (keeps_store_send_all msg w s3) as K4.
  rewrite E4 in K4.
  assert (T4 : In (EvSendAll id msg) (st_trace s4)).
  { pose proof K4 as K; unfold view in K; simpl in K; injection K as _ F.
    assert (I : In (EvSendAll id msg)
                   (filter is_send_all (st_trace s2 ++ [EvSendAll id msg]))).
    { rewrite filter_app; apply in_or_app; right; simpl; auto. }
    rewrite <- F in I; apply filter_In in I; apply I. }
  apply view_store in K4; simpl in K4; destruct K4 as (P4 & D4).
  pose proof (sends_send_all msg w s3) as S4; rewrite E4 in S4; simpl in S4.
  rewrite (bind_ok _ _ _ _ _ _ E4).
  rewrite dispatched_app, D2 in D4; simpl in D4.
  rewrite sends_app, S2 in S4; simpl in S4; rewrite app_nil_r in S4.
  exists msg, s4; repeat split; auto.
  rewrite P4; exact P2.
Qed.

(** With the store answering, the event is marked; only the operator can
    keep the loop from going on after that. *)
Lemma process_event_fresh w s ev id :
  db_healthy w ->
  ev_id ev = Some id ->
  has_key id (pushed_events (st_db s)) = false ->
  exists msg t r s',
    process_event cfg strptime_strftime ev w s = (r, s')
    /\ (r = Ok true \/ r = Interrupted)
    /\ pushed_events (st_db s') = (pushed_events (st_db s) ++ [(id, t)])%list
    /\ dispatched (st_trace s') = (dispatched (st_trace s) ++ [id])%list
    /\ sends (st_trace s')
       = (sends (st_trace s) ++ expected_sends cfg msg)%list
    /\ In (EvSendAll id msg) (st_trace s').
Proof.
  intros Hw Hid Hk.
  destruct (process_event_dispatch w s ev id (Hw _) Hid Hk)
    as (msg & s4 & E & P4 & D4 & S4 & T4).
  rewrite E, (bind_ok _ _ _ _ _ _ (mark_pushed_run w s4 id (Hw _))).
  unfold marked_table; rewrite P4, Hk.
  exists msg, (w_clock w (st_clock s4)).
  unfold bind, sleep; simpl.
  destruct (w_interrupt w (st_sleep s4)); simpl;
    eexists; eexists; (split; [reflexivity |]); simpl;
    (split; [auto |]);
    rewrite dispatched_app, sends_app, D4, S4; simpl; rewrite !app_nil_r;
    repeat split; try reflexivity; apply in_or_app; left; exact T4.
Qed.

(** Whether or not the store takes the marker, the dispatch was made. *)
Lemma process_event_dispatched w s ev id :
  w_db_fault w (st_sql s) = None ->
  ev_id ev = Some id ->
  has_key id (pushed_events (st_db s)) = false ->
  exists msg,
    In (EvSendAll id msg)
       (st_trace (snd (process_event cfg strptime_strftime ev w s)))
    /\ sends (st_trace (snd (process_event cfg strptime_strftime ev w s)))
       = (sends (st_trace s) ++ expected_sends cfg msg)%list.
Proof.
  intros Hw Hid Hk.
  destruct (process_event_dispatch w s ev id Hw Hid Hk)
    as (msg & s4 & E & P4 & D4 & S4 & T4).
  exists msg; rewrite E.
  destruct (w_db_fault w (st_sql s4)) as [text |] eqn:F.
  - rewrite (bind_raised _ _ _ _ _ _ (mark_pushed_fault w s4 id text F)).
    simpl; auto.
  - rewrite (bind_ok _ _ _ _ _ _ (mark_pushed_run w s4 id F)).
    unfold bind, sleep; simpl.
    destruct (w_interrupt w (st_sleep s4)); simpl;
      rewrite sends_app, S4; simpl; rewrite app_nil_r;
      (split; [apply in_or_app; left; exact T4 | reflexivity]).
Qed.

(** ** The invariant of the loop

    No identifier was handed to [send_all] twice, and every one that was
    is in the marker table. *)

Definition consistent (s : state) : Prop :=
  NoDup (dispatched (st_trace s))
  /\ forall id, In id (dispatched (st_trace s)) ->
                has_key id (pushed_events (st_db s)) = true.

Definition preserves {A : Type} (m : M A) : Prop :=
  forall w s, db_healthy w -> consistent s -> consistent (snd (m w s)).

Lemma consistent_same s s' :
  pushed_events (st_db s') = pushed_events (st_db s) ->
  dispatched (st_trace s') = dispatched (st_trace s) ->
  consistent s -> consistent s'.
Proof. unfold consistent; intros -> ->; auto. Qed.

Lemma preserves_keeps {A : Type} (m : M A) : keeps_marks m -> preserves m.
Proof.
  intros K w s _ C; specialize (K w s); apply view_marks in K.
  destruct K as (P & D & _); eapply consistent_same; eauto.
Qed.

Lemma preserves_bind {A B : Type} (m : M A) (k : A -> M B) :
  preserves m -> (forall a, preserves (k a)) -> preserves (bind m k).
Proof.
  intros Hm Hk w s Hw C; unfold bind.
  specialize (Hm w s Hw C).
  destruct (m w s) as [[a | e |] s']; simpl in *; auto.
  apply Hk; assumption.
Qed.

Lemma preserves_try_except {A : Type} (body : M A) handler :
  preserves body -> (forall e, preserves (handler e)) ->
  preserves (try_except body handler).
Proof.
  intros Hb Hh w s Hw C; unfold try_except.
  specialize (Hb w s Hw C).
  destruct (body w s) as [[a | e |] s']; simpl in *; auto.
  apply Hh; assumption.
Qed.

Lemma preserves_process_event ev :
  preserves (process_event cfg strptime_strftime ev).
Proof.
  intros w s Hw C.
  destruct (ev_id ev) as [id |] eqn:Hid.
  - destruct (has_key id (pushed_events (st_db s))) eqn:Hk.
    + rewrite (process_event_seen w s ev id (Hw _) Hid Hk); exact C.
    + destruct (process_event_fresh w s ev id Hw Hid Hk)
        as (msg & t & r & s' & E & _ & P & D & _).
      rewrite E; simpl; destruct C as [N I]; split.
      * rewrite D; apply NoDup_app; repeat split; auto.
        -- constructor; [intros [] | constructor].
        -- intros x Hx [<- | []]. apply I in Hx; congruence.
      * intros x; rewrite D, P, has_key_app; intros Hx.
        apply in_app_or in Hx; destruct Hx as [Hx | [<- | []]].
        -- rewrite (I x Hx); reflexivity.
        -- unfold has_key at 2; simpl; rewrite String.eqb_refl.
           apply orb_true_r.
  - rewrite (process_event_no_id w s ev Hid); exact C.
Qed.

Lemma preserves_process_events events :
  forall n, preserves (process_events cfg strptime_strftime events n).
Proof.
  induction events as [| ev rest IH]; intros n; simpl.
  - apply preserves_keeps, keeps_ret.
  - apply preserves_bind; [apply preserves_process_event | intros; apply IH].
Qed.

Lemma preserves_poll : preserves (poll cfg strptime_strftime).
Proof.
  unfold poll, log.
  apply preserves_bind; [apply preserves_keeps; keeps_tac | intros resp].
  apply preserves_bind; [apply preserves_keeps; keeps_tac | intros events].
  apply preserves_bind; [apply preserves_process_events | intros n].
  apply preserves_keeps; keeps_tac.
Qed.

Lemma preserves_cycle : preserves (cycle cfg strptime_strftime).
Proof.
  unfold cycle, log; apply preserves_try_except; [apply preserves_poll |].
  intros e; apply preserves_keeps; keeps_tac.
Qed.

Lemma preserves_loop n : preserves (loop cfg strptime_strftime n).
Proof.
  induction n as [| n IH]; simpl.
  - apply preserves_keeps, keeps_ret.
  - apply preserves_bind; [apply preserves_cycle | intros; apply IH].
Qed.

Lemma consistent_monitor n w s :
  db_healthy w -> consistent s ->
  consistent (snd (monitor cfg strptime_strftime n w s)).
Proof.
  intros Hw C; unfold monitor.
  assert (P : preserves (log INFO "🚀 GitHub监控启动" ;;
                         loop cfg strptime_strftime n)).
  { apply preserves_bind; [apply preserves_keeps; unfold log; keeps_tac |].
    intros; apply preserves_loop. }
  specialize (P w s Hw C).
  destruct ((log INFO "🚀 GitHub监控启动" ;; loop cfg strptime_strftime n) w s)
    as [[u | e |] s']; simpl in *; auto.
  eapply consistent_same; [| | exact P]; simpl; [reflexivity |].
  rewrite dispatched_app; simpl; apply app_nil_r.
Qed.

(** ** The loop goes on

    Without an interrupt, every turn of the loop comes back. *)

Definition returns {A : Type} (m : M A) : Prop :=
  forall w s, never_interrupted w -> fst (m w s) <> Interrupted.

Lemma returns_uninterrupted {A : Type} (m : M A) :
  uninterrupted m -> returns m.
Proof. intros H w s _; apply H. Qed.

Lemma returns_bind {A B : Type} (m : M A) (k : A -> M B) :
  returns m -> (forall a, returns (k a)) -> returns (bind m k).
Proof.
  intros Hm Hk w s Hw; unfold bind.
  specialize (Hm w s Hw).
  destruct (m w s) as [[a | e |] s']; simpl in *; try discriminate.
  - apply Hk, Hw.
  - congruence.
Qed.

Lemma returns_sleep ms : returns (sleep ms).
Proof.
  intros w s Hw; unfold sleep.
  destruct (ms <? 0); [discriminate |].
  rewrite Hw; discriminate.
Qed.

Lemma returns_process_event ev :
  returns (process_event cfg strptime_strftime ev).
Proof.
  unfold process_event.
  apply returns_bind; [apply returns_uninterrupted; uninterrupted_tac | intros id].
  apply returns_bind;
    [apply returns_uninterrupted; unfold is_pushed; uninterrupted_tac |].
  intros [|]; [apply returns_uninterrupted; uninterrupted_tac |].
  apply returns_bind;
    [apply returns_uninterrupted, safe_uninterrupted, safe_format_message |].
  intros msg.
  apply returns_bind; [apply returns_uninterrupted; uninterrupted_tac | intros _].
  apply returns_bind;
    [apply returns_uninterrupted, safe_uninterrupted, safe_send_all | intros _].
  apply returns_bind;
    [apply returns_uninterrupted, uninterrupted_mark_pushed | intros _].
  apply returns_bind; [apply returns_sleep | intros _].
  apply returns_uninterrupted; uninterrupted_tac.
Qed.

Lemma returns_process_events events :
  forall n, returns (process_events cfg strptime_strftime events n).
Proof.
  induction events as [| ev rest IH]; intros n; simpl.
  - apply returns_uninterrupted; uninterrupted_tac.
  - apply returns_bind; [apply returns_process_event | intros; apply IH].
Qed.

Lemma returns_poll : returns (poll cfg strptime_strftime).
Proof.
  unfold poll, log.
  apply returns_bind; [apply returns_uninterrupted; uninterrupted_tac | intros resp].
  apply returns_bind; [apply returns_uninterrupted; uninterrupted_tac | intros evs].
  apply returns_bind; [apply returns_process_events | intros n].
  apply returns_bind; [apply returns_uninterrupted; uninterrupted_tac | intros _].
  apply returns_sleep.
Qed.

(** Whatever [poll] raises, the handlers of [cycle] take it. *)
Lemma cycle_never_raises w s e :
  fst (cycle cfg strptime_strftime w s) <> Raised e.
Proof.
  unfold cycle, try_except.
  destruct (poll cfg strptime_strftime w s) as [[u | e' |] s'];
    simpl; try discriminate.
  destruct (exn_class_eqb _ _); unfold bind, log, emit, sleep, backoff_ms;
    simpl; destruct (w_interrupt w _); discriminate.
Qed.

Lemma returns_cycle : returns (cycle cfg strptime_strftime).
Proof.
  intros w s Hw; unfold cycle, try_except.
  pose proof (returns_poll w s Hw) as P.
  destruct (poll cfg strptime_strftime w s) as [[u | e' |] s'];
    simpl in *; try discriminate; [| congruence].
  destruct (exn_class_eqb _ _); unfold bind, log, emit, sleep, backoff_ms;
    simpl; rewrite Hw; discriminate.
Qed.

Lemma loop_never_raises n : forall w s e,
  fst (loop cfg strptime_strftime n w s) <> Raised e.
Proof.
  induction n as [| n IH]; intros w s e; simpl; [discriminate |].
  unfold bind.
  pose proof (cycle_never_raises w s) as C.
  destruct (cycle cfg strptime_strftime w s) as [[u | e' |] s']; simpl in *.
  - apply IH.
  - exfalso; eapply C; reflexivity.
  - discriminate.
Qed.

Lemma returns_loop n : returns (loop cfg strptime_strftime n).
Proof.
  induction n as [| n IH]; simpl.
  - apply returns_uninterrupted; uninterrupted_tac.
  - apply returns_bind; [apply returns_cycle | intros; apply IH].
Qed.

(** ** A delivery that fails *)

Lemma failed_not_200 status :
  negb ((200 <=? status) && (status <=? 299)) = true ->
  (status =? 200) = false.
Proof.
  intros H; destruct (status =? 200) eqn:E; [| reflexivity].
  apply Z.eqb_eq in E; subst; discriminate.
Qed.

Lemma send_dingtalk_failure_logged message bot w s url :
  bot_webhook bot = Some url ->
  Spec.delivery_failed (w_post w (st_net s)) = true ->
  exists url' body detail,
    fst (_send_dingtalk message bot w s) = Ok tt
    /\ st_trace (snd (_send_dingtalk message bot w s))
       = (st_trace s
          ++ [EvSend DingTalk bot message; EvPost url' body;
              EvLog ERROR ("钉钉发送失败到 " ++ bot_label bot ++ ": " ++ detail)])%list.
Proof.
  intros Hu Hx; unfold Spec.delivery_failed in Hx.
  unfold _send_dingtalk, try_except, bind, emit, subscript, exchange, log, emit,
    now, ret; rewrite Hu.
  destruct (truthy (bot_secret bot)); cbn [fst snd st_net st_trace st_db].
  - destruct (w_post w (st_net s)) as [e | status resp]; cbn [fst snd st_trace].
    + do 3 eexists; split; [reflexivity |].
      rewrite <- !app_assoc; reflexivity.
    + rewrite (failed_not_200 status Hx); cbn [negb fst snd st_trace].
      do 3 eexists; split; [reflexivity |].
      rewrite <- !app_assoc; reflexivity.
  - destruct (w_post w (st_net s)) as [e | status resp]; cbn [fst snd st_trace].
    + do 3 eexists; split; [reflexivity |].
      rewrite <- !app_assoc; reflexivity.
    + rewrite (failed_not_200 status Hx); cbn [negb fst snd st_trace].
      do 3 eexists; split; [reflexivity |].
      rewrite <- !app_assoc; reflexivity.
Qed.

Lemma send_feishu_failure_logged message bot w s url :
  bot_webhook bot = Some url ->
  truthy (bot_secret bot) = false \/ (exists p, w_urlparse w url = inr p) ->
  Spec.delivery_failed (w_post w (st_net s)) = true ->
  exists url' body text,
    fst (_send_feishu message bot w s) = Ok tt
    /\ st_trace (snd (_send_feishu message bot w s))
       = (st_trace s
          ++ [EvSend Feishu bot message; EvPost url' body; EvLog ERROR text])%list.
Proof.
  intros Hu Hp Hx; unfold Spec.delivery_failed in Hx.
  unfold _send_feishu, sign_feishu_url, urlparse, urlunparse, library,
    try_except, bind, emit, subscript, exchange, log, emit, now, ret;
    rewrite Hu.
  destruct (truthy (bot_secret bot)) eqn:T; cbn [fst snd st_net st_trace st_db].
  - destruct Hp as [Hp | [p Hp]]; [discriminate Hp |].
    rewrite Hp; cbn [fst snd st_net st_trace st_db].
    destruct (w_post w (st_net s)) as [e | status resp]; cbn [fst snd st_trace].
    + do 3 eexists; split; [reflexivity |].
      rewrite <- !app_assoc; reflexivity.
    + rewrite (failed_not_200 status Hx); cbn [negb fst snd st_trace].
      do 3 eexists; split; [reflexivity |].
      rewrite <- !app_assoc; reflexivity.
  - destruct (w_post w (st_net s)) as [e | status resp]; cbn [fst snd st_trace].
    + do 3 eexists; split; [reflexivity |].
      rewrite <- !app_assoc; reflexivity.
    + rewrite (failed_not_200 status Hx); cbn [negb fst snd st_trace].
      do 3 eexists; split; [reflexivity |].
      rewrite <- !app_assoc; reflexivity.
Qed.

(** When [urlparse] raises on the webhook URL of a bot with a secret, the
    sender logs that and makes no request. *)
Lemma send_feishu_unparsed message bot w s url e :
  bot_webhook bot = Some url ->
  truthy (bot_secret bot) = true ->
  w_urlparse w url = inl e ->
  _send_feishu message bot w s
  = (Ok tt,
     mkState (st_db s) (st_net s) (st_sql s) (S (st_clock s)) (st_sleep s)
             (st_trace s
              ++ [EvSend Feishu bot message;
                  EvLog ERROR ("飞书发送异常到 " ++ bot_label bot ++ ": "
                               ++ exn_text e)])).
Proof.
  intros Hu T Hp.
  unfold _send_feishu, sign_feishu_url, urlparse, urlunparse, library,
    try_except, bind, emit, subscript, exchange, log, emit, now, ret;
    rewrite Hu, T; cbn [fst snd st_net st_trace st_db st_clock].
  rewrite Hp; cbn [fst snd st_net st_trace st_db st_clock st_sql st_sleep].
  rewrite <- app_assoc; reflexivity.
Qed.

(** ** The request a sender makes *)

Lemma posts_app a b : posts (a ++ b) = (posts a ++ posts b)%list.
Proof. unfold posts; apply flat_map_app. Qed.

Lemma truthy_secret secret : secret <> "" -> truthy (Some secret) = true.
Proof. intros N; apply String.eqb_neq in N; simpl; rewrite N; reflexivity. Qed.

Lemma send_dingtalk_posts message bot w s url secret :
  bot_webhook bot = Some url ->
  bot_secret bot = Some secret ->
  secret <> "" ->
  posts (st_trace (snd (_send_dingtalk message bot w s)))
  = (posts (st_trace s)
     ++ [((url ++ "&timestamp=" ++ Str.of_Z (w_clock w (st_clock s))
               ++ "&sign="
               ++ _generate_dingtalk_sign secret
                    (Str.of_Z (w_clock w (st_clock s))))%string,
          Markdown "GitHub动态通知"
                   (Str.replace Str.nl (Str.nl ++ Str.nl) message))])%list.
Proof.
  intros Hu Hs N.
  unfold _send_dingtalk, try_except, bind, emit, subscript, exchange, log, emit,
    now, ret; rewrite Hu, Hs, (truthy_secret secret N).
  cbn [fst snd st_net st_trace st_db st_clock fmt].
  destruct (w_post w (st_net s)) as [e | status resp];
    cbn [fst snd st_trace];
    [| destruct (negb (status =? 200)); cbn [fst snd st_trace]];
    rewrite !posts_app; cbn [posts flat_map app];
    rewrite ?app_nil_r; reflexivity.
Qed.

Lemma send_feishu_posts message bot w s url secret p :
  bot_webhook bot = Some url ->
  bot_secret bot = Some secret ->
  secret <> "" ->
  w_urlparse w url = inr p ->
  posts (st_trace (snd (_send_feishu message bot w s)))
  = (posts (st_trace s)
     ++ [(w_urlunparse w
            (Url.replace_query p
               (feishu_query (Url.pr_query p) secret
                  (Str.of_Z (Z.quot (w_clock w (st_clock s)) 1000)))),
          Card "✨ GitHub动态通知" (_format_for_feishu message))])%list.
Proof.
  intros Hu Hs N Hp.
  unfold _send_feishu, sign_feishu_url, urlparse, urlunparse, library,
    try_except, bind, emit, subscript, exchange, log, emit, now, ret;
    rewrite Hu, Hs, (truthy_secret secret N).
  cbn [fst snd st_net st_trace st_db st_clock fmt]; rewrite Hp.
  cbn [fst snd st_net st_trace st_db st_clock fmt].
  destruct (w_post w (st_net s)) as [e | status resp];
    cbn [fst snd st_trace];
    [| destruct (negb (status =? 200)); cbn [fst snd st_trace]];
    rewrite !posts_app; cbn [posts flat_map app];
    rewrite ?app_nil_r; reflexivity.
Qed.

(** ** The loop's handlers *)

(** What [cycle] does with an exception of [poll]. *)
Definition backoff_log (e : exn) : string :=
  (if exn_class_eqb (exn_kind e) RequestException
   then "网络请求异常: " else "处理异常: ") ++ exn_text e.

Lemma cycle_backoff w s e s1 :
  poll cfg strptime_strftime w s = (Raised e, s1) ->
  cycle cfg strptime_strftime w s
  = (if w_interrupt w (st_sleep s1) then Interrupted else Ok tt,
     mkState (st_db s1) (st_net s1) (st_sql s1) (st_clock s1) (S (st_sleep s1))
             (st_trace s1 ++ [EvLog ERROR (backoff_log e); EvSleep backoff_ms])).
Proof.
  intros E; unfold cycle, try_except, backoff_log; rewrite E.
  destruct (exn_class_eqb _ _); unfold bind, log, emit, sleep, backoff_ms;
    simpl; rewrite <- app_assoc; simpl;
    destruct (w_interrupt w (st_sleep s1)); reflexivity.
Qed.

Lemma poll_offline w s e :
  w_feed w (st_net s) = HttpRaises e ->
  poll cfg strptime_strftime w s
  = (Raised e,
     mkState (st_db s) (S (st_net s)) (st_sql s) (st_clock s) (st_sleep s)
             (st_trace s ++ [EvGet (feed_url cfg)])).
Proof. intros H; unfold poll, bind, exchange; rewrite H; reflexivity. Qed.

Lemma poll_store_fault w s status ev rest id text :
  w_feed w (st_net s) = HttpResponse status (Decoded (ev :: rest)) ->
  ev_id ev = Some id ->
  w_db_fault w (st_sql s) = Some text ->
  poll cfg strptime_strftime w s
  = (Raised (mkExn OperationalError text),
     mkState (st_db s) (S (st_net s)) (S (st_sql s)) (st_clock s) (st_sleep s)
             (st_trace s ++ [EvGet (feed_url cfg)])).
Proof.
  intros Hfeed Hid Hf; unfold poll, bind at 1, exchange; rewrite Hfeed; simpl.
  unfold bind at 1; simpl; unfold bind at 1; simpl.
  unfold bind at 1, process_event; rewrite Hid; simpl.
  unfold bind at 1; simpl.
  unfold bind at 1, is_pushed, sql; simpl; rewrite Hf; reflexivity.
Qed.

Lemma monitor_polls n w s :
  never_interrupted w -> fst (monitor cfg strptime_strftime n w s) = Polling.
Proof.
  intros Hw; unfold monitor, bind, log, emit; simpl.
  pose proof (returns_loop n w) as R.
  pose proof (loop_never_raises n w) as N.
  match goal with
  | |- context [loop cfg strptime_strftime n w ?s1] =>
      specialize (R s1 Hw); specialize (N s1);
      destruct (loop cfg strptime_strftime n w s1) as [[u | e |] s']
  end; simpl in *.
  - reflexivity.
  - exfalso; eapply N; reflexivity.
  - congruence.
Qed.

Lemma monitor_never_crashes n w s e :
  fst (monitor cfg strptime_strftime n w s) <> Crashed e.
Proof.
  unfold monitor, bind, log, emit; simpl.
  pose proof (loop_never_raises n w) as N.
  match goal with
  | |- context [loop cfg strptime_strftime n w ?s1] =>
      specialize (N s1);
      destruct (loop cfg strptime_strftime n w s1) as [[u | e' |] s']
  end; simpl in *; try discriminate.
  exfalso; eapply N; reflexivity.
Qed.

(** ** A second pass over a page *)

Lemma rows_with_unique {V : Type} k (t : list (string * V)) :
  NoDup (map fst t) -> has_key k t = true -> rows_with k t = 1%nat.
Proof.
  unfold has_key, rows_with; induction t as [| [k' v] t IH]; simpl;
    [discriminate |].
  intros N H; inversion N as [| ? ? Hn N']; subst.
  destruct (String.eqb k' k) eqn:E; simpl.
  - apply String.eqb_eq in E; subst k'.
    f_equal.
    assert (A : has_key k t = false).
    { destruct (has_key k t) eqn:K; [| reflexivity].
      exfalso; apply Hn.
      unfold has_key in K; apply existsb_exists in K.
      destruct K as ([k2 v2] & I & Ek); simpl in Ek.
      apply String.eqb_eq in Ek; subst k2.
      apply (in_map fst) in I; exact I. }
    apply (rows_with_absent k t A).
  - apply IH; assumption.
Qed.

Lemma process_event_marks w s ev :
  db_healthy w ->
  forall k, has_key k (pushed_events (st_db s)) = true ->
            has_key k (pushed_events
                         (st_db (snd (process_event cfg strptime_strftime
                                        ev w s)))) = true.
Proof.
  intros Hw k Hk.
  destruct (ev_id ev) as [id |] eqn:Hid.
  - destruct (has_key id (pushed_events (st_db s))) eqn:Hs.
    + rewrite (process_event_seen w s ev id (Hw _) Hid Hs); exact Hk.
    + destruct (process_event_fresh w s ev id Hw Hid Hs)
        as (msg & t & r & s' & E & _ & P & _).
      rewrite E; simpl; rewrite P, has_key_app, Hk; reflexivity.
  - rewrite (process_event_no_id w s ev Hid); exact Hk.
Qed.

Lemma process_events_marks w events :
  db_healthy w ->
  forall n s k, has_key k (pushed_events (st_db s)) = true ->
                has_key k (pushed_events
                             (st_db (snd (process_events cfg strptime_strftime
                                            events n w s)))) = true.
Proof.
  intros Hw; induction events as [| ev rest IH]; intros n s k Hk; simpl;
    [exact Hk |].
  unfold bind.
  pose proof (process_event_marks w s ev Hw k Hk) as H.
  destruct (process_event cfg strptime_strftime ev w s) as [[b | e |] s'];
    simpl in *; auto.
Qed.

(** Every event of a page that was gone through is marked. *)
Definition all_marked (events : list event) (s : state) : Prop :=
  Forall (fun ev => exists id,
              ev_id ev = Some id
              /\ has_key id (pushed_events (st_db s)) = true) events.

Lemma process_events_all_marked w events :
  db_healthy w ->
  forall n s n1 s1,
    process_events cfg strptime_strftime events n w s = (Ok n1, s1) ->
    all_marked events s1.
Proof.
  intros Hw; induction events as [| ev rest IH]; intros n s n1 s1 E;
    [constructor |].
  simpl in E; unfold bind in E.
  destruct (process_event cfg strptime_strftime ev w s) as [[b | e |] s'] eqn:P;
    try discriminate.
  constructor; [| eapply IH; eassumption].
  destruct (ev_id ev) as [id |] eqn:Hid;
    [| rewrite (process_event_no_id w s ev Hid) in P; discriminate].
  exists id; split; [reflexivity |].
  assert (M : has_key id (pushed_events (st_db s')) = true).
  { destruct (has_key id (pushed_events (st_db s))) eqn:Hs.
    - rewrite (process_event_seen w s ev id (Hw _) Hid Hs) in P.
      inversion P; subst; exact Hs.
    - destruct (process_event_fresh w s ev id Hw Hid Hs)
        as (msg & t & r & s2 & E2 & _ & P2 & _).
      rewrite E2 in P; inversion P; subst.
      rewrite P2, has_key_app; unfold has_key at 2; simpl.
      rewrite String.eqb_refl; apply orb_true_r. }
  pose proof (process_events_marks w rest Hw
                (if b then n + 1 else n) s' id M) as H.
  rewrite E in H; exact H.
Qed.

(** A page whose events are all marked is gone through without a
    dispatch: only the seen checks are made. *)
Lemma process_events_all_seen w events :
  db_healthy w ->
  forall n s,
    all_marked events s ->
    process_events cfg strptime_strftime events n w s
    = (Ok n,
       mkState (st_db s) (st_net s) (st_sql s + List.length events)
               (st_clock s) (st_sleep s) (st_trace s)).
Proof.
  intros Hw; induction events as [| ev rest IH]; intros n s A; simpl.
  - rewrite Nat.add_0_r; destruct s; reflexivity.
  - inversion A as [| ? ? (id & Hid & Hk) A']; subst.
    rewrite (bind_ok _ _ _ _ _ _ (process_event_seen w s ev id (Hw _) Hid Hk)).
    rewrite IH by exact A'; simpl.
    rewrite Nat.add_succ_r; reflexivity.
Qed.

(** ** A page in two parts *)

Lemma process_events_app pre post :
  forall k w s,
    process_events cfg strptime_strftime (pre ++ post) k w s
    = (n <- process_events cfg strptime_strftime pre k ;;
       process_events cfg strptime_strftime post n) w s.
Proof.
  induction pre as [| ev pre IH]; intros k w s; simpl; [reflexivity |].
  unfold bind at 1 2 3.
  destruct (process_event cfg strptime_strftime ev w s) as [[b | e |] s'];
    [rewrite IH; reflexivity | reflexivity | reflexivity].
Qed.

(** A seen check that the store refuses ends the event there. *)
Lemma process_event_check_fault w s ev id text :
  ev_id ev = Some id ->
  w_db_fault w (st_sql s) = Some text ->
  process_event cfg strptime_strftime ev w s
  = (Raised (mkExn OperationalError text),
     mkState (st_db s) (st_net s) (S (st_sql s)) (st_clock s) (st_sleep s)
             (st_trace s)).
Proof.
  intros Hid Hf; unfold process_event; rewrite Hid; cbn [subscript].
  unfold bind at 1, ret.
  apply bind_raised, is_pushed_fault, Hf.
Qed.

(** The same in the middle of a page, seen from the loop. *)
Lemma poll_check_fault w s status pre ev rest id text n s1 :
  w_feed w (st_net s) = HttpResponse status (Decoded (pre ++ ev :: rest)%list) ->
  process_events cfg strptime_strftime pre 0 w
    (mkState (st_db s) (S (st_net s)) (st_sql s) (st_clock s) (st_sleep s)
             (st_trace s ++ [EvGet (feed_url cfg)]))
  = (Ok n, s1) ->
  ev_id ev = Some id ->
  w_db_fault w (st_sql s1) = Some text ->
  poll cfg strptime_strftime w s
  = (Raised (mkExn OperationalError text),
     mkState (st_db s1) (st_net s1) (S (st_sql s1)) (st_clock s1)
             (st_sleep s1) (st_trace s1)).
Proof.
  intros Hfeed P Hid Hf.
  unfold poll, bind at 1, exchange; rewrite Hfeed; cbn [snd json].
  unfold bind at 1, ret.
  apply bind_raised.
  rewrite process_events_app, (bind_ok _ _ _ _ _ _ P).
  cbn [process_events].
  apply bind_raised, (process_event_check_fault w s1 ev id text Hid Hf).
Qed.

End Properties.

(* ================================================================== *)
(** * The properties of the specification *)

(** ** Enrichment *)

(** C3: when the remote lookup of a repository's metadata fails (the
    request raises, the status is not 200, the body is malformed, storing
    raises), [_get_repo_details] does not raise: it returns the default
    (the text for no description, the empty language, zero stars); and
    whatever the lookups do, an event not yet seen is formatted and handed
    to [send_all], which calls the sender of every configured bot. *)
Theorem C3_repo_lookup_failure_degrades :
  forall (cfg : config) (strptime_strftime : string -> string + string),
    (forall w s repo_name,
        w_db_fault w (st_sql s) = None ->
        lookup repo_name (repo_cache (st_db s)) = None ->
        repo_lookup_fails w s = true ->
        fst (_get_repo_details repo_name w s) = Ok default_repo_info)
    /\
    (forall w s ev id,
        w_db_fault w (st_sql s) = None ->
        ev_id ev = Some id ->
        has_key id (pushed_events (st_db s)) = false ->
        exists msg,
          In (EvSendAll id msg)
             (st_trace (snd (process_event cfg strptime_strftime ev w s)))
          /\ sends (st_trace (snd (process_event cfg strptime_strftime ev w s)))
             = (sends (st_trace s) ++ expected_sends cfg msg)%list).
Proof.
  intros cfg tf; split.
  - intros w s name Hf Hl Hx.
    destruct (repo_details_failed w s name Hf Hl Hx) as (s' & E & _).
    rewrite E; reflexivity.
  - intros w s ev id; apply process_event_dispatched.
Qed.

Lemma C3_witness :
  fst (_get_repo_details "alice/repo" Sample.quiet Sample.start)
  = Ok default_repo_info
  /\ exists msg,
      In (EvSendAll "e1" msg)
         (st_trace (snd (process_event Sample.cfg Sample.strptime_strftime
                           Sample.star Sample.quiet Sample.start)))
      /\ sends (st_trace (snd (process_event Sample.cfg
                                 Sample.strptime_strftime
                                 Sample.star Sample.quiet Sample.start)))
         = (sends (st_trace Sample.start) ++ expected_sends Sample.cfg msg)%list.
Proof.
  destruct (C3_repo_lookup_failure_degrades Sample.cfg Sample.strptime_strftime)
    as [H1 H2].
  split.
  - apply H1; reflexivity.
  - apply H2; reflexivity.
Defined.






(** ** Formatting *)

(** C4: [format_message] never raises.  Whatever the event, it returns a
    message; when assembling the message raises [e] (and it does when the
    event has no [created_at]), the message is the fallback document,
    which says that formatting failed and carries the text of [e]; and
    [send_all] takes the fallback as it takes any message: it returns and
    calls every sender with it. *)
Theorem C4_format_message_never_raises :
  forall (cfg : config) (strptime_strftime : string -> string + string),
    (forall ev w s,
        exists msg, fst (format_message strptime_strftime ev w s) = Ok msg)
    /\
    (forall ev w s e s',
        assemble strptime_strftime ev w s = (Raised e, s') ->
        fst (format_message strptime_strftime ev w s) = Ok (fallback_message e))
    /\
    (forall ev w s,
        ev_created_at ev = None ->
        exists e,
          fst (format_message strptime_strftime ev w s)
          = Ok (fallback_message e))
    /\
    (forall e,
        Str.contains "消息格式化出错" (fallback_message e) = true
        /\ Str.contains (exn_text e) (fallback_message e) = true)
    /\
    (forall e w s,
        fst (send_all cfg (fallback_message e) w s) = Ok tt
        /\ sends (st_trace (snd (send_all cfg (fallback_message e) w s)))
           = (sends (st_trace s) ++ expected_sends cfg (fallback_message e))%list).
Proof.
  intros cfg tf; split; [| split; [| split; [| split]]].
  - intros ev w s; apply safe_format_message.
  - intros ev w s e s'; apply format_message_fallback.
  - intros ev w s H.
    pose proof (assemble_undated_fails tf ev H w s) as F.
    pose proof (uninterrupted_assemble tf ev w s) as U.
    destruct (assemble tf ev w s) as [[a | e |] s'] eqn:E; simpl in *.
    + exfalso; eapply F; reflexivity.
    + exists e; eapply format_message_fallback; eassumption.
    + congruence.
  - intros e; unfold fallback_message, Str.join_lines; cbn [String.concat].
    split.
    + do 2 apply contains_skip; apply contains_app_l; vm_compute; reflexivity.
    + do 6 apply contains_skip; apply contains_here, prefix_app.
  - intros e w s; split.
    + destruct (safe_send_all cfg (fallback_message e) w s) as [[] H]; exact H.
    + apply sends_send_all.
Qed.

Lemma C4_witness :
  assemble Sample.strptime_strftime Sample.undated Sample.quiet Sample.start
  = (Raised (mkExn KeyError "'created_at'"),
     snd (assemble Sample.strptime_strftime Sample.undated Sample.quiet
            Sample.start))
  /\ fst (format_message Sample.strptime_strftime Sample.undated Sample.quiet
            Sample.start)
     = Ok (fallback_message (mkExn KeyError "'created_at'")).
Proof.
  split; [reflexivity |].
  destruct (C4_format_message_never_raises Sample.cfg Sample.strptime_strftime)
    as (_ & H & _).
  apply (H Sample.undated Sample.quiet Sample.start
           (mkExn KeyError "'created_at'")
           (snd (assemble Sample.strptime_strftime Sample.undated Sample.quiet
                   Sample.start))).
  reflexivity.
Defined.

(** ** Dispatch *)

(** C7, the claim as stated fails: the first webhook answers with a server
    error and the second is still called, but the store refuses the marker,
    and the event is left without one. *)
Lemma C7_counterexample :
  Spec.delivery_failed (w_post Sample.jammed 2) = true
  /\ map (fun c => fst (fst c))
         (sends (st_trace (snd (process_event Sample.cfg
                                  Sample.strptime_strftime Sample.star
                                  Sample.jammed Sample.start))))
     = [DingTalk; Feishu]
  /\ rows_with "e1"
       (pushed_events
          (st_db (snd (process_event Sample.cfg Sample.strptime_strftime
                         Sample.star Sample.jammed Sample.start))))
     = 0%nat.
Proof.
  split; [reflexivity | split; vm_compute; reflexivity].
Qed.

(** C7, amended: dispatch never raises.  [send_all] always returns, and it
    calls the sender of every bot of every enabled channel with the
    message, whatever happened to the deliveries before; a delivery that
    fails (the request raises, or the response is not 2xx) is caught by its
    sender, which logs an error naming the bot and returns; so is the
    exception that [urlparse] raises on the webhook URL of a Feishu bot
    with a secret, before any request; and as long as the store answers,
    an event not yet seen has exactly one marker row after it was
    processed, however its deliveries went. *)
Theorem C7_channel_isolation :
  forall (cfg : config) (strptime_strftime : string -> string + string),
    (forall message w s,
        fst (send_all cfg message w s) = Ok tt
        /\ sends (st_trace (snd (send_all cfg message w s)))
           = (sends (st_trace s) ++ expected_sends cfg message)%list)
    /\
    (forall message bot w s url,
        bot_webhook bot = Some url ->
        Spec.delivery_failed (w_post w (st_net s)) = true ->
        exists url' body detail,
          fst (_send_dingtalk message bot w s) = Ok tt
          /\ st_trace (snd (_send_dingtalk message bot w s))
             = (st_trace s
                ++ [EvSend DingTalk bot message; EvPost url' body;
                    EvLog ERROR ("钉钉发送失败到 " ++ bot_label bot ++ ": "
                                 ++ detail)])%list)
    /\
    (forall message bot w s url,
        bot_webhook bot = Some url ->
        truthy (bot_secret bot) = false
        \/ (exists p, w_urlparse w url = inr p) ->
        Spec.delivery_failed (w_post w (st_net s)) = true ->
        exists url' body text,
          fst (_send_feishu message bot w s) = Ok tt
          /\ st_trace (snd (_send_feishu message bot w s))
             = (st_trace s
                ++ [EvSend Feishu bot message; EvPost url' body;
                    EvLog ERROR text])%list)
    /\
    (forall message bot w s url e,
        bot_webhook bot = Some url ->
        truthy (bot_secret bot) = true ->
        w_urlparse w url = inl e ->
        fst (_send_feishu message bot w s) = Ok tt
        /\ st_trace (snd (_send_feishu message bot w s))
           = (st_trace s
              ++ [EvSend Feishu bot message;
                  EvLog ERROR ("飞书发送异常到 " ++ bot_label bot ++ ": "
                               ++ exn_text e)])%list)
    /\
    (forall w s ev id,
        db_healthy w ->
        ev_id ev = Some id ->
        has_key id (pushed_events (st_db s)) = false ->
        exists msg,
          sends (st_trace (snd (process_event cfg strptime_strftime ev w s)))
          = (sends (st_trace s) ++ expected_sends cfg msg)%list
          /\ rows_with id
               (pushed_events
                  (st_db (snd (process_event cfg strptime_strftime ev w s))))
             = 1%nat).
Proof.
  intros cfg tf; split; [| split; [| split; [| split]]].
  - intros message w s; split.
    + destruct (safe_send_all cfg message w s) as [[] H]; exact H.
    + apply sends_send_all.
  - intros message bot w s url; apply send_dingtalk_failure_logged.
  - intros message bot w s url; apply send_feishu_failure_logged.
  - intros message bot w s url e Hu T Hp.
    rewrite (send_feishu_unparsed message bot w s url e Hu T Hp).
    split; reflexivity.
  - intros w s ev id Hw Hid Hk.
    destruct (process_event_fresh cfg tf w s ev id Hw Hid Hk)
      as (msg & t & r & s' & E & _ & P & _ & S & _).
    exists msg; rewrite E; simpl; split; [exact S |].
    rewrite P, rows_with_app, (rows_with_absent id _ Hk), rows_with_single.
    reflexivity.
Qed.

Lemma C7_witness :
  db_healthy Sample.failing_webhook
  /\ Spec.delivery_failed (w_post Sample.failing_webhook 2) = true
  /\ exists msg,
      sends (st_trace (snd (process_event Sample.cfg Sample.strptime_strftime
                              Sample.star Sample.failing_webhook Sample.start)))
      = (sends (st_trace Sample.start) ++ expected_sends Sample.cfg msg)%list
      /\ rows_with "e1"
           (pushed_events
              (st_db (snd (process_event Sample.cfg Sample.strptime_strftime
                             Sample.star Sample.failing_webhook Sample.start))))
         = 1%nat.
Proof.
  split; [intros n; reflexivity | split; [reflexivity |]].
  destruct (C7_channel_isolation Sample.cfg Sample.strptime_strftime)
    as (_ & _ & _ & _ & H).
  apply H; [intros n; reflexivity | reflexivity | reflexivity].
Defined.

(** ** The poll loop *)

(** C8, the claim as stated fails: the backoff is sixty seconds whatever
    the configuration, so with a poll interval of five minutes the sleep
    after a failed fetch is shorter than the sleep after a successful
    turn. *)
Lemma C8_counterexample :
  github_poll_interval Sample.cfg = 300
  /\ st_trace (snd (cycle Sample.cfg Sample.strptime_strftime
                      Sample.offline Sample.start))
     = [EvGet (feed_url Sample.cfg);
        EvLog ERROR "网络请求异常: Read timed out. (read timeout=5)";
        EvSleep 60000]
  /\ st_trace (snd (cycle Sample.cfg Sample.strptime_strftime
                      Sample.idle Sample.start))
     = [EvGet (feed_url Sample.cfg);
        EvLog INFO "本轮检查完成，发现0个新事件";
        EvSleep 300000]
  /\ 60000 < 300000.
Proof. vm_compute; repeat split; reflexivity. Qed.

(** C8, amended: when the feed request raises, and when anything else in
    a turn of the loop raises, the loop logs an error, sleeps the fixed
    backoff of sixty seconds, which is longer than the configured poll
    interval exactly when that is under sixty seconds, and goes back to
    fetching; [monitor] never leaves its loop with an exception, and
    without an interrupt it never leaves it at all. *)
Theorem C8_backoff_and_continue :
  forall (cfg : config) (strptime_strftime : string -> string + string),
    (forall w s e,
        w_feed w (st_net s) = HttpRaises e ->
        cycle cfg strptime_strftime w s
        = (if w_interrupt w (st_sleep s) then Interrupted else Ok tt,
           mkState (st_db s) (S (st_net s)) (st_sql s) (st_clock s)
                   (S (st_sleep s))
                   (st_trace s
                    ++ [EvGet (feed_url cfg); EvLog ERROR (backoff_log e);
                        EvSleep backoff_ms])))
    /\
    (forall w s e s1,
        poll cfg strptime_strftime w s = (Raised e, s1) ->
        cycle cfg strptime_strftime w s
        = (if w_interrupt w (st_sleep s1) then Interrupted else Ok tt,
           mkState (st_db s1) (st_net s1) (st_sql s1) (st_clock s1)
                   (S (st_sleep s1))
                   (st_trace s1
                    ++ [EvLog ERROR (backoff_log e); EvSleep backoff_ms])))
    /\
    (forall n w s e, fst (monitor cfg strptime_strftime n w s) <> Crashed e)
    /\
    (forall n w s,
        never_interrupted w ->
        fst (monitor cfg strptime_strftime n w s) = Polling)
    /\
    backoff_ms = 60 * 1000
    /\
    (backoff_ms > 1000 * github_poll_interval cfg
     <-> github_poll_interval cfg < 60).
Proof.
  intros cfg tf; split; [| split; [| split; [| split; [| split]]]].
  - intros w s e H.
    rewrite (cycle_backoff cfg tf w s e _ (poll_offline cfg tf w s e H)).
    simpl; rewrite <- app_assoc; reflexivity.
  - intros w s e s1; apply cycle_backoff.
  - intros n w s e; apply monitor_never_crashes.
  - intros n w s; apply monitor_polls.
  - reflexivity.
  - unfold backoff_ms; lia.
Qed.

Lemma C8_witness :
  w_feed Sample.offline (st_net Sample.start) = HttpRaises Sample.timeout
  /\ never_interrupted Sample.offline
  /\ fst (cycle Sample.cfg Sample.strptime_strftime Sample.offline Sample.start)
     = Ok tt
  /\ fst (monitor Sample.cfg Sample.strptime_strftime 5 Sample.offline
            Sample.start)
     = Polling.
Proof.
  destruct (C8_backoff_and_continue Sample.cfg Sample.strptime_strftime)
    as (H1 & _ & _ & H4 & _).
  split; [reflexivity | split; [intros n; reflexivity | split]].
  - rewrite (H1 Sample.offline Sample.start Sample.timeout eq_refl).
    reflexivity.
  - apply H4; intros n; reflexivity.
Defined.

(** C9, the claim as stated fails: the seen check of the first event finds
    the database locked, and [monitor] is still polling two turns later;
    the error went to the log, the loop slept and fetched the feed
    again. *)
Lemma C9_counterexample :
  w_db_fault Sample.locked_check 0 = Some "database is locked"
  /\ fst (monitor Sample.cfg Sample.strptime_strftime 2 Sample.locked_check
            Sample.start)
     = Polling
  /\ firstn 5 (st_trace (snd (monitor Sample.cfg Sample.strptime_strftime 2
                                Sample.locked_check Sample.start)))
     = [EvLog INFO "🚀 GitHub监控启动";
        EvGet (feed_url Sample.cfg);
        EvLog ERROR "处理异常: database is locked";
        EvSleep 60000;
        EvGet (feed_url Sample.cfg)].
Proof. vm_compute; repeat split; reflexivity. Qed.

(** C9, amended: a storage error in a seen check is not fatal.  Whichever
    event of the page it is that [is_pushed] fails on, the error leaves
    the pass over the page there, after the events before it have been
    processed; the generic handler of the loop catches it, logs it and
    sleeps the backoff of 60 seconds, and that is all the turn does: the
    rest of the page is left for a later turn.  [monitor] never ends with
    an exception, and without an interrupt it keeps polling whatever the
    store does. *)
Theorem C9_storage_error_not_fatal :
  forall (cfg : config) (strptime_strftime : string -> string + string),
    (forall w s status pre ev rest id text n s1,
        w_feed w (st_net s)
        = HttpResponse status (Decoded (pre ++ ev :: rest)%list) ->
        process_events cfg strptime_strftime pre 0 w
          (mkState (st_db s) (S (st_net s)) (st_sql s) (st_clock s)
                   (st_sleep s) (st_trace s ++ [EvGet (feed_url cfg)]))
        = (Ok n, s1) ->
        ev_id ev = Some id ->
        w_db_fault w (st_sql s1) = Some text ->
        cycle cfg strptime_strftime w s
        = (if w_interrupt w (st_sleep s1) then Interrupted else Ok tt,
           mkState (st_db s1) (st_net s1) (S (st_sql s1)) (st_clock s1)
                   (S (st_sleep s1))
                   (st_trace s1
                    ++ [EvLog ERROR ("处理异常: " ++ text);
                        EvSleep 60000])))
    /\
    (forall n w s e, fst (monitor cfg strptime_strftime n w s) <> Crashed e)
    /\
    (forall n w s,
        never_interrupted w ->
        fst (monitor cfg strptime_strftime n w s) = Polling).
Proof.
  intros cfg tf; split; [| split].
  - intros w s status pre ev rest id text n s1 Hfeed P Hid Hf.
    rewrite (cycle_backoff cfg tf w s _ _
               (poll_check_fault cfg tf w s status pre ev rest id text n s1
                  Hfeed P Hid Hf)).
    reflexivity.
  - intros n w s e; apply monitor_never_crashes.
  - intros n w s; apply monitor_polls.
Qed.

Lemma C9_witness :
  cycle Sample.cfg Sample.strptime_strftime Sample.locked_check Sample.start
  = (Ok tt,
     mkState Sample.empty_db 1 1 0 1
             [EvGet (feed_url Sample.cfg);
              EvLog ERROR "处理异常: database is locked";
              EvSleep 60000]).
Proof.
  destruct (C9_storage_error_not_fatal Sample.cfg Sample.strptime_strftime)
    as (H & _).
  apply (H Sample.locked_check Sample.start 200 [] Sample.star [] "e1"
           "database is locked" 0
           (mkState Sample.empty_db 1 0 0 0 [EvGet (feed_url Sample.cfg)]));
    reflexivity.
Defined.

(** ** Deduplication *)

(** C1, the claim as stated fails: the [INSERT] of the marker finds the
    database locked, the loop's handler takes the error, and the next turn
    dispatches the same event again. *)
Lemma C1_counterexample :
  dispatched (st_trace (snd (monitor Sample.cfg Sample.strptime_strftime 2
                               Sample.locked Sample.start)))
  = ["e1"; "e1"]
  /\ count_occ string_dec
       (dispatched (st_trace (snd (monitor Sample.cfg Sample.strptime_strftime 2
                                     Sample.locked Sample.start))))
       "e1"
     = 2%nat.
Proof. vm_compute; split; reflexivity. Qed.

(** C1, amended: as long as the store answers every statement, no event
    identifier is handed to [send_all] twice while [monitor] runs.  An
    event whose marker is there is skipped before anything is formatted or
    sent; one whose marker is not there is dispatched and then has exactly
    one marker row; marking twice returns twice, the second time without
    touching the table, and leaves exactly one row; and a second pass over
    a page that was gone through makes the seen checks and nothing else:
    no dispatch, no request, no new marker. *)
Theorem C1_dispatch_at_most_once :
  forall (cfg : config) (strptime_strftime : string -> string + string)
         (w : world),
    db_healthy w ->
    (forall n s,
        st_trace s = [] ->
        NoDup (dispatched
                 (st_trace (snd (monitor cfg strptime_strftime n w s)))))
    /\
    (forall s ev id,
        ev_id ev = Some id ->
        has_key id (pushed_events (st_db s)) = true ->
        process_event cfg strptime_strftime ev w s
        = (Ok false,
           mkState (st_db s) (st_net s) (S (st_sql s)) (st_clock s)
                   (st_sleep s) (st_trace s)))
    /\
    (forall s ev id,
        ev_id ev = Some id ->
        has_key id (pushed_events (st_db s)) = false ->
        dispatched (st_trace (snd (process_event cfg strptime_strftime ev w s)))
        = (dispatched (st_trace s) ++ [id])%list
        /\ rows_with id
             (pushed_events
                (st_db (snd (process_event cfg strptime_strftime ev w s))))
           = 1%nat)
    /\
    (forall s id,
        NoDup (map fst (pushed_events (st_db s))) ->
        fst ((mark_pushed id ;; mark_pushed id) w s) = Ok tt
        /\ rows_with id
             (pushed_events (st_db (snd ((mark_pushed id ;; mark_pushed id) w s))))
           = 1%nat
        /\ pushed_events (st_db (snd ((mark_pushed id ;; mark_pushed id) w s)))
           = pushed_events (st_db (snd (mark_pushed id w s))))
    /\
    (forall page s n1 s1,
        process_events cfg strptime_strftime page 0 w s = (Ok n1, s1) ->
        process_events cfg strptime_strftime page 0 w s1
        = (Ok 0,
           mkState (st_db s1) (st_net s1) (st_sql s1 + List.length page)
                   (st_clock s1) (st_sleep s1) (st_trace s1))).
Proof.
  intros cfg tf w Hw; split; [| split; [| split; [| split]]].
  - intros n s Hs.
    apply (consistent_monitor cfg tf n w s Hw).
    unfold consistent; rewrite Hs; simpl; split; [constructor | intros ? []].
  - intros s ev id; apply process_event_seen, Hw.
  - intros s ev id Hid Hk.
    destruct (process_event_fresh cfg tf w s ev id Hw Hid Hk)
      as (msg & t & r & s' & E & _ & P & D & _).
    rewrite E; simpl; split; [exact D |].
    rewrite P, rows_with_app, (rows_with_absent id _ Hk), rows_with_single.
    reflexivity.
  - intros s id N.
    rewrite (bind_ok _ _ _ _ _ _ (mark_pushed_run w s id (Hw _))).
    rewrite (mark_pushed_run w s id (Hw _)).
    rewrite mark_pushed_run by apply Hw; simpl.
    unfold marked_table.
    destruct (has_key id (pushed_events (st_db s))) eqn:K; simpl.
    + rewrite K; repeat split; apply rows_with_unique; assumption.
    + rewrite has_key_app, K; unfold has_key at 1; simpl.
      rewrite String.eqb_refl; simpl; repeat split.
      rewrite rows_with_app, (rows_with_absent id _ K), rows_with_single.
      reflexivity.
  - intros page s n1 s1 E.
    apply process_events_all_seen; [exact Hw |].
    eapply process_events_all_marked; eassumption.
Qed.

Lemma C1_witness :
  db_healthy Sample.quiet
  /\ NoDup (dispatched
              (st_trace (snd (monitor Sample.cfg Sample.strptime_strftime 3
                                Sample.quiet Sample.start)))).
Proof.
  assert (H : db_healthy Sample.quiet) by (intros n; reflexivity).
  split; [exact H |].
  apply (C1_dispatch_at_most_once Sample.cfg Sample.strptime_strftime
           Sample.quiet H).
  reflexivity.
Defined.

(** ** Signatures *)




(* ================================================================== *)
(** * Further properties of the code *)

(** ** Computations that maintain a property of the store *)

Section StoreInvariant.

Variable P : Database -> Prop.

Definition maintains {A : Type} (m : M A) : Prop :=
  forall w s, P (st_db s) -> P (st_db (snd (m w s))).

Lemma maintains_ret {A : Type} (a : A) : maintains (ret a).
Proof. intros w s H; exact H. Qed.

Lemma maintains_library {A : Type} (answer : world -> exn + A) :
  maintains (library answer).
Proof. intros w s H; unfold library; destruct (answer w); exact H. Qed.

Lemma maintains_raise {A : Type} (e : exn) : maintains (@raise A e).
Proof. intros w s H; exact H. Qed.

Lemma maintains_bind {A B : Type} (m : M A) (k : A -> M B) :
  maintains m -> (forall a, maintains (k a)) -> maintains (bind m k).
Proof.
  intros Hm Hk w s H; unfold bind; specialize (Hm w s H).
  destruct (m w s) as [[a | e |] s']; simpl in *; auto.
  apply Hk, Hm.
Qed.

Lemma maintains_try_except {A : Type} (body : M A) handler :
  maintains body -> (forall e, maintains (handler e)) ->
  maintains (try_except body handler).
Proof.
  intros Hb Hh w s H; unfold try_except; specialize (Hb w s H).
  destruct (body w s) as [[a | e |] s']; simpl in *; auto.
  apply Hh, Hb.
Qed.

Lemma maintains_try_except_class {A : Type} cls (body : M A) handler :
  maintains body -> (forall e, maintains (handler e)) ->
  maintains (try_except_class cls body handler).
Proof.
  intros Hb Hh w s H; unfold try_except_class; specialize (Hb w s H).
  destruct (body w s) as [[a | e |] s']; simpl in *; auto.
  destruct (exn_class_eqb _ _); simpl; auto.
  apply Hh, Hb.
Qed.

Lemma maintains_emit ev : maintains (emit ev).
Proof. intros w s H; exact H. Qed.

Lemma maintains_subscript {A : Type} key (o : option A) :
  maintains (subscript key o).
Proof. intros w s H; destruct o; exact H. Qed.

Lemma maintains_json {A : Type} (b : decoded A) : maintains (json b).
Proof. intros w s H; destruct b; exact H. Qed.

Lemma maintains_exchange {B : Type} (oracle : world -> nat -> http B) req :
  maintains (exchange oracle req).
Proof. intros w s H; unfold exchange; destruct (oracle w _); exact H. Qed.

Lemma maintains_now : maintains now.
Proof. intros w s H; exact H. Qed.

Lemma maintains_sleep ms : maintains (sleep ms).
Proof.
  intros w s H; unfold sleep.
  destruct (ms <? 0); [exact H |].
  destruct (w_interrupt w _); exact H.
Qed.

Lemma maintains_sql {A : Type} (stmt : Database -> exn + (A * Database)) :
  (forall db a db', P db -> stmt db = inr (a, db') -> P db') ->
  maintains (sql stmt).
Proof.
  intros Hs w s H; unfold sql.
  destruct (w_db_fault w _); [exact H |].
  destruct (stmt (st_db s)) as [e | [a db]] eqn:E; [exact H |].
  simpl; eapply Hs; eassumption.
Qed.

End StoreInvariant.

Ltac maintains_step :=
  lazymatch goal with
  | |- maintains _ (library _) => apply maintains_library
  | |- maintains _ (urlparse _) => apply maintains_library
  | |- maintains _ (urlunparse _) => apply maintains_library
  | |- maintains _ (sign_feishu_url _ _ _) => unfold sign_feishu_url
  | |- maintains _ (ret _) => apply maintains_ret
  | |- maintains _ (raise _) => apply maintains_raise
  | |- maintains _ (subscript _ _) => apply maintains_subscript
  | |- maintains _ (json _) => apply maintains_json
  | |- maintains _ now => apply maintains_now
  | |- maintains _ (emit _) => apply maintains_emit
  | |- maintains _ (log _ _) => apply maintains_emit
  | |- maintains _ (exchange _ _) => apply maintains_exchange
  | |- maintains _ (sleep _) => apply maintains_sleep
  | |- maintains _ (bind _ _) => apply maintains_bind; [| intros]
  | |- maintains _ (try_except _ _) => apply maintains_try_except; [| intros]
  | |- maintains _ (try_except_class _ _ _) =>
      apply maintains_try_except_class; [| intros]
  | |- maintains _ (if ?b then _ else _) => destruct b
  | |- maintains _ (match ?x with _ => _ end) => destruct x
  | |- maintains _ (let _ := _ in _) => cbv zeta
  end.

(** ** Primary keys *)

(** No table has two rows with the same key. *)
Definition keys_unique (db : Database) : Prop :=
  NoDup (map fst (pushed_events db))
  /\ NoDup (map fst (repo_cache db))
  /\ NoDup (map fst (user_cache db)).

Lemma in_keys_has_key {V : Type} k (t : list (string * V)) :
  In k (map fst t) -> has_key k t = true.
Proof.
  intros H; apply in_map_iff in H; destruct H as ([k' v] & E & I).
  simpl in E; subst k'; unfold has_key; apply existsb_exists.
  exists (k, v); split; [exact I | apply String.eqb_refl].
Qed.

Lemma keys_filter {V : Type} (f : string * V -> bool) t k :
  In k (map fst (filter f t)) -> In k (map fst t).
Proof.
  intros H; apply in_map_iff in H; destruct H as (r & E & I).
  apply filter_In in I; apply in_map_iff; exists r; tauto.
Qed.

Lemma NoDup_keys_filter {V : Type} (f : string * V -> bool) t :
  NoDup (map fst t) -> NoDup (map fst (filter f t)).
Proof.
  induction t as [| r t IH]; simpl; intros N; [constructor |].
  inversion N as [| ? ? Hn N']; subst.
  destruct (f r); simpl; [| apply IH, N'].
  constructor; [| apply IH, N'].
  intros I; apply Hn; eapply keys_filter; eassumption.
Qed.

Lemma NoDup_keys_upsert {V : Type} k (v : V) t :
  NoDup (map fst t) -> NoDup (map fst (upsert k v t)).
Proof.
  intros N; unfold upsert; rewrite map_app; simpl.
  apply NoDup_app; repeat split.
  - apply NoDup_keys_filter, N.
  - constructor; [intros [] | constructor].
  - intros x Hx [<- | []].
    apply in_map_iff in Hx; destruct Hx as ([k' v'] & E & I); simpl in E.
    subst k'; apply filter_In in I; destruct I as [_ I]; simpl in I.
    rewrite String.eqb_refl in I; discriminate.
Qed.

Lemma rows_with_upsert {V : Type} k (v : V) t :
  rows_with k (upsert k v t) = 1%nat.
Proof.
  unfold upsert; rewrite rows_with_app, rows_with_single.
  assert (H : rows_with k (filter (fun r => negb (String.eqb (fst r) k)) t)
              = 0%nat).
  { unfold rows_with; induction t as [| r t IH]; simpl; [reflexivity |].
    destruct (String.eqb (fst r) k) eqn:E; simpl; [exact IH |].
    rewrite E; exact IH. }
  rewrite H; reflexivity.
Qed.

Lemma lookup_upsert_other {V : Type} k k' (v : V) t :
  k' <> k -> lookup k' (upsert k v t) = lookup k' t.
Proof.
  intros N; unfold upsert; rewrite lookup_app; simpl.
  assert (E : String.eqb k k' = false)
    by (apply String.eqb_neq; congruence).
  rewrite E.
  assert (H : lookup k' (filter (fun r => negb (String.eqb (fst r) k)) t)
              = lookup k' t).
  { induction t as [| [k2 v2] t IH]; simpl; [reflexivity |].
    destruct (String.eqb k2 k) eqn:E2; simpl.
    - apply String.eqb_eq in E2; subst k2; rewrite E; exact IH.
    - destruct (String.eqb k2 k'); [reflexivity | exact IH]. }
  rewrite H; destruct (lookup k' t); reflexivity.
Qed.

Abbreviation maintains_keys := (maintains keys_unique).

Lemma maintains_keys_query {A : Type} (q : Database -> A) :
  maintains_keys (sql (fun db => inr (q db, db))).
Proof. apply maintains_sql; intros db a db' H E; inversion E; subst; exact H. Qed.

Lemma maintains_keys_mark_pushed id : maintains_keys (mark_pushed id).
Proof.
  unfold mark_pushed.
  apply maintains_try_except_class; [| intros; apply maintains_ret].
  apply maintains_bind; [apply maintains_now | intros t].
  apply maintains_sql; intros db a db' (N1 & N2 & N3) E.
  unfold insert_pushed in E.
  destruct (has_key id (pushed_events db)) eqn:K; inversion E; subst.
  repeat split; simpl; auto.
  rewrite map_app; simpl; apply NoDup_app; repeat split; auto.
  - constructor; [intros [] | constructor].
  - intros x Hx [<- | []]. apply in_keys_has_key in Hx; congruence.
Qed.

Lemma maintains_keys_cache_repo_info name info :
  maintains_keys (cache_repo_info name info).
Proof.
  unfold cache_repo_info; cbv zeta.
  apply maintains_bind; [apply maintains_now | intros t].
  apply maintains_sql; intros db a db' (N1 & N2 & N3) E.
  unfold replace_repo in E; destruct (fits_int64 _); inversion E; subst.
  repeat split; simpl; auto; apply NoDup_keys_upsert, N2.
Qed.

Lemma maintains_keys_cache_user_avatar login a :
  maintains_keys (cache_user_avatar login a).
Proof.
  unfold cache_user_avatar.
  apply maintains_bind; [apply maintains_now | intros t].
  apply maintains_sql; intros db x db' (N1 & N2 & N3) E.
  inversion E; subst; repeat split; simpl; auto; apply NoDup_keys_upsert, N3.
Qed.

Ltac maintains_keys_tac :=
  repeat first
    [ apply maintains_keys_query
    | apply maintains_keys_mark_pushed
    | apply maintains_keys_cache_repo_info
    | apply maintains_keys_cache_user_avatar
    | maintains_step ].

Section MoreProperties.

Variable cfg : config.
Variable strptime_strftime : string -> string + string.

Lemma maintains_keys_format_message ev :
  maintains_keys (format_message strptime_strftime ev).
Proof.
  unfold format_message, assemble, _get_user_avatar, _get_repo_details,
    get_user_avatar, get_repo_info.
  maintains_keys_tac.
Qed.

Lemma maintains_keys_send_all message : maintains_keys (send_all cfg message).
Proof.
  assert (H : forall send bots,
             (forall bot, maintains_keys (send message bot)) ->
             maintains_keys (for_each_bot send message bots)).
  { intros send bots Hs; induction bots as [| bot rest IH]; simpl.
    - apply maintains_ret.
    - apply maintains_bind; [apply Hs | intros _; apply IH]. }
  unfold send_all; apply maintains_bind; [| intros _].
  - destruct (dingtalk_enable cfg); [| apply maintains_ret].
    apply H; intros bot; unfold _send_dingtalk; maintains_keys_tac.
  - destruct (feishu_enable cfg); [| apply maintains_ret].
    apply H; intros bot; unfold _send_feishu; maintains_keys_tac.
Qed.

Lemma maintains_keys_process_events events :
  forall n, maintains_keys (process_events cfg strptime_strftime events n).
Proof.
  induction events as [| ev rest IH]; intros n; simpl.
  - apply maintains_ret.
  - apply maintains_bind; [| intros; apply IH].
    unfold process_event, is_pushed.
    repeat first
      [ apply maintains_keys_format_message
      | apply maintains_keys_send_all
      | apply maintains_keys_query
      | apply maintains_keys_mark_pushed
      | maintains_step ].
Qed.

Lemma maintains_keys_loop n :
  maintains_keys (loop cfg strptime_strftime n).
Proof.
  induction n as [| n IH]; simpl; [apply maintains_ret |].
  apply maintains_bind; [| intros; apply IH].
  unfold cycle, poll.
  repeat first [ apply maintains_keys_process_events | maintains_step ].
Qed.

(** X1: whatever the world does (failed requests, storage errors,
    interrupts), [monitor] never leaves a table with two rows for one key:
    if the event identifiers, the repository names and the logins are each
    unique in their table when it starts, they are after any number of
    turns. *)
Theorem X1_monitor_keeps_primary_keys :
  forall n w s,
    keys_unique (st_db s) ->
    keys_unique (st_db (snd (monitor cfg strptime_strftime n w s))).
Proof.
  intros n w s H; unfold monitor.
  assert (K : maintains_keys (log INFO "🚀 GitHub监控启动" ;;
                              loop cfg strptime_strftime n)).
  { apply maintains_bind; [apply maintains_emit | intros; apply maintains_keys_loop]. }
  specialize (K w s H).
  destruct ((log INFO "🚀 GitHub监控启动" ;; loop cfg strptime_strftime n) w s)
    as [[u | e |] s']; simpl in *; exact K.
Qed.

End MoreProperties.

Lemma X1_witness :
  keys_unique (st_db Sample.start)
  /\ keys_unique
       (st_db (snd (monitor Sample.cfg Sample.strptime_strftime 3 Sample.locked
                      Sample.start))).
Proof.
  assert (H : keys_unique (st_db Sample.start))
    by (repeat split; constructor).
  split; [exact H |].
  apply (X1_monitor_keeps_primary_keys Sample.cfg Sample.strptime_strftime
           3 Sample.locked Sample.start H).
Defined.

(** ** Writing to a cache and reading it back *)

(** X2: with the store answering, what [cache_repo_info] writes for a
    repository is what [get_repo_info] reads next (a missing description or
    language is [None], a missing star count is 0), the repository has
    exactly one row whatever was there before, and the rows of the other
    repositories read as before; a star count that does not fit a 64-bit
    integer is refused with an [OverflowError] and leaves the store as it
    was. *)
Theorem X2_repo_cache_round_trip :
  (forall w s repo_name info,
      w_db_fault w (st_sql s) = None ->
      w_db_fault w (S (st_sql s)) = None ->
      fits_int64 (get_default (rj_stargazers_count info) 0) = true ->
      let r := (cache_repo_info repo_name info ;; get_repo_info repo_name) w s in
      fst r = Ok (Some (mkRepoRow (get (rj_description info))
                                  (get (rj_language info))
                                  (get_default (rj_stargazers_count info) 0)))
      /\ rows_with repo_name (repo_cache (st_db (snd r))) = 1%nat
      /\ forall other,
          other <> repo_name ->
          lookup other (repo_cache (st_db (snd r)))
          = lookup other (repo_cache (st_db s)))
  /\
  (forall w s repo_name info,
      w_db_fault w (st_sql s) = None ->
      fits_int64 (get_default (rj_stargazers_count info) 0) = false ->
      fst (cache_repo_info repo_name info w s)
      = Raised (mkExn OverflowError
                      "Python int too large to convert to SQLite INTEGER")
      /\ st_db (snd (cache_repo_info repo_name info w s)) = st_db s).
Proof.
  split.
  - intros w s name info F1 F2 Fit r; subst r.
    unfold cache_repo_info, get_repo_info, bind, now, sql, replace_repo; simpl.
    rewrite F1, Fit; simpl; rewrite F2; simpl.
    rewrite lookup_upsert; simpl; split; [reflexivity | split].
    + apply rows_with_upsert.
    + intros other N; apply lookup_upsert_other, N.
  - intros w s name info F1 Fit.
    unfold cache_repo_info, bind, now, sql, replace_repo; simpl.
    rewrite F1, Fit; simpl; split; reflexivity.
Qed.

Lemma X2_witness :
  fst ((cache_repo_info "alice/repo" Sample.repo_body ;;
        get_repo_info "alice/repo") Sample.quiet Sample.start)
  = Ok (Some (mkRepoRow (Some "A repository") (Some "Coq") (Some 42)))
  /\ fst (cache_repo_info "alice/repo"
            (mkRepoJson Absent Absent (Val (2 ^ 63)))
            Sample.quiet Sample.start)
     = Raised (mkExn OverflowError
                     "Python int too large to convert to SQLite INTEGER").
Proof.
  destruct X2_repo_cache_round_trip as [H1 H2]; split.
  - apply (H1 Sample.quiet Sample.start "alice/repo" Sample.repo_body);
      reflexivity.
  - apply (H2 Sample.quiet Sample.start "alice/repo"); reflexivity.
Defined.

(** X3: the same for avatars: what [cache_user_avatar] writes for a login
    is what [get_user_avatar] reads next, the login has exactly one row,
    and the other logins read as before. *)
Theorem X3_avatar_cache_round_trip :
  forall w s login avatar_url,
    w_db_fault w (st_sql s) = None ->
    w_db_fault w (S (st_sql s)) = None ->
    let r := (cache_user_avatar login avatar_url ;; get_user_avatar login) w s in
    fst r = Ok avatar_url
    /\ rows_with login (user_cache (st_db (snd r))) = 1%nat
    /\ forall other,
        other <> login ->
        cached_avatar other (st_db (snd r)) = cached_avatar other (st_db s).
Proof.
  intros w s login a F1 F2 r; subst r.
  unfold cache_user_avatar, get_user_avatar, bind, now, sql; simpl.
  rewrite F1; simpl; rewrite F2; simpl.
  rewrite lookup_upsert; simpl; split; [reflexivity | split].
  - apply rows_with_upsert.
  - intros other N; unfold cached_avatar; simpl.
    rewrite (lookup_upsert_other _ _ _ _ N); reflexivity.
Qed.

Lemma X3_witness :
  fst ((cache_user_avatar "alice" (Some "https://avatars/u/1") ;;
        get_user_avatar "alice") Sample.quiet Sample.start)
  = Ok (Some "https://avatars/u/1").
Proof.
  apply (X3_avatar_cache_round_trip Sample.quiet Sample.start "alice"
           (Some "https://avatars/u/1")); reflexivity.
Defined.

(** ** The avatar lookup *)


(** More sample data. *)
Module Cases.

Definition user_body (avatar_url : field string) : http (decoded user_json) :=
  HttpResponse 200 (Decoded (mkUserJson avatar_url)).

(** As [Sample.quiet], but every user lookup is answered with the given
    [avatar_url]. *)
Definition users (avatar_url : field string) : world :=
  mkWorld (w_feed Sample.quiet) (w_repo Sample.quiet)
          (fun _ => user_body avatar_url)
          (w_post Sample.quiet) (w_db_fault Sample.quiet)
          (w_clock Sample.quiet) (w_interrupt Sample.quiet)
          (w_urlparse Sample.quiet) (w_urlunparse Sample.quiet).

(** As [Sample.quiet], but Ctrl-C arrives during the first sleep. *)
Definition impatient : world :=
  mkWorld (w_feed Sample.quiet) (w_repo Sample.quiet) (w_user Sample.quiet)
          (w_post Sample.quiet) (w_db_fault Sample.quiet)
          (w_clock Sample.quiet) (fun n => Nat.eqb n 0)
          (w_urlparse Sample.quiet) (w_urlunparse Sample.quiet).


Definition release_event : event :=
  mkEvent (Some "e3") (Some "ReleaseEvent") (Some (Some "carol"))
          (Some (Some "carol/tool")) (Some "2024-06-01T08:00:00Z")
          (Some (Some (mkRelease (Val "First") (Val "v1.0")))).

(** An event with no [id]. *)
Definition anonymous : event :=
  mkEvent None (Some "PushEvent") (Some (Some "dave"))
          (Some (Some "dave/x")) (Some "2024-06-01T08:00:00Z") None.

Definition second_star : event :=
  mkEvent (Some "e4") (Some "WatchEvent") (Some (Some "erin"))
          (Some (Some "erin/y")) (Some "2024-06-02T09:30:00Z") None.

(** A bot entry without its [webhook] key. *)
Definition broken_bot : bot_config := mkBot None (Some "abc") (Some "broken").

(** A bot with an empty secret. *)
Definition open_bot : bot_config :=
  mkBot (Some "https://oapi.dingtalk.com/robot/send?access_token=t0ken")
        (Some "") (Some "open").

(** A configuration with both channels switched off. *)
Definition silent : config :=
  mkConfig "octocat" "ghp_token" 30 300 false [Sample.ding_bot] false [].

(** As [Sample.quiet], but the feed has the given page. *)
Definition feeding (page : list event) : world :=
  mkWorld (fun _ => HttpResponse 200 (Decoded page))
          (w_repo Sample.quiet) (w_user Sample.quiet) (w_post Sample.quiet)
          (w_db_fault Sample.quiet) (w_clock Sample.quiet)
          (w_interrupt Sample.quiet)
          (w_urlparse Sample.quiet) (w_urlunparse Sample.quiet).

(** The state in which [poll], called in [Sample.start], goes through its
    page. *)
Definition polled (cfg : config) : state :=
  mkState (st_db Sample.start) (S (st_net Sample.start))
          (st_sql Sample.start) (st_clock Sample.start)
          (st_sleep Sample.start)
          (st_trace Sample.start ++ [EvGet (feed_url cfg)]).

(** A DingTalk bot whose webhook URL has no query. *)
Definition bare_bot : bot_config :=
  mkBot (Some "https://oapi.dingtalk.com/robot/send") (Some "abc")
        (Some "bare").

End Cases.


(** X5: an avatar that is stored empty never gives a cache hit.  When the
    user lookup gets a 200 response without [avatar_url] (or with the empty
    text), [_get_user_avatar] returns the empty text and stores a row for
    the login; the next call for the login finds the row, takes its empty
    avatar for a miss and asks GitHub again. *)
Theorem X5_empty_avatar_is_fetched_again :
  forall w s login status data,
    w_db_fault w (st_sql s) = None ->
    truthy (cached_avatar login (st_db s)) = false ->
    w_user w (st_net s) = HttpResponse status (Decoded data) ->
    status = 200 ->
    get_default (uj_avatar_url data) "" = Some "" ->
    w_db_fault w (S (st_sql s)) = None ->
    let (r1, s1) := _get_user_avatar login w s in
    r1 = Ok (Some "")
    /\ has_key login (user_cache (st_db s1)) = true
    /\ (w_db_fault w (st_sql s1) = None ->
        exists tr,
          st_trace (snd (_get_user_avatar login w s1))
          = (st_trace s1 ++ EvGet (user_url login) :: tr)%list).
Proof.
  intros w s login status data F1 T U -> A F2.
  destruct (_get_user_avatar login w s) as [r1 s1] eqn:E.
  assert (H : r1 = Ok (Some "")
              /\ exists t, user_cache (st_db s1)
                           = upsert login (Some "", t) (user_cache (st_db s))).
  { revert E; unfold cached_avatar in T; run_enrichment.
    rewrite F1; simpl; rewrite T; simpl; rewrite U; simpl; rewrite F2; simpl.
    intros E; inversion E; subst; clear E; simpl.
    split; [rewrite A; reflexivity | eexists; rewrite A; reflexivity]. }
  clear E; destruct H as [-> [t C]].
  split; [reflexivity | split].
  - rewrite has_key_lookup, C, lookup_upsert; reflexivity.
  - intros F3; apply user_avatar_asks; [exact F3 |].
    unfold cached_avatar; rewrite C, lookup_upsert; reflexivity.
Qed.

Lemma X5_witness :
  let (r1, s1) := _get_user_avatar "alice" (Cases.users Absent) Sample.start in
  r1 = Ok (Some "")
  /\ has_key "alice" (user_cache (st_db s1)) = true
  /\ (w_db_fault (Cases.users Absent) (st_sql s1) = None ->
      exists tr,
        st_trace (snd (_get_user_avatar "alice" (Cases.users Absent) s1))
        = (st_trace s1 ++ EvGet (user_url "alice") :: tr)%list).
Proof.
  apply (X5_empty_avatar_is_fetched_again (Cases.users Absent) Sample.start
           "alice" 200 (mkUserJson Absent)); reflexivity.
Defined.

Section MoreFormatting.

Variable strptime_strftime : string -> string + string.

(** X6: a [null] avatar spoils the whole message.  When the user lookup
    gets a 200 response whose [avatar_url] is [null], the avatar is Python's
    [None], adding the size suffix to it raises a [TypeError], and
    [format_message] returns the fallback document with that error instead
    of the notification. *)
Theorem X6_null_avatar_gives_fallback :
  forall w s ev event_type login status,
    ev_type ev = Some event_type ->
    ev_actor ev = Some (Some login) ->
    w_db_fault w (st_sql s) = None ->
    truthy (cached_avatar login (st_db s)) = false ->
    w_user w (st_net s) = HttpResponse status (Decoded (mkUserJson Null)) ->
    status = 200 ->
    w_db_fault w (S (st_sql s)) = None ->
    fst (format_message strptime_strftime ev w s)
    = Ok (fallback_message
            (mkExn TypeError
               "unsupported operand type(s) for +: 'NoneType' and 'str'")).
Proof.
  intros w s ev t login status Ht Ha F1 T U -> F2.
  unfold format_message, try_except, assemble; rewrite Ht, Ha.
  unfold cached_avatar in T; run_enrichment.
  rewrite F1; simpl; rewrite T; simpl; rewrite U; simpl; rewrite F2;
    reflexivity.
Qed.

Lemma bind_ret_l {A B : Type} (a : A) (k : A -> M B) : bind (ret a) k = k a.
Proof. reflexivity. Qed.

(** An event with another payload. *)
Definition with_payload (ev : event) (p : option (option release)) : event :=
  mkEvent (ev_id ev) (ev_type ev) (ev_actor ev) (ev_repo ev)
          (ev_created_at ev) p.

(** X7: the payload of an event is looked at for release events only: for
    an event of any other type, [format_message] returns the same message,
    and does the same to the world, whatever the payload is, missing or
    malformed. *)
Theorem X7_payload_only_matters_for_releases :
  forall ev p w s,
    ev_type ev <> Some "ReleaseEvent" ->
    format_message strptime_strftime (with_payload ev p) w s
    = format_message strptime_strftime ev w s.
Proof.
  intros ev p w s N.
  unfold format_message, assemble, with_payload; simpl.
  destruct (ev_type ev) as [t |]; [| reflexivity].
  assert (E : String.eqb t "ReleaseEvent" = false).
  { apply String.eqb_neq; congruence. }
  cbn [subscript]; rewrite !bind_ret_l; cbv beta.
  destruct (String.eqb t "ReleaseEvent"); [discriminate | reflexivity].
Qed.

End MoreFormatting.

Lemma X6_witness :
  fst (format_message Sample.strptime_strftime Sample.star (Cases.users Null)
         Sample.start)
  = Ok (fallback_message
          (mkExn TypeError
             "unsupported operand type(s) for +: 'NoneType' and 'str'")).
Proof.
  apply (X6_null_avatar_gives_fallback Sample.strptime_strftime
           (Cases.users Null) Sample.start Sample.star "WatchEvent" "alice" 200);
    reflexivity.
Defined.

Lemma X7_witness :
  format_message Sample.strptime_strftime
    (with_payload Sample.star (Some None)) Sample.quiet Sample.start
  = format_message Sample.strptime_strftime Sample.star Sample.quiet
      Sample.start.
Proof.
  apply (X7_payload_only_matters_for_releases Sample.strptime_strftime
           Sample.star (Some None) Sample.quiet Sample.start).
  discriminate.
Defined.

(** ** A page of the feed *)

(** The identifiers of a page that a store with the keys [seen] does not
    know, each one once, in the order of the page. *)
Fixpoint fresh_ids (seen ids : list string) : list string :=
  match ids with
  | [] => []
  | id :: rest =>
      if existsb (fun k => String.eqb k id) seen then fresh_ids seen rest
      else id :: fresh_ids (seen ++ [id]) rest
  end.

Lemma has_key_keys {V : Type} k (t : list (string * V)) :
  has_key k t = existsb (fun k' => String.eqb k' k) (map fst t).
Proof.
  unfold has_key; induction t as [| r t IH]; simpl; [reflexivity |].
  rewrite IH; reflexivity.
Qed.

Section Pages.

Variable cfg : config.
Variable strptime_strftime : string -> string + string.

(** X8: what a page of the feed does to a store that answers, when nobody
    interrupts.  Of the identifiers of the page, those that the store does
    not know are dispatched, each one once even when the page repeats it,
    in the order of the page; the count that the loop logs is their number;
    and their markers are added to the table in the same order. *)
Theorem X8_page_is_notified_once_in_order :
  forall w events ids k s,
    db_healthy w ->
    never_interrupted w ->
    map ev_id events = map Some ids ->
    exists s1,
      process_events cfg strptime_strftime events k w s
      = (Ok (k + Z.of_nat
                   (List.length
                      (fresh_ids (map fst (pushed_events (st_db s))) ids))),
         s1)
      /\ dispatched (st_trace s1)
         = (dispatched (st_trace s)
            ++ fresh_ids (map fst (pushed_events (st_db s))) ids)%list
      /\ map fst (pushed_events (st_db s1))
         = (map fst (pushed_events (st_db s))
            ++ fresh_ids (map fst (pushed_events (st_db s))) ids)%list.
Proof.
  intros w events ids k s Hw Hi; revert ids k s.
  induction events as [| ev rest IH]; intros [| id ids] k s E;
    try discriminate E.
  - exists s; simpl; rewrite Z.add_0_r, !app_nil_r; auto.
  - simpl in E; injection E as E1 E2.
    cbn [fresh_ids process_events]; rewrite <- has_key_keys.
    destruct (has_key id (pushed_events (st_db s))) eqn:K.
    + rewrite (bind_ok _ _ _ _ _ _
                 (process_event_seen cfg strptime_strftime w s ev id
                    (Hw _) E1 K)).
      apply (IH ids k
               (mkState (st_db s) (st_net s) (S (st_sql s)) (st_clock s)
                        (st_sleep s) (st_trace s)) E2).
    + destruct (process_event_fresh cfg strptime_strftime w s ev id Hw E1 K)
        as (msg & t & r & s' & P & R & M' & D' & _).
      assert (Er : r = Ok true).
      { destruct R as [R | R]; [exact R | exfalso].
        apply (returns_process_event cfg strptime_strftime ev w s Hi).
        rewrite P; exact R. }
      subst r; rewrite (bind_ok _ _ _ _ _ _ P).
      destruct (IH ids (k + 1) s' E2) as (s1 & R1 & D1 & M1).
      rewrite M', map_app in R1, D1, M1; cbn [map fst] in R1, D1, M1.
      exists s1; rewrite R1, D1, M1, D'; cbn [List.length].
      rewrite Nat2Z.inj_succ, <- !app_assoc.
      repeat split; f_equal; f_equal; lia.
Qed.

(** X9: an event without [id] stops its page.  When the events before it
    have been processed, [process_events] raises [KeyError] there and
    touches none of the events behind it; the turn of the loop then only
    logs the error and backs off for 60 seconds. *)
Theorem X9_event_without_id_stops_the_page :
  forall w s status pre bad rest n s1,
    w_feed w (st_net s) = HttpResponse status (Decoded (pre ++ bad :: rest)%list) ->
    process_events cfg strptime_strftime pre 0 w
      (mkState (st_db s) (S (st_net s)) (st_sql s) (st_clock s) (st_sleep s)
               (st_trace s ++ [EvGet (feed_url cfg)]))
    = (Ok n, s1) ->
    ev_id bad = None ->
    process_events cfg strptime_strftime (pre ++ bad :: rest)%list 0 w
      (mkState (st_db s) (S (st_net s)) (st_sql s) (st_clock s) (st_sleep s)
               (st_trace s ++ [EvGet (feed_url cfg)]))
    = (Raised (mkExn KeyError "'id'"), s1)
    /\ st_db (snd (cycle cfg strptime_strftime w s)) = st_db s1
    /\ st_trace (snd (cycle cfg strptime_strftime w s))
       = (st_trace s1
          ++ [EvLog ERROR "处理异常: 'id'"; EvSleep 60000])%list.
Proof.
  intros w s status pre bad rest n s1 F P B.
  assert (E : process_events cfg strptime_strftime (pre ++ bad :: rest)%list 0 w
                (mkState (st_db s) (S (st_net s)) (st_sql s) (st_clock s)
                         (st_sleep s) (st_trace s ++ [EvGet (feed_url cfg)]))
              = (Raised (mkExn KeyError "'id'"), s1)).
  { rewrite process_events_app, (bind_ok _ _ _ _ _ _ P).
    cbn [process_events].
    apply bind_raised, process_event_no_id, B. }
  split; [exact E |].
  assert (Q : poll cfg strptime_strftime w s
              = (Raised (mkExn KeyError "'id'"), s1)).
  { unfold poll, bind at 1, exchange; rewrite F; cbn [snd json].
    unfold bind at 1, ret.
    apply bind_raised, E. }
  rewrite (cycle_backoff cfg strptime_strftime w s _ s1 Q).
  split; reflexivity.
Qed.

(** X10: an interrupt during the pause of [process_event] neither loses
    nor repeats the event (the operator's Ctrl-C is taken to arrive while
    the program sleeps).  When [process_event] is interrupted, the event
    was new, has been dispatched, and is marked. *)
Theorem X10_interrupted_event_is_marked :
  forall w s ev,
    fst (process_event cfg strptime_strftime ev w s) = Interrupted ->
    exists id,
      ev_id ev = Some id
      /\ has_key id (pushed_events (st_db s)) = false
      /\ dispatched
           (st_trace (snd (process_event cfg strptime_strftime ev w s)))
         = (dispatched (st_trace s) ++ [id])%list
      /\ has_key id
           (pushed_events
              (st_db (snd (process_event cfg strptime_strftime ev w s))))
         = true.
Proof.
  intros w s ev I.
  destruct (ev_id ev) as [id |] eqn:Hid;
    [| rewrite (process_event_no_id cfg strptime_strftime w s ev Hid) in I;
       discriminate I].
  exists id; split; [reflexivity |].
  destruct (w_db_fault w (st_sql s)) as [text |] eqn:F.
  { exfalso; revert I; unfold process_event; rewrite Hid; cbn [subscript].
    rewrite bind_ret_l,
      (bind_raised _ _ _ _ _ _ (is_pushed_fault w s id text F)).
    discriminate. }
  destruct (has_key id (pushed_events (st_db s))) eqn:K;
    [rewrite (process_event_seen cfg strptime_strftime w s ev id F Hid K) in I;
     discriminate I |].
  split; [reflexivity |].
  destruct (process_event_dispatch cfg strptime_strftime w s ev id F Hid K)
    as (msg & s4 & E & P4 & D4 & _).
  revert I; rewrite E.
  destruct (w_db_fault w (st_sql s4)) as [text |] eqn:F4.
  - rewrite (bind_raised _ _ _ _ _ _ (mark_pushed_fault w s4 id text F4)).
    discriminate.
  - rewrite (bind_ok _ _ _ _ _ _ (mark_pushed_run w s4 id F4)).
    unfold marked_table; rewrite P4, K.
    unfold bind, sleep; simpl.
    destruct (w_interrupt w (st_sleep s4)); simpl; [intros _ | discriminate].
    rewrite dispatched_app, D4; simpl; rewrite app_nil_r.
    split; [reflexivity |].
    rewrite has_key_app; simpl; rewrite String.eqb_refl.
    apply Bool.orb_true_r.
Qed.

End Pages.

Lemma X8_witness :
  exists s1,
    process_events Sample.cfg Sample.strptime_strftime
      [Sample.star; Cases.second_star; Sample.star] 0 Sample.quiet Sample.start
    = (Ok (0 + Z.of_nat
                 (List.length
                    (fresh_ids (map fst (pushed_events (st_db Sample.start)))
                               ["e1"; "e4"; "e1"]))),
       s1)
    /\ dispatched (st_trace s1)
       = (dispatched (st_trace Sample.start)
          ++ fresh_ids (map fst (pushed_events (st_db Sample.start)))
                       ["e1"; "e4"; "e1"])%list
    /\ map fst (pushed_events (st_db s1))
       = (map fst (pushed_events (st_db Sample.start))
          ++ fresh_ids (map fst (pushed_events (st_db Sample.start)))
                       ["e1"; "e4"; "e1"])%list.
Proof.
  apply (X8_page_is_notified_once_in_order Sample.cfg Sample.strptime_strftime
           Sample.quiet [Sample.star; Cases.second_star; Sample.star]
           ["e1"; "e4"; "e1"] 0 Sample.start);
    [intros n; reflexivity | intros n; reflexivity | reflexivity].
Defined.

Lemma X9_witness :
  process_events Cases.silent Sample.strptime_strftime
    ([Sample.star] ++ Cases.anonymous :: [Cases.second_star])%list 0
    (Cases.feeding [Sample.star; Cases.anonymous; Cases.second_star])
    (Cases.polled Cases.silent)
  = (Raised (mkExn KeyError "'id'"),
     snd (process_events Cases.silent Sample.strptime_strftime [Sample.star] 0
            (Cases.feeding [Sample.star; Cases.anonymous; Cases.second_star])
            (Cases.polled Cases.silent)))
  /\ dispatched
       (st_trace
          (snd (cycle Cases.silent Sample.strptime_strftime
                  (Cases.feeding
                     [Sample.star; Cases.anonymous; Cases.second_star])
                  Sample.start)))
     = ["e1"].
Proof.
  destruct (X9_event_without_id_stops_the_page Cases.silent
              Sample.strptime_strftime
              (Cases.feeding [Sample.star; Cases.anonymous; Cases.second_star])
              Sample.start 200 [Sample.star] Cases.anonymous
              [Cases.second_star] 1
              (snd (process_events Cases.silent Sample.strptime_strftime
                      [Sample.star] 0
                      (Cases.feeding
                         [Sample.star; Cases.anonymous; Cases.second_star])
                      (Cases.polled Cases.silent))))
    as (E & _ & T);
    [reflexivity | vm_compute; reflexivity | reflexivity |].
  split; [exact E |].
  rewrite T; vm_compute; reflexivity.
Defined.

Lemma X10_witness :
  exists id,
    ev_id Sample.star = Some id
    /\ has_key id (pushed_events (st_db Sample.start)) = false
    /\ dispatched
         (st_trace (snd (process_event Cases.silent Sample.strptime_strftime
                           Sample.star Cases.impatient Sample.start)))
       = (dispatched (st_trace Sample.start) ++ [id])%list
    /\ has_key id
         (pushed_events
            (st_db (snd (process_event Cases.silent Sample.strptime_strftime
                           Sample.star Cases.impatient Sample.start))))
       = true.
Proof.
  apply (X10_interrupted_event_is_marked Cases.silent Sample.strptime_strftime
           Cases.impatient Sample.start Sample.star).
  vm_compute; reflexivity.
Defined.

(** ** The requests of the senders *)

(** X11: a bot without a secret (none configured, or an empty one) is
    posted to at its webhook URL exactly as configured, on both channels,
    and the clock is not read for it; on Feishu the URL is not even
    parsed. *)
Theorem X11_bot_without_secret_is_posted_as_configured :
  forall message bot w s url,
    bot_webhook bot = Some url ->
    truthy (bot_secret bot) = false ->
    (posts (st_trace (snd (_send_dingtalk message bot w s)))
     = (posts (st_trace s)
        ++ [(url, Markdown "GitHub动态通知"
                           (Str.replace Str.nl (Str.nl ++ Str.nl) message))])%list
     /\ st_clock (snd (_send_dingtalk message bot w s)) = st_clock s)
    /\
    (posts (st_trace (snd (_send_feishu message bot w s)))
     = (posts (st_trace s)
        ++ [(url, Card "✨ GitHub动态通知" (_format_for_feishu message))])%list
     /\ st_clock (snd (_send_feishu message bot w s)) = st_clock s).
Proof.
  intros message bot w s url Hu Hs; split.
  - unfold _send_dingtalk, try_except, bind, emit, subscript, exchange, log,
      emit, now, ret; rewrite Hu, Hs.
    cbn [fst snd st_net st_trace st_db st_clock].
    destruct (w_post w (st_net s)) as [e | status resp];
      cbn [fst snd st_trace st_clock];
      [| destruct (negb (status =? 200)); cbn [fst snd st_trace st_clock]];
      rewrite !posts_app; cbn [posts flat_map app];
      rewrite ?app_nil_r; split; reflexivity.
  - unfold _send_feishu, try_except, bind, emit, subscript, exchange, log,
      emit, now, ret; rewrite Hu, Hs.
    cbn [fst snd st_net st_trace st_db st_clock].
    destruct (w_post w (st_net s)) as [e | status resp];
      cbn [fst snd st_trace st_clock];
      [| destruct (negb (status =? 200)); cbn [fst snd st_trace st_clock]];
      rewrite !posts_app; cbn [posts flat_map app];
      rewrite ?app_nil_r; split; reflexivity.
Qed.

Lemma X11_witness :
  (posts (st_trace (snd (_send_dingtalk "hello" Cases.open_bot Sample.quiet
                           Sample.start)))
   = (posts (st_trace Sample.start)
      ++ [("https://oapi.dingtalk.com/robot/send?access_token=t0ken",
           Markdown "GitHub动态通知"
                    (Str.replace Str.nl (Str.nl ++ Str.nl) "hello"))])%list
   /\ st_clock (snd (_send_dingtalk "hello" Cases.open_bot Sample.quiet
                       Sample.start))
      = st_clock Sample.start)
  /\
  (posts (st_trace (snd (_send_feishu "hello" Cases.open_bot Sample.quiet
                           Sample.start)))
   = (posts (st_trace Sample.start)
      ++ [("https://oapi.dingtalk.com/robot/send?access_token=t0ken",
           Card "✨ GitHub动态通知" (_format_for_feishu "hello"))])%list
   /\ st_clock (snd (_send_feishu "hello" Cases.open_bot Sample.quiet
                       Sample.start))
      = st_clock Sample.start).
Proof.
  apply (X11_bot_without_secret_is_posted_as_configured "hello" Cases.open_bot
           Sample.quiet Sample.start
           "https://oapi.dingtalk.com/robot/send?access_token=t0ken");
    reflexivity.
Defined.

(** X12: a bot entry without [webhook] costs one line of the log and
    nothing else.  Either sender returns normally, makes no request, reads
    no clock, and logs an error that names the bot and the missing key. *)
Theorem X12_bot_without_webhook_is_logged :
  forall message bot w s,
    bot_webhook bot = None ->
    _send_dingtalk message bot w s
    = (Ok tt,
       mkState (st_db s) (st_net s) (st_sql s) (st_clock s) (st_sleep s)
               (st_trace s
                ++ [EvSend DingTalk bot message;
                    EvLog ERROR ("钉钉发送失败到 " ++ bot_label bot
                                 ++ ": 'webhook'")]))
    /\
    _send_feishu message bot w s
    = (Ok tt,
       mkState (st_db s) (st_net s) (st_sql s) (st_clock s) (st_sleep s)
               (st_trace s
                ++ [EvSend Feishu bot message;
                    EvLog ERROR ("飞书发送异常到 " ++ bot_label bot
                                 ++ ": 'webhook'")])).
Proof.
  intros message bot w s Hu; split.
  - unfold _send_dingtalk, try_except, bind, emit, subscript, log, emit, raise;
      rewrite Hu; cbn [fst snd st_net st_trace st_db st_clock st_sql st_sleep
                       exn_text append].
    rewrite <- app_assoc; reflexivity.
  - unfold _send_feishu, try_except, bind, emit, subscript, log, emit, raise;
      rewrite Hu; cbn [fst snd st_net st_trace st_db st_clock st_sql st_sleep
                       exn_text append].
    rewrite <- app_assoc; reflexivity.
Qed.

Lemma X12_witness :
  _send_dingtalk "hello" Cases.broken_bot Sample.quiet Sample.start
  = (Ok tt,
     mkState (st_db Sample.start) (st_net Sample.start) (st_sql Sample.start)
             (st_clock Sample.start) (st_sleep Sample.start)
             (st_trace Sample.start
              ++ [EvSend DingTalk Cases.broken_bot "hello";
                  EvLog ERROR ("钉钉发送失败到 " ++ bot_label Cases.broken_bot
                               ++ ": 'webhook'")]))
  /\
  _send_feishu "hello" Cases.broken_bot Sample.quiet Sample.start
  = (Ok tt,
     mkState (st_db Sample.start) (st_net Sample.start) (st_sql Sample.start)
             (st_clock Sample.start) (st_sleep Sample.start)
             (st_trace Sample.start
              ++ [EvSend Feishu Cases.broken_bot "hello";
                  EvLog ERROR ("飞书发送异常到 " ++ bot_label Cases.broken_bot
                               ++ ": 'webhook'")])).
Proof.
  apply (X12_bot_without_webhook_is_logged "hello" Cases.broken_bot
           Sample.quiet Sample.start).
  reflexivity.
Defined.

(** The sender of the bot gets as far as its request: the entry has a
    [webhook] and, for a Feishu bot with a secret, [urlparse] takes the
    URL. *)
Definition requested (w : world) (ch : channel) (bot : bot_config) : bool :=
  match bot_webhook bot with
  | None => false
  | Some url =>
      match ch with
      | DingTalk => true
      | Feishu =>
          negb (truthy (bot_secret bot))
          || match w_urlparse w url with
             | inr _ => true
             | inl _ => false
             end
      end
  end.

(** The bodies of the webhook requests, in order. *)
Definition bodies (tr : list io_event) : list payload := map snd (posts tr).

Lemma bodies_app a b : bodies (a ++ b) = (bodies a ++ bodies b)%list.
Proof. unfold bodies; rewrite posts_app; apply map_app. Qed.

Lemma bodies_send_dingtalk message bot w s :
  bodies (st_trace (snd (_send_dingtalk message bot w s)))
  = (bodies (st_trace s)
     ++ (if requested w DingTalk bot
         then [Markdown "GitHub动态通知"
                        (Str.replace Str.nl (Str.nl ++ Str.nl) message)]
         else []))%list.
Proof.
  unfold _send_dingtalk, try_except, bind, emit, subscript, exchange, log,
    emit, now, ret, raise, requested.
  destruct (bot_webhook bot) as [url |];
    [destruct (truthy (bot_secret bot)) |];
    cbn [fst snd st_net st_trace st_db st_clock];
    [destruct (w_post w (st_net s)) as [e | status resp];
     cbn [fst snd st_trace];
     [| destruct (negb (status =? 200)); cbn [fst snd st_trace]] ..
    |];
    rewrite !bodies_app; cbn [bodies posts flat_map app map snd];
    rewrite ?app_nil_r; reflexivity.
Qed.

Lemma bodies_send_feishu message bot w s :
  bodies (st_trace (snd (_send_feishu message bot w s)))
  = (bodies (st_trace s)
     ++ (if requested w Feishu bot
         then [Card "✨ GitHub动态通知" (_format_for_feishu message)]
         else []))%list.
Proof.
  unfold _send_feishu, sign_feishu_url, urlparse, urlunparse, library,
    try_except, bind, emit, subscript, exchange, log, emit, now, ret, raise,
    requested.
  destruct (bot_webhook bot) as [url |];
    [destruct (truthy (bot_secret bot));
     [destruct (w_urlparse w url) as [e0 | p] |] |];
    cbn [fst snd st_net st_trace st_db st_clock negb orb];
    try (destruct (w_post w (st_net s)) as [e | status resp];
         cbn [fst snd st_trace];
         [| destruct (negb (status =? 200)); cbn [fst snd st_trace]]);
    rewrite !bodies_app; cbn [bodies posts flat_map app map snd];
    rewrite ?app_nil_r; reflexivity.
Qed.

Section BodiesOfBots.
Variable ch : channel.
Variable send : string -> bot_config -> M unit.
Variable body : string -> payload.
Hypothesis send_safe : forall message bot, safe (send message bot).
Hypothesis send_bodies : forall message bot w s,
  bodies (st_trace (snd (send message bot w s)))
  = (bodies (st_trace s)
     ++ (if requested w ch bot then [body message] else []))%list.

Lemma bodies_for_each_bot message bots w s :
  bodies (st_trace (snd (for_each_bot send message bots w s)))
  = (bodies (st_trace s)
     ++ map (fun _ => body message) (filter (requested w ch) bots))%list.
Proof.
  revert s; induction bots as [| bot rest IH]; intros s; simpl.
  - rewrite app_nil_r; reflexivity.
  - destruct (run_safe (send message bot) w s (send_safe _ _))
      as (u & s1 & E).
    rewrite (bind_ok _ _ _ _ _ _ E), IH.
    pose proof (send_bodies message bot w s) as H; rewrite E in H; simpl in H.
    rewrite H, <- app_assoc.
    destruct (requested w ch bot); reflexivity.
Qed.
End BodiesOfBots.

(** X13: whatever the webhooks answer, [send_all] makes one request for
    every bot of an enabled channel whose sender gets as far as that (the
    entry has a [webhook]; for a Feishu bot with a secret, [urlparse] takes
    the URL), in the order of the configuration, DingTalk first, each with
    the body of its channel; it makes no other request: none for a
    disabled channel, none for the other bots, and never a second one
    after a failure. *)
Theorem X13_one_request_per_bot :
  forall cfg message w s,
    bodies (st_trace (snd (send_all cfg message w s)))
    = (bodies (st_trace s)
       ++ (if dingtalk_enable cfg
           then map (fun _ => Markdown "GitHub动态通知"
                                (Str.replace Str.nl (Str.nl ++ Str.nl) message))
                    (filter (requested w DingTalk) (dingtalk_bots cfg))
           else [])
       ++ (if feishu_enable cfg
           then map (fun _ => Card "✨ GitHub动态通知"
                                (_format_for_feishu message))
                    (filter (requested w Feishu) (feishu_bots cfg))
           else []))%list.
Proof.
  intros cfg message w s; unfold send_all.
  match goal with
  | |- context [bind ?m ?k w s] =>
      assert (Hm : safe m)
  end.
  { destruct (dingtalk_enable cfg); [| apply safe_ret].
    apply safe_for_each_bot, safe_send_dingtalk. }
  destruct (run_safe _ w s Hm) as (u & s1 & E).
  rewrite (bind_ok _ _ _ _ _ _ E), app_assoc.
  assert (H1 : bodies (st_trace s1)
               = (bodies (st_trace s)
                  ++ (if dingtalk_enable cfg
                      then map (fun _ => Markdown "GitHub动态通知"
                                           (Str.replace Str.nl
                                              (Str.nl ++ Str.nl) message))
                               (filter (requested w DingTalk)
                                       (dingtalk_bots cfg))
                      else []))%list).
  { destruct (dingtalk_enable cfg).
    - pose proof (bodies_for_each_bot DingTalk _send_dingtalk
                    (fun m => Markdown "GitHub动态通知"
                                (Str.replace Str.nl (Str.nl ++ Str.nl) m))
                    safe_send_dingtalk bodies_send_dingtalk
                    message (dingtalk_bots cfg) w s) as H.
      rewrite E in H; exact H.
    - inversion E; subst; rewrite app_nil_r; reflexivity. }
  rewrite <- H1.
  destruct (feishu_enable cfg).
  - apply (bodies_for_each_bot Feishu _send_feishu
             (fun m => Card "✨ GitHub动态通知" (_format_for_feishu m))
             safe_send_feishu bodies_send_feishu).
  - simpl; rewrite app_nil_r; reflexivity.
Qed.

(** ** The signed URL of DingTalk, as its reader sees it *)

(** The parameters of the URLs posted to, in order. *)
Definition posted_params (tr : list io_event)
  : list (list (string * string)) :=
  map (fun p => Spec.url_params (fst p)) (posts tr).

Lemma split_on_nonempty sep s : Str.split_on sep s <> [].
Proof.
  destruct s as [| c s]; simpl; [discriminate |].
  destruct (Ascii.eqb c sep); [discriminate |].
  destruct (Str.split_on sep s); discriminate.
Qed.

Lemma split_on_append sep a b :
  Str.split_on sep (a ++ String sep b)
  = (Str.split_on sep a ++ Str.split_on sep b)%list.
Proof.
  induction a as [| c a IH]; simpl.
  - rewrite Ascii.eqb_refl; reflexivity.
  - destruct (Ascii.eqb c sep); rewrite IH; [reflexivity |].
    pose proof (split_on_nonempty sep a) as N.
    destruct (Str.split_on sep a); [congruence | reflexivity].
Qed.

Lemma query_params_append a b :
  Spec.query_params (a ++ String "&" b)
  = (Spec.query_params a ++ Spec.query_params b)%list.
Proof.
  unfold Spec.query_params; rewrite split_on_append; apply flat_map_app.
Qed.

Lemma mem_split_once sep s :
  Str.mem sep s = true -> exists a b, Str.split_once sep s = Some (a, b).
Proof.
  intros H; destruct (Str.split_once sep s) as [[a b] |] eqn:E;
    [exists a, b; reflexivity |].
  apply split_once_none_inv in E; congruence.
Qed.

Lemma uint_safe d : all Url.always_safe (NilEmpty.string_of_uint d) = true.
Proof.
  induction d; cbn [NilEmpty.string_of_uint all]; [reflexivity | ..];
    rewrite IHd; reflexivity.
Qed.

(** [str(n)] is made of digits and, in front, a minus sign. *)
Lemma of_Z_safe n : all Url.always_safe (Str.of_Z n) = true.
Proof.
  assert (U : forall d, all Url.always_safe (NilZero.string_of_uint d) = true).
  { intros d; destruct d; [reflexivity | ..];
      unfold NilZero.string_of_uint; apply uint_safe. }
  unfold Str.of_Z, NilZero.string_of_int.
  destruct (Z.to_int n) as [d | d]; [apply U |].
  cbn [all]; rewrite U; reflexivity.
Qed.

Lemma quote_safe s : all Url.always_safe s = true -> Url.quote "" s = s.
Proof.
  induction s as [| c s IH]; [reflexivity |].
  cbn [all]; intros H; apply andb_true_iff in H; destruct H as [H1 H2].
  rewrite quote_cons, H1, (IH H2); reflexivity.
Qed.

Lemma quote_plus_safe s : all Url.always_safe s = true -> Url.quote_plus s = s.
Proof.
  intros H; unfold Url.quote_plus.
  rewrite (all_mem Url.always_safe s " " H eq_refl); apply quote_safe, H.
Qed.

(** What DingTalk's sender appends to the webhook URL. *)
Lemma signed_tail secret timestamp :
  all Url.always_safe timestamp = true ->
  let tail := "timestamp=" ++ timestamp ++ "&sign="
              ++ _generate_dingtalk_sign secret timestamp in
  Str.mem "?" tail = false
  /\ Str.mem "#" tail = false
  /\ Spec.query_params tail
     = [("timestamp", timestamp);
        ("sign", Base64.b64encode
                   (HMAC.sha256 secret (timestamp ++ Str.nl ++ secret)))].
Proof.
  intros T tail.
  set (digest := Base64.b64encode
                   (HMAC.sha256 secret (timestamp ++ Str.nl ++ secret))).
  assert (E : tail = ("timestamp=" ++ timestamp)
                     ++ String "&" ("sign=" ++ Url.quote_plus digest)).
  { unfold tail; rewrite append_assoc; reflexivity. }
  assert (N : forall c, Url.always_safe c = false -> url_char c = false ->
                        Str.mem c "timestamp=" = false ->
                        Str.mem c "&sign=" = false ->
                        Str.mem c tail = false).
  { intros c H1 H2 H3 H4; unfold tail.
    change (_generate_dingtalk_sign secret timestamp)
      with (Url.quote_plus digest).
    rewrite !mem_app, H3, H4, (all_mem _ _ _ T H1), (quote_plus_no c digest H2).
    reflexivity. }
  split; [apply N; reflexivity | split; [apply N; reflexivity |]].
  rewrite E, query_params_append.
  unfold Spec.query_params.
  rewrite !split_on_single.
  - cbn [flat_map]; rewrite !app_nil_r.
    pose proof (query_field_encoded "timestamp" timestamp) as F1.
    rewrite (quote_plus_safe timestamp T) in F1.
    pose proof (query_field_encoded "sign" digest) as F2.
    change (Spec.query_field ("timestamp=" ++ timestamp)
            = [("timestamp", timestamp)]) in F1.
    change (Spec.query_field ("sign=" ++ Url.quote_plus digest)
            = [("sign", digest)]) in F2.
    rewrite F1, F2; reflexivity.
  - change ("sign=" ++ Url.quote_plus digest)
      with ("sign" ++ String "=" (Url.quote_plus digest)).
    rewrite mem_app; cbn [Str.mem].
    rewrite (quote_plus_no "&" digest eq_refl); reflexivity.
  - change ("timestamp=" ++ timestamp)
      with ("timestamp" ++ String "=" timestamp).
    rewrite mem_app; cbn [Str.mem].
    rewrite (all_mem _ _ _ T (eq_refl : Url.always_safe "&" = false));
      reflexivity.
Qed.

Lemma posted_params_app a b :
  posted_params (a ++ b) = (posted_params a ++ posted_params b)%list.
Proof. unfold posted_params; rewrite posts_app; apply map_app. Qed.

Lemma split_url_append url tail :
  Str.mem "?" url = true -> Str.mem "#" url = false ->
  Str.mem "#" tail = false ->
  Spec.sp_query (Spec.split_url (url ++ tail))
  = Spec.sp_query (Spec.split_url url) ++ tail.
Proof.
  intros Q F T; destruct (mem_split_once "?" url Q) as (a & b & E).
  destruct (split_once_some _ _ _ _ E) as [-> Ma].
  unfold Spec.split_url.
  rewrite (split_once_none "#" (a ++ String "?" b) F).
  rewrite (split_once_none "#" ((a ++ String "?" b) ++ tail))
    by (rewrite mem_app, F, T; reflexivity).
  rewrite (split_once_app "?" a b Ma), append_assoc.
  change (String "?" b ++ tail) with (String "?" (b ++ tail)).
  rewrite (split_once_app "?" a (b ++ tail) Ma); reflexivity.
Qed.

Lemma split_url_lost url tail :
  Str.mem "?" url = false \/ Str.mem "#" url = true ->
  Str.mem "?" tail = false -> Str.mem "#" tail = false ->
  Spec.sp_query (Spec.split_url (url ++ tail))
  = Spec.sp_query (Spec.split_url url).
Proof.
  intros H Q T; unfold Spec.split_url.
  destruct (Str.split_once "#" url) as [[a f] |] eqn:E.
  - destruct (split_once_some _ _ _ _ E) as [-> Ma].
    rewrite append_assoc.
    change (String "#" f ++ tail) with (String "#" (f ++ tail)).
    rewrite (split_once_app "#" a (f ++ tail) Ma).
    destruct (Str.split_once "?" a) as [[x y] |]; reflexivity.
  - apply split_once_none_inv in E.
    destruct H as [H | H]; [| congruence].
    rewrite (split_once_none "#" (url ++ tail))
      by (rewrite mem_app, E, T; reflexivity).
    rewrite (split_once_none "?" (url ++ tail))
      by (rewrite mem_app, H, Q; reflexivity).
    rewrite (split_once_none "?" url H); reflexivity.
Qed.

(** C5, the claim as stated fails: the sender appends its text to the
    webhook URL as it is.  For a webhook URL without a query, what is
    posted to has no parameter at all: [timestamp] and [sign] are part of
    the path. *)
Lemma C5_counterexample :
  posts (st_trace (snd (_send_dingtalk "hello" Cases.bare_bot Sample.quiet
                          Sample.start)))
  = [("https://oapi.dingtalk.com/robot/send"
      ++ "&timestamp=1700000000123"
      ++ "&sign=4rq25dbCvDvzPu78Q13usRT9KFIb3D4WJUgnt43DuI4%3D",
      Markdown "GitHub动态通知" "hello")]
  /\ Spec.url_params
       ("https://oapi.dingtalk.com/robot/send"
        ++ "&timestamp=1700000000123"
        ++ "&sign=4rq25dbCvDvzPu78Q13usRT9KFIb3D4WJUgnt43DuI4%3D")
     = [].
Proof. split; vm_compute; reflexivity. Qed.

(** C5, amended: the DingTalk signature is the URL percent-encoding of the
    base64 text of the HMAC-SHA256 digest, keyed by the secret, of the
    timestamp, a line feed and the secret; it is a function of the secret
    and the timestamp alone (for the secret [abc] and the timestamp
    [1700000000000] it is the text below); a bot with a secret is posted
    to at its webhook URL followed by [&timestamp=] and the clock's
    milliseconds and [&sign=] and the signature for them; and when the
    webhook URL has a query and no fragment, [timestamp] and [sign], with
    these values, are the last two parameters of the URL posted to, behind
    the parameters of the webhook URL. *)
Theorem C5_dingtalk_signature :
  (forall secret timestamp,
      _generate_dingtalk_sign secret timestamp
      = Spec.signature_A secret timestamp)
  /\
  _generate_dingtalk_sign "abc" "1700000000000"
  = "op8PfVzJL3l7ytCWjPLUMemWOtOBySrLOe22d7A7me4%3D"
  /\
  (forall message bot w s url secret,
      bot_webhook bot = Some url ->
      bot_secret bot = Some secret ->
      secret <> "" ->
      let timestamp := Str.of_Z (w_clock w (st_clock s)) in
      posts (st_trace (snd (_send_dingtalk message bot w s)))
      = (posts (st_trace s)
         ++ [((url ++ "&timestamp=" ++ timestamp
                   ++ "&sign=" ++ Spec.signature_A secret timestamp)%string,
              Markdown "GitHub动态通知"
                       (Str.replace Str.nl (Str.nl ++ Str.nl) message))])%list)
  /\
  (forall url secret ms,
      Str.mem "?" url = true ->
      Str.mem "#" url = false ->
      let timestamp := Str.of_Z ms in
      Spec.url_params
        (url ++ "&timestamp=" ++ timestamp
             ++ "&sign=" ++ Spec.signature_A secret timestamp)
      = (Spec.url_params url
         ++ [("timestamp", timestamp);
             ("sign",
              Base64.b64encode
                (HMAC.sha256 secret (timestamp ++ Str.nl ++ secret)))])%list).
Proof.
  assert (H : forall secret timestamp,
             _generate_dingtalk_sign secret timestamp
             = Spec.signature_A secret timestamp).
  { intros secret timestamp.
    unfold _generate_dingtalk_sign, Spec.signature_A, Url.quote_plus.
    rewrite b64encode_no_blank; apply quote_percent_encode. }
  split; [exact H | split; [vm_compute; reflexivity | split]].
  - intros message bot w s url secret Hu Hs N timestamp.
    rewrite <- H; apply send_dingtalk_posts; assumption.
  - intros url secret ms Q F timestamp; rewrite <- H.
    destruct (signed_tail secret timestamp (of_Z_safe _)) as (T1 & T2 & T3).
    unfold Spec.url_params.
    rewrite <- T3, <- query_params_append; f_equal.
    apply (split_url_append url
             (String "&" ("timestamp=" ++ timestamp ++ "&sign="
                          ++ _generate_dingtalk_sign secret timestamp)) Q F).
    cbn [Str.mem]; rewrite T2; reflexivity.
Qed.

Lemma C5_witness :
  posts (st_trace (snd (_send_dingtalk "hello" Sample.ding_bot Sample.quiet
                          Sample.start)))
  = [("https://oapi.dingtalk.com/robot/send?access_token=t0ken"
      ++ "&timestamp=1700000000123"
      ++ "&sign=4rq25dbCvDvzPu78Q13usRT9KFIb3D4WJUgnt43DuI4%3D",
      Markdown "GitHub动态通知" "hello")]
  /\ Spec.url_params
       ("https://oapi.dingtalk.com/robot/send?access_token=t0ken"
        ++ "&timestamp=" ++ Str.of_Z 1700000000123
        ++ "&sign=" ++ Spec.signature_A "abc" (Str.of_Z 1700000000123))
     = [("access_token", "t0ken");
        ("timestamp", "1700000000123");
        ("sign", "4rq25dbCvDvzPu78Q13usRT9KFIb3D4WJUgnt43DuI4=")].
Proof.
  destruct C5_dingtalk_signature as (_ & _ & H & P); split.
  - rewrite (H "hello" Sample.ding_bot Sample.quiet Sample.start
               "https://oapi.dingtalk.com/robot/send?access_token=t0ken" "abc"
               eq_refl eq_refl);
      [vm_compute; reflexivity | discriminate].
  - rewrite (P "https://oapi.dingtalk.com/robot/send?access_token=t0ken"
               "abc" 1700000000123 eq_refl eq_refl).
    vm_compute; reflexivity.
Defined.

(** X14: what the reader of a signed DingTalk URL finds.  For a bot with a
    secret whose webhook URL has a query and no fragment, the URL posted to
    has the parameters of the webhook URL, in their order, then
    [timestamp] with the clock's milliseconds, then [sign] whose value,
    once percent-decoded, is the base64 text of the HMAC-SHA256 digest. *)
Theorem X14_dingtalk_signed_url_parameters :
  forall message bot w s url secret,
    bot_webhook bot = Some url ->
    bot_secret bot = Some secret ->
    secret <> "" ->
    Str.mem "?" url = true ->
    Str.mem "#" url = false ->
    let timestamp := Str.of_Z (w_clock w (st_clock s)) in
    posted_params (st_trace (snd (_send_dingtalk message bot w s)))
    = (posted_params (st_trace s)
       ++ [(Spec.url_params url
            ++ [("timestamp", timestamp);
                ("sign",
                 Base64.b64encode
                   (HMAC.sha256 secret (timestamp ++ Str.nl ++ secret)))])%list]
      )%list.
Proof.
  intros message bot w s url secret Hu Hs N Q F timestamp.
  unfold posted_params.
  rewrite (send_dingtalk_posts message bot w s url secret Hu Hs N), map_app.
  cbn [map fst]; fold timestamp; f_equal; f_equal.
  destruct (signed_tail secret timestamp (of_Z_safe _)) as (T1 & T2 & T3).
  unfold Spec.url_params.
  rewrite <- T3, <- query_params_append; f_equal.
  apply (split_url_append url
           (String "&" ("timestamp=" ++ timestamp ++ "&sign="
                        ++ _generate_dingtalk_sign secret timestamp)) Q F).
  cbn [Str.mem]; rewrite T2; reflexivity.
Qed.

Lemma X14_witness :
  posted_params
    (st_trace (snd (_send_dingtalk "hello" Sample.ding_bot Sample.quiet
                      Sample.start)))
  = (posted_params (st_trace Sample.start)
     ++ [(Spec.url_params
            "https://oapi.dingtalk.com/robot/send?access_token=t0ken"
          ++ [("timestamp", Str.of_Z (w_clock Sample.quiet
                                        (st_clock Sample.start)));
              ("sign",
               Base64.b64encode
                 (HMAC.sha256 "abc"
                    (Str.of_Z (w_clock Sample.quiet (st_clock Sample.start))
                     ++ Str.nl ++ "abc")))])%list])%list.
Proof.
  apply (X14_dingtalk_signed_url_parameters "hello" Sample.ding_bot
           Sample.quiet Sample.start
           "https://oapi.dingtalk.com/robot/send?access_token=t0ken" "abc");
    [reflexivity | reflexivity | discriminate | reflexivity | reflexivity].
Defined.

(** X15: DingTalk's sender appends [&timestamp=...&sign=...] to the text of
    the webhook URL without looking at it.  When that URL has no query, or
    has a fragment, the timestamp and the signature end up in the path or
    in the fragment: the URL posted to has the parameters of the webhook
    URL and no others, neither [timestamp] nor [sign]. *)
Theorem X15_dingtalk_signature_needs_a_query :
  forall message bot w s url secret,
    bot_webhook bot = Some url ->
    bot_secret bot = Some secret ->
    secret <> "" ->
    Str.mem "?" url = false \/ Str.mem "#" url = true ->
    posted_params (st_trace (snd (_send_dingtalk message bot w s)))
    = (posted_params (st_trace s) ++ [Spec.url_params url])%list.
Proof.
  intros message bot w s url secret Hu Hs N H.
  unfold posted_params.
  rewrite (send_dingtalk_posts message bot w s url secret Hu Hs N), map_app.
  cbn [map fst]; f_equal; f_equal.
  destruct (signed_tail secret (Str.of_Z (w_clock w (st_clock s)))
              (of_Z_safe _)) as (T1 & T2 & T3).
  unfold Spec.url_params; f_equal.
  apply (split_url_lost url
           (String "&" ("timestamp=" ++ Str.of_Z (w_clock w (st_clock s))
                        ++ "&sign="
                        ++ _generate_dingtalk_sign secret
                             (Str.of_Z (w_clock w (st_clock s))))) H);
    cbn [Str.mem]; [rewrite T1 | rewrite T2]; reflexivity.
Qed.

Lemma X15_witness :
  posted_params
    (st_trace (snd (_send_dingtalk "hello" Cases.bare_bot Sample.quiet
                      Sample.start)))
  = (posted_params (st_trace Sample.start)
     ++ [Spec.url_params "https://oapi.dingtalk.com/robot/send"])%list.
Proof.
  apply (X15_dingtalk_signature_needs_a_query "hello" Cases.bare_bot
           Sample.quiet Sample.start "https://oapi.dingtalk.com/robot/send"
           "abc");
    [reflexivity | reflexivity | discriminate | left; reflexivity].
Defined.

(** ** The signed URL of Feishu, as its reader sees it *)

(** The pairs of a query dictionary: every key with each of its values. *)
Definition pairs (d : Url.qdict) : list (string * string) :=
  flat_map (fun kv => map (pair (fst kv)) (snd kv)) d.

Lemma query_fields_item k vs :
  flat_map Spec.query_field (Url.encode_item (k, vs)) = map (pair k) vs.
Proof.
  unfold Url.encode_item; cbn [fst snd].
  induction vs as [| v vs IH]; [reflexivity |].
  cbn [map flat_map]; rewrite query_field_encoded, IH; reflexivity.
Qed.

(** What [urlencode] wrote reads back as the pairs of the dictionary, in
    the order of the dictionary. *)
Lemma query_params_urlencode_pairs d :
  Spec.query_params (Url.urlencode d) = pairs d.
Proof.
  unfold Spec.query_params, Url.urlencode, pairs.
  destruct (flat_map Url.encode_item d) as [| f fs] eqn:E.
  - clear -E; induction d as [| [k vs] d IH]; [reflexivity |].
    cbn [flat_map] in *; apply app_eq_nil in E; destruct E as [E1 E2].
    rewrite (IH E2); cbn [fst snd].
    unfold Url.encode_item in E1; cbn [fst snd] in E1.
    destruct vs; [reflexivity | discriminate E1].
  - rewrite <- E, (split_on_concat "&");
      [| rewrite E; discriminate | apply fields_no; reflexivity].
    clear; induction d as [| [k vs] d IH]; [reflexivity |].
    cbn [flat_map]; rewrite flat_map_app, query_fields_item, IH; reflexivity.
Qed.

(** The dictionary from which the new query is written. *)
Definition signed_query (old_query secret timestamp : string) : Url.qdict :=
  Url.dict_update (Url.parse_qs old_query)
    [("timestamp", [timestamp]);
     ("sign", [_generate_feishu_sign secret timestamp])].

Lemma query_params_written old_query secret timestamp :
  Spec.query_params (feishu_query old_query secret timestamp)
  = pairs (signed_query old_query secret timestamp).
Proof. apply query_params_urlencode_pairs. Qed.

(** *** Keys stay unique *)

Lemma keys_dict_set k v d :
  map fst (Url.dict_set k v d)
  = if existsb (String.eqb k) (map fst d) then map fst d
    else (map fst d ++ [k])%list.
Proof.
  induction d as [| [k' v'] d IH]; [reflexivity |].
  cbn [Url.dict_set map fst existsb].
  destruct (String.eqb k k'); [reflexivity |].
  cbn [map fst orb]; rewrite IH.
  destruct (existsb (String.eqb k) (map fst d)); reflexivity.
Qed.

Lemma NoDup_dict_set k v d :
  NoDup (map fst d) -> NoDup (map fst (Url.dict_set k v d)).
Proof.
  intros H; rewrite keys_dict_set.
  destruct (existsb (String.eqb k) (map fst d)) eqn:E; [exact H |].
  apply NoDup_app; [exact H | constructor; [intros [] | constructor] |].
  intros x Hx [<- | []].
  assert (T : existsb (String.eqb k) (map fst d) = true).
  { apply existsb_exists; exists k; split; [exact Hx | apply String.eqb_refl]. }
  congruence.
Qed.

Lemma NoDup_dict_append d kx :
  NoDup (map fst d) -> NoDup (map fst (Url.dict_append d kx)).
Proof.
  intros H; destruct kx as [k x]; unfold Url.dict_append.
  destruct (Url.dict_get k d); apply NoDup_dict_set, H.
Qed.

Lemma NoDup_parse_qs qs : NoDup (map fst (Url.parse_qs qs)).
Proof.
  unfold Url.parse_qs.
  assert (H : forall l d, NoDup (map fst d) ->
                          NoDup (map fst (fold_left Url.dict_append l d))).
  { induction l as [| kx l IH]; intros d Hd; [exact Hd |].
    apply IH, NoDup_dict_append, Hd. }
  apply H; constructor.
Qed.

Lemma NoDup_signed_query old_query secret timestamp :
  NoDup (map fst (signed_query old_query secret timestamp)).
Proof.
  unfold signed_query, Url.dict_update; cbn [fold_left fst snd].
  apply NoDup_dict_set, NoDup_dict_set, NoDup_parse_qs.
Qed.

(** *** The pairs of one key *)

Definition with_key (k : string) (l : list (string * string))
  : list (string * string) :=
  filter (fun p => String.eqb (fst p) k) l.

Lemma with_key_same k vs : with_key k (map (pair k) vs) = map (pair k) vs.
Proof.
  unfold with_key; induction vs as [| v vs IH]; [reflexivity |].
  cbn [map filter fst]; rewrite String.eqb_refl, IH; reflexivity.
Qed.

Lemma with_key_other k k' vs :
  String.eqb k' k = false -> with_key k (map (pair k') vs) = [].
Proof.
  intros E; unfold with_key; induction vs as [| v vs IH]; [reflexivity |].
  cbn [map filter fst]; rewrite E, IH; reflexivity.
Qed.

Lemma with_key_absent k d :
  ~ In k (map fst d) -> with_key k (pairs d) = [].
Proof.
  induction d as [| [k' vs] d IH]; intros N; [reflexivity |].
  unfold with_key, pairs in *; cbn [flat_map fst snd map] in *.
  rewrite filter_app, IH by (intros H; apply N; right; exact H).
  rewrite app_nil_r; apply with_key_other.
  apply String.eqb_neq; intros ->; apply N; left; reflexivity.
Qed.

Lemma with_key_pairs k vs d :
  NoDup (map fst d) -> Url.dict_get k d = Some vs ->
  with_key k (pairs d) = map (pair k) vs.
Proof.
  induction d as [| [k' vs'] d IH]; intros N G; [discriminate G |].
  cbn [Url.dict_get] in G; cbn [map fst] in N.
  apply NoDup_cons_iff in N; destruct N as [N1 N2].
  change (with_key k (map (pair k') vs' ++ pairs d)%list = map (pair k) vs).
  unfold with_key; rewrite filter_app; fold (with_key k (pairs d)).
  fold (with_key k (map (pair k') vs')).
  destruct (String.eqb k k') eqn:E.
  - apply String.eqb_eq in E; subst k'; inversion G; subst vs'.
    rewrite with_key_same, (with_key_absent k d N1), app_nil_r; reflexivity.
  - rewrite with_key_other by (rewrite String.eqb_sym; exact E).
    apply (IH N2 G).
Qed.

(** X16: the query that Feishu's sender writes for a bot with a secret
    (the query of the URL it hands to [urlunparse]) has exactly one
    [timestamp] and exactly one [sign], the new ones, however many of
    either the query of the webhook URL came with; and so has the URL that
    is posted to, whenever its reader finds in it the query that was
    written. *)
Theorem X16_feishu_signed_url_has_one_timestamp_and_one_sign :
  (forall old_query secret timestamp,
      with_key "timestamp"
        (Spec.query_params (feishu_query old_query secret timestamp))
      = [("timestamp", timestamp)]
      /\ with_key "sign"
           (Spec.query_params (feishu_query old_query secret timestamp))
         = [("sign", Spec.signature_B secret timestamp)])
  /\
  (forall message bot w s url secret p,
      bot_webhook bot = Some url ->
      bot_secret bot = Some secret ->
      secret <> "" ->
      w_urlparse w url = inr p ->
      let timestamp := Str.of_Z (Z.quot (w_clock w (st_clock s)) 1000) in
      let new_query := feishu_query (Url.pr_query p) secret timestamp in
      Spec.sp_query
        (Spec.split_url (w_urlunparse w (Url.replace_query p new_query)))
      = new_query ->
      exists params,
        posted_params (st_trace (snd (_send_feishu message bot w s)))
        = (posted_params (st_trace s) ++ [params])%list
        /\ with_key "timestamp" params = [("timestamp", timestamp)]
        /\ with_key "sign" params
           = [("sign", Spec.signature_B secret timestamp)]).
Proof.
  assert (Q : forall old_query secret timestamp,
             with_key "timestamp"
               (Spec.query_params (feishu_query old_query secret timestamp))
             = [("timestamp", timestamp)]
             /\ with_key "sign"
                  (Spec.query_params (feishu_query old_query secret timestamp))
                = [("sign", Spec.signature_B secret timestamp)]).
  { intros q secret timestamp; rewrite query_params_written.
    pose proof (NoDup_signed_query q secret timestamp) as N.
    split.
    - rewrite (with_key_pairs "timestamp" [timestamp] _ N); [reflexivity |].
      unfold signed_query, Url.dict_update; cbn [fold_left fst snd].
      rewrite dict_get_set_other by discriminate.
      apply dict_get_set_same.
    - rewrite (with_key_pairs "sign" [_generate_feishu_sign secret timestamp]
                 _ N); [reflexivity |].
      unfold signed_query, Url.dict_update; cbn [fold_left fst snd].
      apply dict_get_set_same. }
  split; [exact Q |].
  intros message bot w s url secret p Hu Hs N Hp timestamp new_query R.
  exists (Spec.query_params new_query); split; [| apply Q].
  unfold posted_params.
  rewrite (send_feishu_posts message bot w s url secret p Hu Hs N Hp), map_app.
  cbn [map fst]; fold timestamp; fold new_query.
  unfold Spec.url_params; rewrite R; reflexivity.
Qed.

Lemma X16_witness :
  exists params,
    posted_params
      (st_trace (snd (_send_feishu "hello" Sample.legacy_bot Sample.quiet
                        Sample.start)))
    = (posted_params (st_trace Sample.start) ++ [params])%list
    /\ with_key "timestamp" params = [("timestamp", "1700000000")]
    /\ with_key "sign" params
       = [("sign", Spec.signature_B "s3cret" "1700000000")].
Proof.
  destruct X16_feishu_signed_url_has_one_timestamp_and_one_sign as [_ H].
  apply (H "hello" Sample.legacy_bot Sample.quiet Sample.start
           Sample.legacy_hook "s3cret" (Sample.urlparse Sample.legacy_hook));
    [reflexivity | reflexivity | discriminate | reflexivity
     | vm_compute; reflexivity].
Defined.

(** *** Where the pairs of the signed URL come from *)

Lemma in_pairs k v d :
  In (k, v) (pairs d) -> exists vs, In (k, vs) d /\ In v vs.
Proof.
  unfold pairs; intros H; apply in_flat_map in H.
  destruct H as ([k' vs] & I & H); cbn [fst snd] in H.
  apply in_map_iff in H; destruct H as (x & E & Hx); inversion E; subst.
  exists vs; split; assumption.
Qed.

Lemma in_dict_set k vs k' vs' d :
  In (k, vs) (Url.dict_set k' vs' d) ->
  In (k, vs) d \/ (k = k' /\ vs = vs').
Proof.
  induction d as [| [k0 v0] d IH]; cbn [Url.dict_set].
  - intros [H | []]; inversion H; subst; right; split; reflexivity.
  - destruct (String.eqb k' k0) eqn:E.
    + apply String.eqb_eq in E; subst k0.
      intros [H | H]; [inversion H; subst; right; split; reflexivity |].
      left; right; exact H.
    + intros [H | H]; [left; left; exact H |].
      destruct (IH H) as [I | I]; [left; right; exact I | right; exact I].
Qed.

Lemma in_dict_append k vs v d k' x :
  In (k, vs) (Url.dict_append d (k', x)) -> In v vs ->
  (exists vs0, In (k, vs0) d /\ In v vs0) \/ (k = k' /\ v = x).
Proof.
  unfold Url.dict_append; intros H Hv.
  destruct (Url.dict_get k' d) as [v0 |] eqn:G;
    apply in_dict_set in H; destruct H as [H | [-> ->]].
  - left; exists vs; split; assumption.
  - apply in_app_or in Hv; destruct Hv as [Hv | [<- | []]].
    + left; exists v0; split; [apply dict_get_in, G | exact Hv].
    + right; split; reflexivity.
  - left; exists vs; split; assumption.
  - destruct Hv as [<- | []]; right; split; reflexivity.
Qed.

Lemma in_fold_append l :
  forall d k vs v,
    In (k, vs) (fold_left Url.dict_append l d) -> In v vs ->
    (exists vs0, In (k, vs0) d /\ In v vs0) \/ In (k, v) l.
Proof.
  induction l as [| [k' x] l IH]; intros d k vs v H Hv; cbn [fold_left] in H.
  - left; exists vs; split; assumption.
  - destruct (IH _ _ _ _ H Hv) as [(vs0 & I & J) | I]; [| right; right; exact I].
    destruct (in_dict_append _ _ _ _ _ _ I J) as [L | [-> ->]];
      [left; exact L | right; left; reflexivity].
Qed.

Lemma in_parse_qs k vs v qs :
  In (k, vs) (Url.parse_qs qs) -> In v vs -> In (k, v) (Url.parse_qsl qs).
Proof.
  unfold Url.parse_qs; intros H Hv.
  destruct (in_fold_append _ _ _ _ _ H Hv) as [(vs0 & [] & _) | I]; exact I.
Qed.

(** A pair that [parse_qsl] reads from a query without raw characters
    beyond ASCII is a pair that the specification reads, decoded, and its
    value is not empty. *)
Lemma parse_field_query_field k v f :
  all Url.is_ascii f = true ->
  In (k, v) (Url.parse_field f) ->
  exists k0 v0,
    In (k0, v0) (Spec.query_field f) /\ v0 <> ""
    /\ k = Utf8.decode k0 /\ v = Utf8.decode v0.
Proof.
  unfold Url.parse_field, Spec.query_field; intros A.
  destruct f as [| c f]; [intros [] |].
  change (String.eqb (String c f) "") with false; cbv iota.
  destruct (Str.split_once "=" (String c f)) as [[n x] |] eqn:E;
    [| intros []].
  destruct (split_once_some _ _ _ _ E) as [F _]; rewrite F in A.
  rewrite all_app in A; cbn [all] in A.
  apply andb_true_iff in A; destruct A as [An Ax].
  apply andb_true_iff in Ax; destruct Ax as [_ Ax].
  destruct (Nat.ltb 0 (String.length x)) eqn:L; [| intros []].
  assert (Nx : x <> "") by (intros ->; discriminate L).
  intros [H | []]; injection H as <- <-.
  exists (Url.unquote_to_bytes (Str.replace_char "+" " " n)),
         (Url.unquote_to_bytes (Str.replace_char "+" " " x)).
  split; [left; reflexivity |].
  split; [apply unquote_nonempty, replace_char_nonempty, Nx |].
  split; apply unquote_half; assumption.
Qed.

Lemma parse_qsl_query_params k v qs :
  all Url.is_ascii qs = true ->
  In (k, v) (Url.parse_qsl qs) ->
  exists k0 v0,
    In (k0, v0) (Spec.query_params qs) /\ v0 <> ""
    /\ k = Utf8.decode k0 /\ v = Utf8.decode v0.
Proof.
  unfold Spec.query_params, Url.parse_qsl; intros A H.
  apply in_flat_map in H; destruct H as (f & I & H).
  pose proof (all_split_on Url.is_ascii "&" qs A) as F.
  rewrite Forall_forall in F.
  destruct (parse_field_query_field k v f (F f I) H)
    as (k0 & v0 & J & N & Ek & Ev).
  exists k0, v0; split; [| auto].
  apply in_flat_map; exists f; split; assumption.
Qed.

(** X17: signing a Feishu URL invents no parameter.  When the old query
    has no raw character beyond ASCII, every parameter of the query that
    is written, [timestamp] and [sign] apart, is a parameter of the old
    query whose value is not empty, with the same name and value once
    these are decoded as UTF-8 (bytes that are not UTF-8 become
    U+FFFD). *)
Theorem X17_feishu_signing_invents_no_parameter :
  forall old_query secret timestamp k v,
    all Url.is_ascii old_query = true ->
    In (k, v) (Spec.query_params (feishu_query old_query secret timestamp)) ->
    k <> "timestamp" ->
    k <> "sign" ->
    exists k0 v0,
      In (k0, v0) (Spec.query_params old_query) /\ v0 <> ""
      /\ k = Utf8.decode k0 /\ v = Utf8.decode v0.
Proof.
  intros q secret timestamp k v A H Nt Ns.
  rewrite query_params_written in H; apply in_pairs in H.
  destruct H as (vs & I & Hv).
  unfold signed_query, Url.dict_update in I; cbn [fold_left fst snd] in I.
  apply in_dict_set in I; destruct I as [I | [E _]]; [| congruence].
  apply in_dict_set in I; destruct I as [I | [E _]]; [| congruence].
  apply (parse_qsl_query_params k v q A), (in_parse_qs k vs v _ I Hv).
Qed.

Lemma X17_witness :
  exists k0 v0,
    In (k0, v0) (Spec.query_params "a=%FF&b=1") /\ v0 <> ""
    /\ "a" = Utf8.decode k0 /\ Utf8.replacement = Utf8.decode v0.
Proof.
  apply (X17_feishu_signing_invents_no_parameter "a=%FF&b=1" "s3cret"
           "1700000000" "a" Utf8.replacement);
    [reflexivity | vm_compute; left; reflexivity | discriminate
     | discriminate].
Defined.

(** ** The pace of the loop *)



Section Pace.

Variable cfg : config.
Variable strptime_strftime : string -> string + string.


End Pace.


(** ** The marker table *)

(** X20: marking and asking.  With the store answering, an identifier that
    [mark_pushed] has marked is one that [is_pushed] knows; the other
    identifiers are known or not as before; marking an identifier that is
    marked already returns normally and leaves the table as it is, so the
    first time stamp stays. *)
Theorem X20_marker_round_trip :
  forall w s id,
    w_db_fault w (st_sql s) = None ->
    w_db_fault w (S (st_sql s)) = None ->
    fst ((mark_pushed id ;; is_pushed id) w s) = Ok true
    /\ (forall other,
           other <> id ->
           has_key other (pushed_events (st_db (snd (mark_pushed id w s))))
           = has_key other (pushed_events (st_db s)))
    /\ fst ((mark_pushed id ;; mark_pushed id) w s) = Ok tt
    /\ st_db (snd ((mark_pushed id ;; mark_pushed id) w s))
       = st_db (snd (mark_pushed id w s))
    /\ (has_key id (pushed_events (st_db s)) = true ->
        st_db (snd (mark_pushed id w s)) = st_db s).
Proof.
  intros w s id F1 F2.
  pose proof (mark_pushed_run w s id F1) as E1.
  assert (K : has_key id
                (pushed_events
                   (marked_table id (w_clock w (st_clock s)) (st_db s)))
              = true).
  { unfold marked_table.
    destruct (has_key id (pushed_events (st_db s))) eqn:K; [exact K |].
    cbn [pushed_events]; rewrite has_key_app; simpl.
    rewrite String.eqb_refl; apply Bool.orb_true_r. }
  rewrite !(bind_ok _ _ _ _ _ _ E1), E1; cbn [snd st_db].
  split; [| split; [| split; [| split]]].
  - rewrite is_pushed_run by exact F2; cbn [fst st_db]; rewrite K; reflexivity.
  - intros other N; unfold marked_table.
    destruct (has_key id (pushed_events (st_db s))); [reflexivity |].
    cbn [pushed_events]; rewrite has_key_app; simpl.
    apply String.eqb_neq in N; rewrite String.eqb_sym, N.
    rewrite !Bool.orb_false_r; reflexivity.
  - rewrite mark_pushed_run by exact F2; reflexivity.
  - rewrite mark_pushed_run by exact F2; cbn [snd st_db].
    unfold marked_table at 1; rewrite K; reflexivity.
  - intros H; unfold marked_table; rewrite H; reflexivity.
Qed.

Lemma X20_witness :
  fst ((mark_pushed "e1" ;; is_pushed "e1") Sample.quiet Sample.start)
  = Ok true
  /\ fst ((mark_pushed "e1" ;; mark_pushed "e1") Sample.quiet Sample.start)
     = Ok tt
  /\ st_db (snd ((mark_pushed "e1" ;; mark_pushed "e1") Sample.quiet
                   Sample.start))
     = st_db (snd (mark_pushed "e1" Sample.quiet Sample.start)).
Proof.
  destruct (X20_marker_round_trip Sample.quiet Sample.start "e1" eq_refl
              eq_refl) as (H1 & _ & H3 & H4 & _).
  split; [exact H1 | split; [exact H3 | exact H4]].
Defined.

(** ** The text of a Feishu card *)

Lemma length_append a b :
  String.length (a ++ b) = (String.length a + String.length b)%nat.
Proof. induction a as [| c a IH]; simpl; [| rewrite IH]; reflexivity. Qed.

Lemma image_match_none s : String.prefix "![" s = false -> image_match s = None.
Proof.
  intros H; destruct s as [| c s]; [reflexivity |].
  each_ascii c; try reflexivity.
  destruct s as [| c' s]; [reflexivity |].
  each_ascii c'; try reflexivity.
  destruct s; simpl in H; discriminate H.
Qed.

(** Without [!\[] there is nothing for the pattern to match. *)
Lemma strip_images_plain s :
  Str.contains "![" s = false -> strip_images 0 s = s.
Proof.
  induction s as [| c s IH]; [reflexivity |].
  cbn [Str.contains]; intros H; apply orb_false_iff in H; destruct H as [H1 H2].
  cbn [strip_images]; rewrite (image_match_none _ H1), (IH H2); reflexivity.
Qed.

Lemma strip_images_skip a :
  forall b, strip_images (String.length a) (a ++ b) = strip_images 0 b.
Proof.
  induction a as [| c a IH]; intros b; [reflexivity |].
  cbn [String.length append strip_images]; apply IH.
Qed.

Lemma strip_images_prefix p r :
  Str.mem "!" p = false -> strip_images 0 (p ++ r) = p ++ strip_images 0 r.
Proof.
  induction p as [| c p IH]; [reflexivity |].
  cbn [Str.mem]; intros H; apply orb_false_iff in H; destruct H as [H1 H2].
  cbn [append strip_images]; rewrite image_match_none, (IH H2); [reflexivity |].
  cbn [String.prefix].
  destruct (ascii_dec "!" c) as [<- | _]; [discriminate H1 | reflexivity].
Qed.

Lemma close_paren_at url rest :
  Str.mem ")" url = false ->
  Str.mem (Str.ascii_of 10) url = false ->
  close_paren (url ++ String ")" rest) = Some (S (String.length url)).
Proof.
  induction url as [| c url IH]; [reflexivity |].
  cbn [Str.mem]; intros H1 H2.
  apply orb_false_iff in H1; destruct H1 as [P1 P2].
  apply orb_false_iff in H2; destruct H2 as [N1 N2].
  cbn [append close_paren String.length]; unfold is_nl.
  rewrite Ascii.eqb_sym, P1, Ascii.eqb_sym, N1, (IH P2 N2); reflexivity.
Qed.

Lemma close_bracket_at alt url rest :
  Str.mem "]" alt = false ->
  Str.mem (Str.ascii_of 10) alt = false ->
  Str.mem ")" url = false ->
  Str.mem (Str.ascii_of 10) url = false ->
  close_bracket (alt ++ String "]" (String "(" (url ++ String ")" rest)))
  = Some (String.length alt + (2 + S (String.length url)))%nat.
Proof.
  intros B N P1 P2; induction alt as [| c alt IH].
  - cbn [append close_bracket String.length Nat.add].
    change (is_nl "]") with false; cbv iota.
    rewrite (prefix_app "](" (url ++ String ")" rest) :
               String.prefix "]("
                 (String "]" (String "(" (url ++ String ")" rest))) = true).
    rewrite (close_paren_at url rest P1 P2); reflexivity.
  - cbn [Str.mem] in B, N.
    apply orb_false_iff in B; destruct B as [B1 B2].
    apply orb_false_iff in N; destruct N as [N1 N2].
    cbn [append close_bracket String.length]; unfold is_nl.
    rewrite Ascii.eqb_sym, N1.
    cbn [String.prefix].
    destruct (ascii_dec "]" c) as [<- | _]; [discriminate B1 |].
    rewrite (IH B2 N2); reflexivity.
Qed.

Lemma replace_from_skip a old new :
  forall b,
    Str.replace_from (String.length a) old new (a ++ b)
    = Str.replace_from 0 old new b.
Proof.
  induction a as [| c a IH]; intros b; [reflexivity |].
  cbn [String.length append Str.replace_from]; apply IH.
Qed.

(** An occurrence at the head is replaced, and the search goes on behind
    it. *)
Lemma replace_here old new rest :
  old <> "" ->
  Str.replace old new (old ++ rest) = new ++ Str.replace old new rest.
Proof.
  destruct old as [| c o]; [congruence |]; intros _.
  unfold Str.replace.
  change (String c o ++ rest) with (String c (o ++ rest)).
  cbn [Str.replace_from].
  change (String c (o ++ rest)) with (String c o ++ rest).
  rewrite prefix_app; cbn [String.length Nat.pred].
  rewrite replace_from_skip; reflexivity.
Qed.

Lemma replace_none old new s :
  Str.contains old s = false -> Str.replace old new s = s.
Proof.
  unfold Str.replace; induction s as [| c s IH]; [reflexivity |].
  cbn [Str.contains]; intros H; apply orb_false_iff in H; destruct H as [H1 H2].
  cbn [Str.replace_from]; rewrite H1, (IH H2); reflexivity.
Qed.

(** X18: what Feishu is shown of a notification.  For a message made of the
    heading line, an image on one line (its caption without [\]], its
    address without [)]) and a rest that has no image mark and no heading,
    the text of the card is the rest alone, every line break doubled: the
    heading and the avatar are gone. *)
Theorem X18_feishu_card_drops_heading_and_avatar :
  forall alt url rest,
    Str.mem "]" alt = false ->
    Str.mem (Str.ascii_of 10) alt = false ->
    Str.mem ")" url = false ->
    Str.mem (Str.ascii_of 10) url = false ->
    Str.contains "![" rest = false ->
    Str.contains ("### ✨ GitHub动态通知" ++ Str.nl) rest = false ->
    _format_for_feishu
      ("### ✨ GitHub动态通知" ++ Str.nl
       ++ "![" ++ alt ++ "](" ++ url ++ ")" ++ rest)
    = Str.replace Str.nl (Str.nl ++ Str.nl) rest.
Proof.
  intros alt url rest B N P1 P2 I H.
  set (heading := "### ✨ GitHub动态通知" ++ Str.nl) in *.
  set (image := String "!" (String "[" (alt ++ String "]" (String "("
                  (url ++ String ")" rest))))).
  assert (E : "### ✨ GitHub动态通知" ++ Str.nl
              ++ "![" ++ alt ++ "](" ++ url ++ ")" ++ rest
              = heading ++ image).
  { unfold heading; rewrite append_assoc; reflexivity. }
  rewrite E; unfold _format_for_feishu.
  assert (G1 : Str.contains "![" (heading ++ image) = true).
  { apply contains_skip, contains_here.
    apply (prefix_app "![" (alt ++ String "]" (String "("
                              (url ++ String ")" rest)))). }
  assert (G2 : Str.contains "](" (heading ++ image) = true).
  { apply contains_skip.
    change image with (("![" ++ alt) ++ String "]" (String "("
                         (url ++ String ")" rest))).
    apply contains_skip, contains_here.
    apply (prefix_app "](" (url ++ String ")" rest)). }
  rewrite G1, G2; cbn [andb].
  assert (S1 : strip_images 0 (heading ++ image) = heading ++ rest).
  { rewrite strip_images_prefix by reflexivity; f_equal.
    unfold image; cbn [strip_images image_match].
    rewrite (close_bracket_at alt url rest B N P1 P2).
    cbn [option_map Nat.add Nat.pred strip_images].
    replace (alt ++ String "]" (String "(" (url ++ String ")" rest)))
      with ((alt ++ String "]" (String "(" (url ++ ")"))) ++ rest)
      by (rewrite append_assoc; cbn [append]; rewrite append_assoc;
          reflexivity).
    replace (String.length alt + S (S (S (String.length url))))%nat
      with (String.length (alt ++ String "]" (String "(" (url ++ ")"))))
      by (rewrite length_append; cbn [String.length];
          rewrite length_append; cbn [String.length]; lia).
    rewrite strip_images_skip; apply strip_images_plain, I. }
  rewrite S1, replace_here by discriminate.
  rewrite (replace_none heading "" rest H); reflexivity.
Qed.

(** What follows the avatar in the notification of [Sample.star] when the
    lookups time out. *)
Definition star_rest : string :=
  " **[alice](https://github.com/alice)**" ++ Str.nl
  ++ Str.join_lines
       [ "**⌚ 时间**: 2024-05-01 12:34";
         "**🔧 操作**: ⭐ Starred";
         "**📦 仓库**: [alice/repo](https://github.com/alice/repo)";
         "**📝 描述**: 暂无描述";
         "**🌐 语言**:  | **⭐ Stars**: 0";
         "---" ].

Lemma X18_witness :
  fst (format_message Sample.strptime_strftime Sample.star Sample.quiet
         Sample.start)
  = Ok ("### ✨ GitHub动态通知" ++ Str.nl
        ++ "![" ++ "用户头像" ++ "](" ++ (default_avatar ++ "?size=20") ++ ")"
        ++ star_rest)
  /\ _format_for_feishu
       ("### ✨ GitHub动态通知" ++ Str.nl
        ++ "![" ++ "用户头像" ++ "](" ++ (default_avatar ++ "?size=20") ++ ")"
        ++ star_rest)
     = Str.replace Str.nl (Str.nl ++ Str.nl) star_rest.
Proof.
  split; [vm_compute; reflexivity |].
  apply (X18_feishu_card_drops_heading_and_avatar "用户头像"
           (default_avatar ++ "?size=20") star_rest);
    vm_compute; reflexivity.
Defined.
